(** * Vision AI Guide: session orchestration, scene-analysis loop, capture
      and location hooks

    A shallow embedding of the TypeScript sources

      - [services/geminiService.ts]      (class [LiveSession], the PCM16
                                          codec, the request helpers)
      - [hooks/useGeminiLive]            (the live dialogue orchestrator)
      - [hooks/useGeolocation]           (single-flight location requests)
      - [hooks/useWebcam]                (camera acquisition, torch, switch)
      - [components/CameraVisualizer.tsx] (the [runAnalysis] polling cycle)
      - the server                       (the speech, scene and detection
                                          endpoints)
      - [App.tsx]                        (the two emergency handlers)

    Conventions.  A JavaScript string is a [string]; every character stands
    for one UTF-16 code unit below 256.  A JavaScript number that holds a time
    or a duration is a rational [Q].  React state and [useRef] cells are the
    fields of one record per hook; an [async] function is a state transformer
    that receives the results of the calls it awaits from a record of
    oracles, and everything the hook does to the outside (socket frames,
    audio nodes started or stopped, callbacks invoked) is appended to a
    trace kept in that record. *)

From Stdlib Require Import QArith Qminmax.
From stdpp Require Import base list strings gmap.

Open Scope string_scope.
Open Scope list_scope.

(* ===================================================================== *)
(** ** JavaScript strings                                                 *)
(* ===================================================================== *)

Module Js.

(** [hay.includes(needle)] *)
Fixpoint includes (needle hay : string) : bool :=
  match hay with
  | EmptyString => String.prefix needle EmptyString
  | String _ rest => String.prefix needle hay || includes needle rest
  end.

(** [s.split(sep)] for a non-empty separator: the pieces between successive
    non-overlapping occurrences of [sep], scanning from the left.  [skip]
    counts the characters of a matched separator still to be dropped. *)
Fixpoint split_go (sep : string) (skip : nat) (s : string) : list string :=
  match s with
  | EmptyString => [EmptyString]
  | String c rest =>
      match skip with
      | S k => split_go sep k rest
      | O =>
          if String.prefix sep s
          then EmptyString :: split_go sep (String.length sep - 1) rest
          else match split_go sep 0 rest with
               | piece :: pieces => String c piece :: pieces
               | [] => [String c EmptyString]
               end
      end
  end.

Definition split (sep s : string) : list string := split_go sep 0 s.

(** White space and line terminators removed by [String.prototype.trim],
    as far as they fit in one code unit below 256: TAB, LF, VT, FF, CR,
    SPACE and NO-BREAK SPACE. *)
Definition isWhiteSpace (c : Ascii.ascii) : bool :=
  let n := Ascii.nat_of_ascii c in
  ((9 <=? n)%nat && (n <=? 13)%nat) || (n =? 32)%nat || (n =? 160)%nat.

Fixpoint trimStart (s : string) : string :=
  match s with
  | EmptyString => EmptyString
  | String c rest => if isWhiteSpace c then trimStart rest else s
  end.

Fixpoint trimEnd (s : string) : string :=
  match s with
  | EmptyString => EmptyString
  | String c rest =>
      match trimEnd rest with
      | EmptyString => if isWhiteSpace c then EmptyString else String c EmptyString
      | kept => String c kept
      end
  end.

(** [s.trim()] *)
Definition trim (s : string) : string := trimEnd (trimStart s).

(** Truthiness of an optional string: [undefined] and [''] are falsy. *)
Definition truthy (s : option string) : bool :=
  match s with
  | Some (String _ _) => true
  | _ => false
  end.

(** A string value is truthy when it is not empty. *)
Definition nonEmpty (s : string) : bool :=
  match s with
  | EmptyString => false
  | String _ _ => true
  end.

(** [a || b] on optional strings. *)
Definition orElse (a b : option string) : option string :=
  if truthy a then a else b.

(** What a template literal or [+] prints for a possibly undefined string. *)
Definition show (s : option string) : string :=
  match s with
  | Some v => v
  | None => "undefined"
  end.

(** The result of an awaited call or of a block that may throw; of the
    thrown value only its [toString()] rendering is kept. *)
Inductive Outcome (A : Type) : Type :=
  | Returned (value : A)
  | Threw (errorMsg : string).

Arguments Returned {A} value.
Arguments Threw {A} errorMsg.

End Js.

Export Js.

(** [{ latitude, longitude }] *)
Record LatLng : Type := { latitude : Q; longitude : Q }.

(* ===================================================================== *)
(** ** services/geminiService.ts: the duplex session transport            *)
(* ===================================================================== *)

Module Transport.

Record Base64Media : Type := { data : string; mimeType : string }.

(** [WebSocket.readyState] *)
Inductive ReadyState : Type := CONNECTING | OPEN | CLOSING | CLOSED.

#[export] Instance ReadyState_eq_dec : EqDecision ReadyState.
Proof. solve_decision. Defined.

(** [functionResponses: { id, name, response }] with [response = { result }] *)
Record FunctionResponse : Type :=
  { fr_id : string; fr_name : string; fr_result : string }.

(** The two outbound envelopes, before [JSON.stringify]. *)
Inductive Envelope : Type :=
  | RealtimeInput (media : Base64Media)
  | ToolResponse (functionResponses : FunctionResponse).

(** The browser socket: its ready state and the frames handed to
    [ws.send], oldest first. *)
Record WebSocket : Type := { readyState : ReadyState; sent : list Envelope }.

(** [class LiveSession]: the socket and the callbacks given to
    [connectLiveSession], stored once by the constructor and never
    replaced.  [C] is what the [onMessage] closure has captured. *)
Record LiveSession (C : Type) : Type := { ws : WebSocket; callbacks : C }.

Arguments ws {C} _.
Arguments callbacks {C} _.

Definition ws_send (frame : Envelope) (sock : WebSocket) : WebSocket :=
  {| readyState := readyState sock; sent := sent sock ++ [frame] |}.

(** [WebSocket.close()]: starts the closing handshake unless the socket is
    already closing or closed. *)
Definition ws_close (sock : WebSocket) : WebSocket :=
  match readyState sock with
  | CONNECTING | OPEN => {| readyState := CLOSING; sent := sent sock |}
  | CLOSING | CLOSED => sock
  end.

Definition sendRealtimeInput {C} (media : Base64Media) (s : LiveSession C) : LiveSession C :=
  if decide (readyState (ws s) = OPEN)
  then {| ws := ws_send (RealtimeInput media) (ws s); callbacks := callbacks s |}
  else s.

Definition sendToolResponse {C} (response : FunctionResponse) (s : LiveSession C) : LiveSession C :=
  if decide (readyState (ws s) = OPEN)
  then {| ws := ws_send (ToolResponse response) (ws s); callbacks := callbacks s |}
  else s.

Definition close {C} (s : LiveSession C) : LiveSession C :=
  {| ws := ws_close (ws s); callbacks := callbacks s |}.

(** A session that is still connecting, a microphone chunk and a tool
    response. *)
Definition connecting : LiveSession unit :=
  {| ws := {| readyState := CONNECTING; sent := [] |}; callbacks := tt |}.

Definition micChunk : Base64Media :=
  {| data := "AAAA"; mimeType := "audio/pcm;rate=16000" |}.

Definition searchDone : FunctionResponse :=
  {| fr_id := "call-1"; fr_name := "webSearch"; fr_result := "Opened search." |}.

End Transport.

(* ===================================================================== *)
(** ** hooks/useGeminiLive: the live dialogue orchestrator                *)
(* ===================================================================== *)

Module Live.

Import Transport.

(** *** Data *)

(** [ToolCall]; [args] is a [Record<string, any>] of which only string
    members are read. *)
Record ToolCall : Type :=
  { name : string; id : string; args : gmap string string }.

Record GroundingSource : Type := { title : string; uri : string }.

Inductive MessageType : Type := user | ai | tool_call.

(** [Omit<ChatMessage, 'timestamp'>], the argument of [addMessage]; the
    wall-clock stamp that [addMessage] adds is left out. *)
Record ChatMessage : Type :=
  { type : MessageType;
    text : string;
    toolCall : option ToolCall;
    groundingSources : option (list GroundingSource) }.

Definition plain (t : MessageType) (body : string) : ChatMessage :=
  {| type := t; text := body; toolCall := None; groundingSources := None |}.

(** An [AudioContext]: whether [close()] has been called, and its clock. *)
Record AudioContext : Type := { closed : bool; currentTime : Q }.

(** A source, processor or gain node: whether it is wired to an output. *)
Record AudioNode : Type := { connected : bool }.

(** What the hook does to objects it does not keep. *)
Inductive Effect : Type :=
  | SourceStart (source : nat) (when : Q)   (* source.start(when) *)
  | SourceStop (source : nat)                (* source.stop() *)
  | EmergencyTrigger                         (* onEmergencyTrigger() *)
  | SpeechRequest (body : string)            (* generateSpeech(body, ttsVoice) *)
  | WindowOpen (url : string)                (* window.open(url, '_blank') *)
  | SocketClosed (sock : WebSocket)          (* a session dropped after close() *)
  | ConsoleError (what : string)
  | UnhandledRejection (reason : string).    (* a rejected promise nothing handles *)

(** The values of [currentInputTranscription] and
    [currentOutputTranscription] in the render in which a [handleMessage]
    closure was built ([useCallback] closes over that render's constants). *)
Record HandlerEnv : Type :=
  { capturedInput : string; capturedOutput : string }.

(** The [useState] cells and the [useRef] cells of the hook. *)
Record Orch : Type := mkOrch
  { isListening : bool;
    isConnecting : bool;
    isAssistantActive : bool;
    currentInputTranscription : string;
    currentOutputTranscription : string;
    messages : list ChatMessage;
    liveSessionRef : option (LiveSession HandlerEnv);
    audioContextRef : option AudioContext;
    outputContextRef : option AudioContext;
    inputSourceRef : option AudioNode;
    processorRef : option AudioNode;
    outputNodeRef : option AudioNode;
    playingSourcesRef : list nat;
    nextStartTimeRef : Q;
    hasAIBeenInterruptedRef : bool;
    sourcesCreated : nat;
    trace : list Effect }.

Definition initial : Orch :=
  {| isListening := false; isConnecting := false; isAssistantActive := false;
     currentInputTranscription := ""; currentOutputTranscription := "";
     messages := []; liveSessionRef := None;
     audioContextRef := None; outputContextRef := None;
     inputSourceRef := None; processorRef := None; outputNodeRef := None;
     playingSourcesRef := []; nextStartTimeRef := 0%Q;
     hasAIBeenInterruptedRef := false; sourcesCreated := 0; trace := [] |}.

(** *** Field updates *)

Definition setIsListening (v : bool) (st : Orch) : Orch :=
  let '(mkOrch _ b c d e f g h i j k l m n o p q) := st in
  mkOrch v b c d e f g h i j k l m n o p q.

Definition setIsConnecting (v : bool) (st : Orch) : Orch :=
  let '(mkOrch a _ c d e f g h i j k l m n o p q) := st in
  mkOrch a v c d e f g h i j k l m n o p q.

Definition setIsAssistantActive (v : bool) (st : Orch) : Orch :=
  let '(mkOrch a b _ d e f g h i j k l m n o p q) := st in
  mkOrch a b v d e f g h i j k l m n o p q.

Definition setCurrentInputTranscription (upd : string → string) (st : Orch) : Orch :=
  let '(mkOrch a b c d e f g h i j k l m n o p q) := st in
  mkOrch a b c (upd d) e f g h i j k l m n o p q.

Definition setCurrentOutputTranscription (upd : string → string) (st : Orch) : Orch :=
  let '(mkOrch a b c d e f g h i j k l m n o p q) := st in
  mkOrch a b c d (upd e) f g h i j k l m n o p q.

Definition setMessages (upd : list ChatMessage → list ChatMessage) (st : Orch) : Orch :=
  let '(mkOrch a b c d e f g h i j k l m n o p q) := st in
  mkOrch a b c d e (upd f) g h i j k l m n o p q.

Definition setLiveSessionRef (v : option (LiveSession HandlerEnv)) (st : Orch) : Orch :=
  let '(mkOrch a b c d e f _ h i j k l m n o p q) := st in
  mkOrch a b c d e f v h i j k l m n o p q.

Definition setAudioContextRef (v : option AudioContext) (st : Orch) : Orch :=
  let '(mkOrch a b c d e f g _ i j k l m n o p q) := st in
  mkOrch a b c d e f g v i j k l m n o p q.

Definition setOutputContextRef (v : option AudioContext) (st : Orch) : Orch :=
  let '(mkOrch a b c d e f g h _ j k l m n o p q) := st in
  mkOrch a b c d e f g h v j k l m n o p q.

Definition setInputSourceRef (v : option AudioNode) (st : Orch) : Orch :=
  let '(mkOrch a b c d e f g h i _ k l m n o p q) := st in
  mkOrch a b c d e f g h i v k l m n o p q.

Definition setProcessorRef (v : option AudioNode) (st : Orch) : Orch :=
  let '(mkOrch a b c d e f g h i j _ l m n o p q) := st in
  mkOrch a b c d e f g h i j v l m n o p q.

Definition setOutputNodeRef (v : option AudioNode) (st : Orch) : Orch :=
  let '(mkOrch a b c d e f g h i j k _ m n o p q) := st in
  mkOrch a b c d e f g h i j k v m n o p q.

Definition setPlayingSourcesRef (v : list nat) (st : Orch) : Orch :=
  let '(mkOrch a b c d e f g h i j k l _ n o p q) := st in
  mkOrch a b c d e f g h i j k l v n o p q.

Definition setNextStartTimeRef (v : Q) (st : Orch) : Orch :=
  let '(mkOrch a b c d e f g h i j k l m _ o p q) := st in
  mkOrch a b c d e f g h i j k l m v o p q.

Definition setHasAIBeenInterruptedRef (v : bool) (st : Orch) : Orch :=
  let '(mkOrch a b c d e f g h i j k l m n _ p q) := st in
  mkOrch a b c d e f g h i j k l m n v p q.

Definition setSourcesCreated (v : nat) (st : Orch) : Orch :=
  let '(mkOrch a b c d e f g h i j k l m n o _ q) := st in
  mkOrch a b c d e f g h i j k l m n o v q.

Definition emit (effects : list Effect) (st : Orch) : Orch :=
  let '(mkOrch a b c d e f g h i j k l m n o p q) := st in
  mkOrch a b c d e f g h i j k l m n o p (q ++ effects).

(** *** Asynchronous code: state passing with exceptions *)

Definition M (A : Type) : Type := Orch → Orch * Outcome A.

Definition ret {A} (a : A) : M A := λ st, (st, Returned a).

Definition bind {A B} (m : M A) (k : A → M B) : M B :=
  λ st, match m st with
        | (st', Returned a) => k a st'
        | (st', Threw e) => (st', Threw e)
        end.

(** [try { body } catch (e) { handler }] *)
Definition tryCatch {A} (body : M A) (handler : string → M A) : M A :=
  λ st, match body st with
        | (st', Threw e) => handler e st'
        | done => done
        end.

(** A statement that cannot throw. *)
Definition lift (f : Orch → Orch) : M unit := λ st, (f st, Returned tt).

(** Reading a cell. *)
Definition get {A} (f : Orch → A) : M A := λ st, (st, Returned (f st)).

(** [await] of a call whose result the oracle supplies. *)
Definition await {A} (o : Outcome A) : M A := λ st, (st, o).

Notation "x <- m ;; k" := (bind m (λ x, k))
  (at level 100, m at next level, right associativity).
Notation "m ;; k" := (bind m (λ _, k))
  (at level 100, right associativity).

(** *** The collaborators

    What the calls that the hook awaits give back during one run of a
    handler; [location] and [status] are the members of the
    [locationContext] prop. *)
Record World : Type :=
  { generateSpeech : string → Outcome string;
    decodeAudioData : string → Outcome Q;      (* duration of the decoded buffer *)
    encodeURIComponent : string → Outcome string;
    apiKey : bool;                             (* process.env.API_KEY is set *)
    location : option LatLng;
    status : string;
    requestLocation : Outcome (option LatLng);
    generateContent :
      option string → LatLng → Outcome (string * list (option string * option string));
    getFrame : Outcome (option Base64Media);
    analyzeSceneForNavigation : Base64Media → option LatLng → Outcome string }.

(** *** Helper methods *)

Definition addMessage (msg : ChatMessage) : Orch → Orch :=
  setMessages (λ prev, prev ++ [msg]).

(** [playingSourcesRef.current.forEach(s => s.stop());
     playingSourcesRef.current.clear();] *)
Definition stopAllPlaying (st : Orch) : Orch :=
  setPlayingSourcesRef [] (emit (SourceStop <$> playingSourcesRef st) st).

(** [const source = ctx.createBufferSource(); ...
     source.start(nextStartTimeRef.current);
     nextStartTimeRef.current += buffer.duration;
     playingSourcesRef.current.add(source);] *)
Definition scheduleSource (duration : Q) (st : Orch) : Orch :=
  let source := sourcesCreated st in
  let st := setSourcesCreated (S source) st in
  let st := emit [SourceStart source (nextStartTimeRef st)] st in
  let st := setNextStartTimeRef (nextStartTimeRef st + duration)%Q st in
  setPlayingSourcesRef (playingSourcesRef st ++ [source]) st.

(** The ['ended'] listener of a source. *)
Definition sourceEnded (source : nat) (st : Orch) : Orch :=
  setPlayingSourcesRef (filter (λ s, s ≠ source) (playingSourcesRef st)) st.

Definition playAudio (w : World) (base64Audio : string) : M unit :=
  ctx <- get outputContextRef ;;
  node <- get outputNodeRef ;;
  match ctx, node with
  | Some c, Some _ =>
      lift stopAllPlaying ;;
      lift (setNextStartTimeRef (currentTime c)) ;;
      duration <- await (decodeAudioData w base64Audio) ;;
      lift (scheduleSource duration)
  | _, _ => ret tt
  end.

Definition speakAndLog (w : World) (body : string)
    (isError canSpeakIfAIResponding : bool) : M unit :=
  interrupted <- get hasAIBeenInterruptedRef ;;
  playing <- get playingSourcesRef ;;
  if negb canSpeakIfAIResponding && (interrupted || (0 <? length playing)%nat)
  then lift (addMessage (plain ai body))
  else
    lift (addMessage (plain ai body)) ;;
    (if isError then lift (emit [ConsoleError body]) else ret tt) ;;
    tryCatch
      (lift (emit [SpeechRequest body]) ;;
       audio <- await (generateSpeech w body) ;;
       playAudio w audio)
      (λ _, lift (emit [ConsoleError "TTS failed"])).

(** *** Tool executors; each returns the [result] member of its answer *)

Definition executeWebSearch (w : World) (query : option string) : M string :=
  q <- await (encodeURIComponent w (show query)) ;;
  lift (emit [WindowOpen ("https://www.google.com/search?q=" +:+ q)]) ;;
  speakAndLog w ("Searching for " +:+ show query +:+ ".") false true ;;
  ret "Opened search.".

Definition executeShopping (w : World) (item : option string) : M string :=
  q <- await (encodeURIComponent w (show item)) ;;
  lift (emit [WindowOpen ("https://www.amazon.com/s?k=" +:+ q)]) ;;
  speakAndLog w ("Shopping for " +:+ show item +:+ ".") false true ;;
  ret "Opened shopping.".

(** [chunks.filter(c => c.maps?.uri && c.maps?.title).map(...)] *)
Definition placeSources (chunks : list (option string * option string))
  : list GroundingSource :=
  omap (λ c, match c with
             | (Some u, Some t) =>
                 if nonEmpty u && nonEmpty t
                 then Some {| title := t; uri := u |} else None
             | _ => None
             end) chunks.

Definition executeNearby (w : World) (query : option string) : M string :=
  if negb (apiKey w) then ret "API Key missing."
  else
    loc <- (if String.eqb (status w) "idle" || String.eqb (status w) "pending"
               || negb (bool_decide (is_Some (location w)))
            then
              speakAndLog w "I need your location. Please check your browser prompts."
                false true ;;
              await (requestLocation w)
            else ret (location w)) ;;
    match loc with
    | None =>
        let msg := "I couldn't get your location. Nearby search failed." in
        speakAndLog w msg true true ;;
        ret msg
    | Some here =>
        tryCatch
          (response <- await (generateContent w query here) ;;
           lift (addMessage {| type := ai; text := fst response; toolCall := None;
                               groundingSources := Some (placeSources (snd response)) |}) ;;
           lift (emit [SpeechRequest (fst response)]) ;;
           audio <- await (generateSpeech w (fst response)) ;;
           playAudio w audio ;;
           ret (fst response))
          (λ _,
           let msg := "Failed to search nearby places." in
           speakAndLog w msg true true ;;
           ret msg)
    end.

(** The [if / else if] chain inside the [try] of [processToolCall]. *)
Definition dispatch (w : World) (call : ToolCall) : M string :=
  if String.eqb (name call) "webSearch" || String.eqb (name call) "navigateWeb" then
    executeWebSearch w (orElse (args call !! "query") (args call !! "destination"))
  else if String.eqb (name call) "onlineShoppingSearch" then
    executeShopping w (args call !! "item")
  else if String.eqb (name call) "findNearbyPlaces" then
    executeNearby w (args call !! "query")
  else if String.eqb (name call) "callEmergencyServices" then
    lift (emit [EmergencyTrigger]) ;;
    speakAndLog w "Activating Emergency Dashboard." false false ;;
    ret "Emergency dashboard activated."
  else if String.eqb (name call) "describeEnvironment" then
    frame <- await (getFrame w) ;;
    match frame with
    | Some f =>
        speakAndLog w "Analyzing your surroundings..." false false ;;
        await (analyzeSceneForNavigation w f (location w))
    | None => ret "Unable to capture image. Please ensure the camera is enabled."
    end
  else ret ("Unknown tool " +:+ name call).

Definition processToolCall (w : World) (call : ToolCall) : M unit :=
  lift (addMessage {| type := tool_call; text := "Using " +:+ name call;
                      toolCall := Some call; groundingSources := None |}) ;;
  response <- tryCatch (dispatch w call)
                (λ e, lift (emit [ConsoleError e]) ;; ret "Tool execution failed.") ;;
  session <- get liveSessionRef ;;
  match session with
  | Some s =>
      lift (setLiveSessionRef
              (Some (sendToolResponse
                       {| fr_id := id call; fr_name := name call; fr_result := response |} s)))
  | None => ret tt
  end.

(** *** Inbound envelopes ([LiveServerMessage]) *)

Module Wire.

Record Transcription : Type := { text : option string }.

Record ServerContent : Type :=
  { inputTranscription : option Transcription;
    outputTranscription : option Transcription;
    interrupted : bool;
    turnComplete : bool;
    inlineData : option string   (* modelTurn?.parts?.[0]?.inlineData?.data *) }.

Record FunctionCall : Type :=
  { name : option string; id : option string; args : option (gmap string string) }.

Record LiveServerToolCall : Type := { functionCalls : option (list FunctionCall) }.

Record LiveServerMessage : Type :=
  { serverContent : option ServerContent;
    toolCall : option LiveServerToolCall }.

End Wire.

(** *** [handleMessage], one definition per [if] of its body *)

(** [if (msg.serverContent?.inputTranscription) ...] *)
Definition onInputTranscription (msg : Wire.LiveServerMessage) (st : Orch) : Orch :=
  match Wire.serverContent msg ≫= Wire.inputTranscription with
  | Some delta => setCurrentInputTranscription (λ prev, prev +:+ show (Wire.text delta)) st
  | None => st
  end.

(** [if (msg.serverContent?.outputTranscription) ...] *)
Definition onOutputTranscription (msg : Wire.LiveServerMessage) (st : Orch) : Orch :=
  match Wire.serverContent msg ≫= Wire.outputTranscription with
  | Some delta => setCurrentOutputTranscription (λ prev, prev +:+ show (Wire.text delta)) st
  | None => st
  end.

Definition isInterrupted (msg : Wire.LiveServerMessage) : bool :=
  from_option Wire.interrupted false (Wire.serverContent msg).

Definition isTurnComplete (msg : Wire.LiveServerMessage) : bool :=
  from_option Wire.turnComplete false (Wire.serverContent msg).

(** [if (msg.serverContent?.interrupted) ...]; the test on
    [currentOutputTranscription] reads the closure's constant. *)
Definition onInterrupted (env : HandlerEnv) (msg : Wire.LiveServerMessage)
    (st : Orch) : Orch :=
  if isInterrupted msg then
    let st := stopAllPlaying st in
    let st := setNextStartTimeRef 0%Q st in
    let st := setHasAIBeenInterruptedRef true st in
    let st := if nonEmpty (capturedOutput env)
              then addMessage (plain ai (capturedOutput env +:+ " (Interrupted)")) st
              else st in
    setCurrentOutputTranscription (λ _, "") st
  else st.

(** [if (msg.serverContent?.turnComplete) ...]; both tests read the
    closure's constants. *)
Definition onTurnComplete (env : HandlerEnv) (msg : Wire.LiveServerMessage)
    (st : Orch) : Orch :=
  if isTurnComplete msg then
    let st := if nonEmpty (capturedInput env)
              then addMessage (plain user (capturedInput env)) st else st in
    let st := if nonEmpty (capturedOutput env)
              then addMessage (plain ai (capturedOutput env)) st else st in
    let st := setCurrentInputTranscription (λ _, "") st in
    let st := setCurrentOutputTranscription (λ _, "") st in
    setHasAIBeenInterruptedRef false st
  else st.

(** [const now = outputContextRef.current.currentTime;
     nextStartTimeRef.current = Math.max(nextStartTimeRef.current, now);]
    followed by the start of the new source. *)
Definition scheduleStreamed (now duration : Q) (st : Orch) : Orch :=
  scheduleSource duration (setNextStartTimeRef (Qmax (nextStartTimeRef st) now) st).

(** [if (audioData && outputContextRef.current) ...] *)
Definition onInlineAudio (w : World) (msg : Wire.LiveServerMessage) : M unit :=
  ctx <- get outputContextRef ;;
  let audioData := Wire.serverContent msg ≫= Wire.inlineData in
  match audioData, ctx with
  | Some payload, Some c =>
      if nonEmpty payload then
        duration <- await (decodeAudioData w payload) ;;
        node <- get outputNodeRef ;;
        match node with
        | Some _ => lift (scheduleStreamed (currentTime c) duration)
        | None =>
            (* source.connect(outputNodeRef.current!) *)
            await (Threw "TypeError: Failed to execute 'connect' on 'AudioNode'")
        end
      else ret tt
  | _, _ => ret tt
  end.

(** The body of the [for (const fc of ...)] loop. *)
Definition onFunctionCall (w : World) (fc : Wire.FunctionCall) : M unit :=
  if truthy (Wire.name fc) then
    processToolCall w
      {| name := show (Wire.name fc);
         id := show (orElse (Wire.id fc) (Some "unknown"));
         args := default ∅ (Wire.args fc) |}
  else ret tt.

Fixpoint forEach {A} (body : A → M unit) (items : list A) : M unit :=
  match items with
  | [] => ret tt
  | item :: rest => body item ;; forEach body rest
  end.

(** [if (msg.toolCall) ...] *)
Definition onToolCall (w : World) (msg : Wire.LiveServerMessage) : M unit :=
  match Wire.toolCall msg with
  | Some tc =>
      match Wire.functionCalls tc with
      | Some calls => forEach (onFunctionCall w) calls
      | None => await (Threw "TypeError: msg.toolCall.functionCalls is not iterable")
      end
  | None => ret tt
  end.

Definition handleMessage (env : HandlerEnv) (w : World)
    (msg : Wire.LiveServerMessage) : M unit :=
  lift (onInputTranscription msg) ;;
  lift (onOutputTranscription msg) ;;
  lift (onInterrupted env msg) ;;
  lift (onTurnComplete env msg) ;;
  onInlineAudio w msg ;;
  onToolCall w msg.

(** [ws.onmessage] of a session whose [callbacks.onMessage] is the
    [handleMessage] closure [env]: the handler runs whatever
    [liveSessionRef] holds at that moment; what it throws is logged by the
    transport and goes no further. *)
Definition onmessage (env : HandlerEnv) (w : World) (msg : Wire.LiveServerMessage)
    (st : Orch) : Orch :=
  match handleMessage env w msg st with
  | (st', Returned _) => st'
  | (st', Threw _) => emit [ConsoleError "Error parsing WebSocket message:"] st'
  end.

(** An envelope that arrives on the socket of the session held in
    [liveSessionRef].  This is a statement about where envelopes come from,
    not about the handler: with the reference empty there is no such
    socket, hence no arrival, and the state is given back as it is.  An
    envelope that arrives on any other session is [onmessage] of that
    session. *)
Definition receive (w : World) (msg : Wire.LiveServerMessage) (st : Orch) : Orch :=
  match liveSessionRef st with
  | Some s => onmessage (callbacks s) w msg st
  | None => st
  end.

(** *** Start and stop *)

(** How the [try] block of [startSession] ends: a constructor of an
    [AudioContext] throws; [createGain] or the connection of the gain node
    throws; [getUserMedia] rejects; the creation of the input source or of
    the processor throws; the socket fails to open; the socket opens.  A
    start whose microphone request or connection attempt never settles
    does not end, and is none of these. *)
Inductive StartOutcome : Type :=
  | ContextFailed | GainFailed | MicDenied | SourceFailed | ConnectFailed | Connected.

Definition startSession (o : StartOutcome) : M unit :=
  lift (setIsConnecting true) ;;
  tryCatch
    ((* both constructors run before either reference is assigned *)
     match o with
     | ContextFailed => await (Threw "NotSupportedError")
     | _ => ret tt
     end ;;
     lift (setAudioContextRef (Some {| closed := false; currentTime := 0 |})) ;;
     lift (setOutputContextRef (Some {| closed := false; currentTime := 0 |})) ;;
     match o with
     | GainFailed => await (Threw "InvalidStateError")
     | _ => ret tt
     end ;;
     lift (setOutputNodeRef (Some {| connected := true |})) ;;
     match o with
     | MicDenied => await (Threw "NotAllowedError")
     | SourceFailed => await (Threw "InvalidStateError")
     | _ =>
         lift (setInputSourceRef (Some {| connected := false |})) ;;
         lift (setProcessorRef (Some {| connected := false |})) ;;
         match o with
         | ConnectFailed =>
             (* onError, then the rejection of connectLiveSession *)
             lift (emit [ConsoleError "[object Event]"]) ;;
             lift (setIsConnecting false) ;;
             lift (setIsListening false) ;;
             await (Threw "[object Event]")
         | _ =>
             (* onOpen *)
             lift (setIsConnecting false) ;;
             lift (setIsListening true) ;;
             lift (setIsAssistantActive true) ;;
             env <- get (λ st, {| capturedInput := currentInputTranscription st;
                                  capturedOutput := currentOutputTranscription st |}) ;;
             lift (setLiveSessionRef
                     (Some {| ws := {| readyState := OPEN; sent := [] |};
                              callbacks := env |})) ;;
             lift (setInputSourceRef (Some {| connected := true |})) ;;
             lift (setProcessorRef (Some {| connected := true |}))
         end
     end)
    (λ e,
     lift (emit [ConsoleError e]) ;;
     lift (setIsConnecting false) ;;
     lift (addMessage (plain ai "Connection failed. Check permissions."))).

Definition disconnect (node : AudioNode) : AudioNode := {| connected := false |}.

(** [ctx.close()]: the context is closed from then on. *)
Definition closeContext (ctx : AudioContext) : AudioContext :=
  {| closed := true; currentTime := currentTime ctx |}.

(** The promise that [ctx.close()] returns is neither awaited nor given a
    handler by the hook.  On a context that is closed already it is
    rejected with [InvalidStateError], and the rejection stays unhandled. *)
Definition closeRejected (ctx : option AudioContext) : list Effect :=
  match ctx with
  | Some c => if closed c then [UnhandledRejection "InvalidStateError"] else []
  | None => []
  end.

(** The session object is dropped by the last statement, so the call of
    its [close()] is recorded in the trace with the socket it leaves. *)
Definition stopSession : M unit :=
  lift (setIsListening false) ;;
  lift (setIsAssistantActive false) ;;
  session <- get liveSessionRef ;;
  match session with
  | Some s => lift (emit [SocketClosed (ws (close s))])
  | None => ret tt
  end ;;
  lift (λ st, setInputSourceRef (disconnect <$> inputSourceRef st) st) ;;
  lift (λ st, setProcessorRef (disconnect <$> processorRef st) st) ;;
  lift (λ st, setAudioContextRef (closeContext <$> audioContextRef st)
                (emit (closeRejected (audioContextRef st)) st)) ;;
  lift (λ st, setOutputContextRef (closeContext <$> outputContextRef st)
                (emit (closeRejected (outputContextRef st)) st)) ;;
  lift (setLiveSessionRef None).

Definition stopSpeaking (st : Orch) : Orch :=
  setHasAIBeenInterruptedRef true (stopAllPlaying st).

Definition sendVideoFrame (frame : Base64Media) (st : Orch) : Orch :=
  match liveSessionRef st with
  | Some s => setLiveSessionRef (Some (sendRealtimeInput frame s)) st
  | None => st
  end.

(** The [AudioContext] clocks move on by [dt] seconds. *)
Definition advanceClock (dt : Q) (st : Orch) : Orch :=
  let later := λ c, {| closed := closed c; currentTime := (currentTime c + dt)%Q |} in
  setOutputContextRef (later <$> outputContextRef st)
    (setAudioContextRef (later <$> audioContextRef st) st).

(** *** Vocabulary of the statements *)

(** The state in which the inline-audio step of [handleMessage] runs. *)
Definition beforeAudio (env : HandlerEnv) (msg : Wire.LiveServerMessage) (st : Orch) : Orch :=
  onTurnComplete env msg
    (onInterrupted env msg (onOutputTranscription msg (onInputTranscription msg st))).

Definition released (node : option AudioNode) : Prop :=
  ∀ n, node = Some n → connected n = false.

Definition shut (ctx : option AudioContext) : Prop :=
  ∀ c, ctx = Some c → closed c = true.

(** A context reference that is empty or holds a context not yet closed. *)
Definition running (ctx : option AudioContext) : Prop :=
  ∀ c, ctx = Some c → closed c = false.

(** Everything a session held has been let go: the hook is idle, holds
    no session, and every node or context it still refers to is
    disconnected or closed. *)
Definition tornDown (st : Orch) : Prop :=
  isListening st = false ∧ isAssistantActive st = false ∧
  liveSessionRef st = None ∧
  released (inputSourceRef st) ∧ released (processorRef st) ∧
  shut (audioContextRef st) ∧ shut (outputContextRef st).

(** No session is active: the hook holds no session handle and is idle. *)
Definition noSessionActive (st : Orch) : Prop :=
  liveSessionRef st = None ∧ isListening st = false ∧ isAssistantActive st = false.

(** The cells of the hook, without the record of what it did. *)
Definition cells (st : Orch) : Orch :=
  let '(mkOrch a b c d e f g h i j k l m n o p _) := st in
  mkOrch a b c d e f g h i j k l m n o p [].

(** "In every state in which no session is active, [stopSession] is a
    no-op that raises no error." *)
Definition stopIsNoOpWhenIdle : Prop :=
  ∀ st, noSessionActive st → stopSession st = (st, Returned tt).

(** A computation, or a statement, that leaves [liveSessionRef] alone. *)
Definition keepsSession {A} (m : M A) : Prop :=
  ∀ st, liveSessionRef (fst (m st)) = liveSessionRef st.

Definition keepsSessionF (f : Orch → Orch) : Prop :=
  ∀ st, liveSessionRef (f st) = liveSessionRef st.

(** Any effect but a call of the emergency callback. *)
Definition quiet (e : Effect) : Prop :=
  match e with
  | EmergencyTrigger => False
  | _ => True
  end.

(** The frame that answers function call [fc] with [response]. *)
Definition answerTo (fc : Wire.FunctionCall) (response : string) : Envelope :=
  ToolResponse {| fr_id := show (orElse (Wire.id fc) (Some "unknown"));
                  fr_name := show (Wire.name fc);
                  fr_result := response |}.

Definition named (fc : Wire.FunctionCall) : Prop := truthy (Wire.name fc) = true.

(** The frames sent on the session in [liveSessionRef], if there is one. *)
Definition wire (st : Orch) : list Envelope :=
  from_option (λ s, sent (ws s)) [] (liveSessionRef st).

(** The inline-audio step of the envelope does not throw. *)
Definition audioStepReturns (env : HandlerEnv) (w : World)
    (msg : Wire.LiveServerMessage) (st : Orch) : Prop :=
  snd (onInlineAudio w msg (beforeAudio env msg st)) = Returned tt.

Definition carries (msg : Wire.LiveServerMessage) (calls : list Wire.FunctionCall) : Prop :=
  Wire.toolCall msg = Some {| Wire.functionCalls := Some calls |}.

(** "N named function calls give exactly N tool responses on the
    transport, in arrival order", in every state of the hook. *)
Definition everyCallAnswered : Prop :=
  ∀ env w msg calls st,
    carries msg calls → Forall named calls →
    ∃ responses,
      length responses = length calls ∧
      wire (fst (handleMessage env w msg st)) = wire st ++ zip_with answerTo calls responses.

(** The test of [speakAndLog] under which a caller that passes
    [canSpeakIfAIResponding = false] is only logged. *)
Definition midSpeech (st : Orch) : bool :=
  hasAIBeenInterruptedRef st || (0 <? length (playingSourcesRef st))%nat.

Definition confirmation : string := "Activating Emergency Dashboard.".

(** What a run of [m] from [st] adds to the trace. *)
Definition added {A} (m : M A) (st : Orch) : list Effect :=
  drop (length (trace st)) (trace (fst (m st))).

(** "Every dispatch of the emergency tool invokes the callback and speaks
    the confirmation, whatever the assistant is doing." *)
Definition emergencyAlwaysSpoken : Prop :=
  ∀ w call st,
    name call = "callEmergencyServices" →
    EmergencyTrigger ∈ added (processToolCall w call) st ∧
    SpeechRequest confirmation ∈ added (processToolCall w call) st.

(** *** Sample worlds, envelopes and states *)

(** A world without network: every request fails; audio decodes to a
    buffer of one second. *)
Definition offline : World :=
  {| generateSpeech := λ _, Threw "TypeError: Failed to fetch";
     decodeAudioData := λ _, Returned 1%Q;
     encodeURIComponent := λ s, Returned s;
     apiKey := false;
     location := None;
     status := "idle";
     requestLocation := Returned None;
     generateContent := λ _ _, Threw "TypeError: Failed to fetch";
     getFrame := Returned None;
     analyzeSceneForNavigation := λ _ _, Threw "TypeError: Failed to fetch" |}.

Definition heard (words : string) : Wire.LiveServerMessage :=
  {| Wire.serverContent :=
       Some {| Wire.inputTranscription := Some {| Wire.text := Some words |};
               Wire.outputTranscription := None;
               Wire.interrupted := false; Wire.turnComplete := false;
               Wire.inlineData := None |};
     Wire.toolCall := None |}.

Definition said (words : string) : Wire.LiveServerMessage :=
  {| Wire.serverContent :=
       Some {| Wire.inputTranscription := None;
               Wire.outputTranscription := Some {| Wire.text := Some words |};
               Wire.interrupted := false; Wire.turnComplete := false;
               Wire.inlineData := None |};
     Wire.toolCall := None |}.

Definition turnEnds : Wire.LiveServerMessage :=
  {| Wire.serverContent :=
       Some {| Wire.inputTranscription := None; Wire.outputTranscription := None;
               Wire.interrupted := false; Wire.turnComplete := true;
               Wire.inlineData := None |};
     Wire.toolCall := None |}.

Definition audioChunk : Wire.LiveServerMessage :=
  {| Wire.serverContent :=
       Some {| Wire.inputTranscription := None; Wire.outputTranscription := None;
               Wire.interrupted := false; Wire.turnComplete := false;
               Wire.inlineData := Some "AAAA" |};
     Wire.toolCall := None |}.

(** An envelope that reports an interruption and carries new audio. *)
Definition bargeIn : Wire.LiveServerMessage :=
  {| Wire.serverContent :=
       Some {| Wire.inputTranscription := None; Wire.outputTranscription := None;
               Wire.interrupted := true; Wire.turnComplete := false;
               Wire.inlineData := Some "AAAA" |};
     Wire.toolCall := None |}.

Definition askFor (tool : string) : Wire.LiveServerMessage :=
  {| Wire.serverContent := None;
     Wire.toolCall :=
       Some {| Wire.functionCalls :=
                 Some [ {| Wire.name := Some tool; Wire.id := Some "call-1";
                           Wire.args := None |} ] |} |}.

Definition emergencyCall : ToolCall :=
  {| name := "callEmergencyServices"; id := "call-7"; args := ∅ |}.

(** A first session, opened from the initial state. *)
Definition firstSession : Orch := fst (startSession Connected initial).

(** ... in which the user is heard and the assistant answers. *)
Definition midTurn : Orch :=
  receive offline (said "hello") (receive offline (heard "hi") firstSession).

(** ... or in which one second of audio was scheduled five seconds ago. *)
Definition speaking : Orch :=
  advanceClock 5 (receive offline audioChunk firstSession).

(** ... or after the user has pressed "stop speaking". *)
Definition hushed : Orch := stopSpeaking firstSession.

(** ... or after [stopSession]. *)
Definition stopped : Orch := fst (stopSession firstSession).

(** A start that fails because the microphone is refused. *)
Definition refused : Orch := fst (startSession MicDenied initial).

(** *** More vocabulary and sample worlds *)

(** The world [w] with another answer of the grounded search. *)
Definition withGenerateContent
    (answer : option string → LatLng → Outcome (string * list (option string * option string)))
    (w : World) : World :=
  {| generateSpeech := generateSpeech w;
     decodeAudioData := decodeAudioData w;
     encodeURIComponent := encodeURIComponent w;
     apiKey := apiKey w;
     location := location w;
     status := status w;
     requestLocation := requestLocation w;
     generateContent := answer;
     getFrame := getFrame w;
     analyzeSceneForNavigation := analyzeSceneForNavigation w |}.

(** The names that [processToolCall] knows. *)
Definition knownTools : list string :=
  ["webSearch"; "navigateWeb"; "onlineShoppingSearch"; "findNearbyPlaces";
   "callEmergencyServices"; "describeEnvironment"].

(** The log entry that opens every tool call. *)
Definition toolCallEntry (call : ToolCall) : ChatMessage :=
  {| type := tool_call; text := "Using " +:+ name call;
     toolCall := Some call; groundingSources := None |}.

(** An envelope that carries transcription deltas and nothing else. *)
Definition transcriptOnly (msg : Wire.LiveServerMessage) : Prop :=
  isInterrupted msg = false ∧ isTurnComplete msg = false ∧
  Wire.serverContent msg ≫= Wire.inlineData = None ∧
  Wire.toolCall msg = None.

(** What the envelope adds to the input and to the output buffer. *)
Definition inputDelta (msg : Wire.LiveServerMessage) : string :=
  from_option (λ delta, show (Wire.text delta)) ""
    (Wire.serverContent msg ≫= Wire.inputTranscription).

Definition outputDelta (msg : Wire.LiveServerMessage) : string :=
  from_option (λ delta, show (Wire.text delta)) ""
    (Wire.serverContent msg ≫= Wire.outputTranscription).

(** The strings of a list, one after the other. *)
Definition joined (pieces : list string) : string :=
  foldr String.append "" pieces.

(** The envelopes of a session, delivered in order. *)
Definition receiveAll (w : World) (envelopes : list Wire.LiveServerMessage)
    (st : Orch) : Orch :=
  foldl (λ st msg, receive w msg st) st envelopes.

(** Envelopes handed in order to the handler closure [env], whatever
    [liveSessionRef] holds. *)
Definition deliverAll (env : HandlerEnv) (w : World)
    (envelopes : list Wire.LiveServerMessage) (st : Orch) : Orch :=
  foldl (λ st msg, onmessage env w msg st) st envelopes.

(** A world in which everything answers: speech is synthesised, audio
    decodes to two seconds, the camera gives a frame. *)
Definition online : World :=
  {| generateSpeech := λ _, Returned "UklGRg==";
     decodeAudioData := λ _, Returned 2%Q;
     encodeURIComponent := λ s, Returned s;
     apiKey := true;
     location := None;
     status := "idle";
     requestLocation := Returned None;
     generateContent := λ _ _, Returned ("Two cafes are nearby.", []);
     getFrame := Returned (Some {| data := "/9j/4AAQ"; mimeType := "image/jpeg" |});
     analyzeSceneForNavigation := λ _ _, Threw "Error: Scene Analysis API failed: Bad Gateway" |}.

(** A world with a granted fix in which the search answers but speech
    synthesis is down. *)
Definition muted : World :=
  {| generateSpeech := λ _, Threw "Error: TTS API failed: Bad Gateway";
     decodeAudioData := λ _, Returned 2%Q;
     encodeURIComponent := λ s, Returned s;
     apiKey := true;
     location := Some {| latitude := 51 # 1; longitude := 0 |};
     status := "granted";
     requestLocation := Returned (Some {| latitude := 51 # 1; longitude := 0 |});
     generateContent := λ _ _,
       Returned ("Two cafes are nearby.",
                 [ (Some "https://maps.google.com/?cid=1", Some "Cafe Uno");
                   (Some "https://maps.google.com/?cid=2", None) ]);
     getFrame := Returned None;
     analyzeSceneForNavigation := λ _ _, Returned "A corridor." |}.

(** A delta without text, as an envelope. *)
Definition heardNothing : Wire.LiveServerMessage :=
  {| Wire.serverContent :=
       Some {| Wire.inputTranscription := Some {| Wire.text := None |};
               Wire.outputTranscription := None;
               Wire.interrupted := false; Wire.turnComplete := false;
               Wire.inlineData := None |};
     Wire.toolCall := None |}.

(** *** Tool calls of one envelope *)

(** The [ToolCall] that [handleMessage] builds from a function call. *)
Definition toolCallOf (fc : Wire.FunctionCall) : ToolCall :=
  {| name := show (Wire.name fc);
     id := show (orElse (Wire.id fc) (Some "unknown"));
     args := default ∅ (Wire.args fc) |}.

(** The tool calls in the message log, oldest first. *)
Definition callsLogged (st : Orch) : list ToolCall := omap toolCall (messages st).

(** A computation that leaves the projection [f] of the state alone. *)
Definition preserves {A B} (f : Orch → B) (m : M A) : Prop :=
  ∀ st, f (fst (m st)) = f st.

(** [results] are the results of [calls] dispatched one after the other
    from [st]: each is what the executor of its call returns when run in
    the state the calls before it have left (its own entry logged), and
    the generic failure text when that executor throws. *)
Fixpoint inTurn (w : World) (calls : list ToolCall) (st : Orch)
    (results : list string) : Prop :=
  match calls, results with
  | [], [] => True
  | call :: calls, result :: results =>
      match snd (dispatch w call (addMessage (toolCallEntry call) st)) with
      | Returned value => result = value
      | Threw _ => result = "Tool execution failed."
      end
      ∧ inTurn w calls (fst (processToolCall w call st)) results
  | _, _ => False
  end.

(** Three calls in one envelope: a search, a request for a description
    of the scene, and a tool the hook does not implement, sent without
    id. *)
Definition threeTools : list Wire.FunctionCall :=
  [ {| Wire.name := Some "webSearch"; Wire.id := Some "call-1";
       Wire.args := Some {[ "query" := "weather" ]} |};
    {| Wire.name := Some "describeEnvironment"; Wire.id := Some "call-2";
       Wire.args := None |};
    {| Wire.name := Some "openDoor"; Wire.id := None; Wire.args := None |} ].

Definition askAll : Wire.LiveServerMessage :=
  {| Wire.serverContent := None;
     Wire.toolCall := Some {| Wire.functionCalls := Some threeTools |} |}.

(** A world in which no audio decodes. *)
Definition undecodable : World :=
  {| generateSpeech := generateSpeech offline;
     decodeAudioData :=
       λ _, Threw "RangeError: byte length of Int16Array should be a multiple of 2";
     encodeURIComponent := encodeURIComponent offline;
     apiKey := apiKey offline;
     location := location offline;
     status := status offline;
     requestLocation := requestLocation offline;
     generateContent := generateContent offline;
     getFrame := getFrame offline;
     analyzeSceneForNavigation := analyzeSceneForNavigation offline |}.

(** An envelope with one byte of audio, which is no 16-bit sample, and a
    named call. *)
Definition callWithOddAudio : Wire.LiveServerMessage :=
  {| Wire.serverContent :=
       Some {| Wire.inputTranscription := None; Wire.outputTranscription := None;
               Wire.interrupted := false; Wire.turnComplete := false;
               Wire.inlineData := Some "QQ==" |};
     Wire.toolCall :=
       Some {| Wire.functionCalls :=
                 Some [ {| Wire.name := Some "webSearch"; Wire.id := Some "call-1";
                           Wire.args := None |} ] |} |}.

(** The handler of the first session. *)
Definition firstHandler : HandlerEnv := {| capturedInput := ""; capturedOutput := "" |}.

End Live.

(* ===================================================================== *)
(** ** hooks/useGeolocation: single-flight location requests              *)
(* ===================================================================== *)

Module Geolocation.

Inductive Status : Type := idle | pending | granted | denied | unsupported.

(** The state of a promise. *)
Inductive Settled : Type :=
  | Pending
  | Fulfilled (value : option LatLng)
  | Rejected (reason : string).

(** The [useState] cells, [promiseRef], the promises built by
    [new Promise] (a promise is named by its position in [promises]) and,
    oldest first, the promise of every [getCurrentPosition] call made. *)
Record Hook : Type := mkHook
  { location : option LatLng;
    status : Status;
    error : option string;
    promiseRef : option nat;
    promises : list Settled;
    platformRequests : list nat }.

Definition initial : Hook :=
  {| location := None; status := idle; error := None; promiseRef := None;
     promises := []; platformRequests := [] |}.

(** What the promise returned by the [async] function follows: one of the
    promises above, or a value it is resolved with at once. *)
Inductive Result : Type :=
  | Follows (promise : nat)
  | Resolved (value : option LatLng).

Definition setLocation (v : option LatLng) (h : Hook) : Hook :=
  let '(mkHook _ b c d e f) := h in mkHook v b c d e f.

Definition setStatus (v : Status) (h : Hook) : Hook :=
  let '(mkHook a _ c d e f) := h in mkHook a v c d e f.

Definition setError (v : option string) (h : Hook) : Hook :=
  let '(mkHook a b _ d e f) := h in mkHook a b v d e f.

Definition setPromiseRef (v : option nat) (h : Hook) : Hook :=
  let '(mkHook a b c _ e f) := h in mkHook a b c v e f.

(** [new Promise(executor)] whose executor calls [getCurrentPosition]. *)
Definition newPositionPromise (h : Hook) : Hook * nat :=
  let '(mkHook a b c d e f) := h in
  (mkHook a b c d (e ++ [Pending]) (f ++ [length e]), length e).

(** [requestLocation]; the first caller receives [promise.finally(...)],
    which settles as [promise] does. *)
Definition requestLocation (hasGeolocation : bool) (h : Hook) : Hook * Result :=
  match promiseRef h with
  | Some current => (h, Follows current)
  | None =>
      let h := setError None (setStatus pending h) in
      if negb hasGeolocation then
        (setError (Some "Geolocation is not supported by this browser.")
           (setStatus unsupported h),
         Resolved None)
      else
        let '(h, promise) := newPositionPromise h in
        (setPromiseRef (Some promise) h, Follows promise)
  end.

(** [resolve(value)] of promise [p], followed by the [finally] handler
    registered on it; a promise that is settled already stays as it is. *)
Definition resolve (p : nat) (value : option LatLng) (h : Hook) : Hook :=
  match promises h !! p with
  | Some Pending =>
      let '(mkHook a b c d e f) := h in
      mkHook a b c None (<[p := Fulfilled value]> e) f
  | _ => h
  end.

(** The success callback handed to [getCurrentPosition] for promise [p]. *)
Definition onPosition (p : nat) (coords : LatLng) (h : Hook) : Hook :=
  resolve p (Some coords) (setStatus granted (setLocation (Some coords) h)).

(** The error callback handed to [getCurrentPosition] for promise [p]. *)
Definition onPositionError (p : nat) (message : string) (h : Hook) : Hook :=
  resolve p None (setError (Some message) (setStatus denied h)).

(** What the platform answers to a request. *)
Inductive Answer : Type :=
  | Position (coords : LatLng)
  | PositionError (message : string).

Definition answer (p : nat) (a : Answer) (h : Hook) : Hook :=
  match a with
  | Position coords => onPosition p coords h
  | PositionError message => onPositionError p message h
  end.

Definition answered (a : Answer) : option LatLng :=
  match a with
  | Position coords => Some coords
  | PositionError _ => None
  end.

(** [n] calls of [requestLocation] one after the other, no platform answer
    arriving in between; the results are listed in call order. *)
Fixpoint calls (hasGeolocation : bool) (n : nat) (h : Hook) : Hook * list Result :=
  match n with
  | O => (h, [])
  | S k =>
      let '(h, r) := requestLocation hasGeolocation h in
      let '(h, rs) := calls hasGeolocation k h in
      (h, r :: rs)
  end.

(** What a caller that awaits result [r] sees in state [h]. *)
Definition outcome (h : Hook) (r : Result) : Settled :=
  match r with
  | Resolved value => Fulfilled value
  | Follows p => default Pending (promises h !! p)
  end.

(** What can happen to the hook. *)
Inductive Event : Type :=
  | Request
  | PlatformAnswer (p : nat) (a : Answer).

Definition step (hasGeolocation : bool) (h : Hook) (e : Event) : Hook :=
  match e with
  | Request => fst (requestLocation hasGeolocation h)
  | PlatformAnswer p a => answer p a h
  end.

Definition run (hasGeolocation : bool) (events : list Event) (h : Hook) : Hook :=
  foldl (step hasGeolocation) h events.

Definition neverRejected (h : Hook) : Prop :=
  ∀ p reason, promises h !! p ≠ Some (Rejected reason).

Definition greenwich : LatLng := {| latitude := 51 # 1; longitude := 0 |}.

(** A fix has been obtained and a second request is in flight. *)
Definition refreshing : Hook :=
  run true [Request; PlatformAnswer 0 (Position greenwich); Request] initial.

(** At most one request is outstanding: a promise that is still pending
    is the one in [promiseRef]. *)
Definition singleFlight (h : Hook) : Prop :=
  ∀ p, promises h !! p = Some Pending → promiseRef h = Some p.

End Geolocation.

(* ===================================================================== *)
(** ** hooks/useWebcam: camera acquisition                                *)
(* ===================================================================== *)

Module Webcam.

Inductive FacingMode : Type := user | environment.

#[export] Instance FacingMode_eq_dec : EqDecision FacingMode.
Proof. solve_decision. Defined.

(** A [MediaStream]: for each of its tracks, whether it is still live. *)
Record MediaStream : Type := { tracks : list bool }.

(** [stream.active] *)
Definition active (s : MediaStream) : bool := existsb id (tracks s).

(** [stream.getTracks().forEach((track) => track.stop())] *)
Definition stopTracks (s : MediaStream) : MediaStream :=
  {| tracks := (λ _, false) <$> tracks s |}.

(** The [useState] cells; every stream [getUserMedia] has handed out (a
    stream is named by its position in [devices]); and, oldest first, the
    facing mode of every [getUserMedia] call that has not settled. *)
Record Hook : Type := mkHook
  { stream : option nat;
    isEnabled : bool;
    facingMode : FacingMode;
    hasMultipleCameras : bool;
    hasTorch : bool;
    isTorchOn : bool;
    error : option string;
    devices : list MediaStream;
    inFlight : list FacingMode }.

Definition initial : Hook :=
  {| stream := None; isEnabled := false; facingMode := user;
     hasMultipleCameras := false; hasTorch := false; isTorchOn := false;
     error := None; devices := []; inFlight := [] |}.

Definition setStream (v : option nat) (h : Hook) : Hook :=
  let '(mkHook _ b c d e f g i j) := h in mkHook v b c d e f g i j.

Definition setIsEnabled (v : bool) (h : Hook) : Hook :=
  let '(mkHook a _ c d e f g i j) := h in mkHook a v c d e f g i j.

Definition setFacingMode (v : FacingMode) (h : Hook) : Hook :=
  let '(mkHook a b _ d e f g i j) := h in mkHook a b v d e f g i j.

Definition setHasTorch (v : bool) (h : Hook) : Hook :=
  let '(mkHook a b c d _ f g i j) := h in mkHook a b c d v f g i j.

Definition setIsTorchOn (v : bool) (h : Hook) : Hook :=
  let '(mkHook a b c d e _ g i j) := h in mkHook a b c d e v g i j.

Definition setError (v : option string) (h : Hook) : Hook :=
  let '(mkHook a b c d e f _ i j) := h in mkHook a b c d e f v i j.

Definition setDevices (v : list MediaStream) (h : Hook) : Hook :=
  let '(mkHook a b c d e f g _ j) := h in mkHook a b c d e f g v j.

Definition setInFlight (v : list FacingMode) (h : Hook) : Hook :=
  let '(mkHook a b c d e f g i _) := h in mkHook a b c d e f g i v.

(** [stream.active] of the stream held in the [stream] cell. *)
Definition heldActive (h : Hook) : bool :=
  match stream h with
  | Some i => from_option active false (devices h !! i)
  | None => false
  end.

(** [if (stream) stream.getTracks().forEach((track) => track.stop())] *)
Definition stopHeld (h : Hook) : Hook :=
  match stream h with
  | Some i => setDevices (alter stopTracks i (devices h)) h
  | None => h
  end.

Definition disableWebcam (h : Hook) : Hook :=
  setHasTorch false (setIsTorchOn false (setIsEnabled false (setStream None (stopHeld h)))).

(** [isEnabled && stream && facingMode === mode && stream.active] *)
Definition alreadyOn (mode : FacingMode) (h : Hook) : bool :=
  isEnabled h && bool_decide (is_Some (stream h))
  && bool_decide (facingMode h = mode) && heldActive h.

(** What the capability probe of the new stream's video track gives. *)
Inductive Probe : Type :=
  | Capabilities (torch : bool)
  | ProbeThrows (errName : string).

(** How an awaited [getUserMedia] call ends: with a stream of one live
    video track, or with an error of the given [name]. *)
Inductive Acquisition : Type :=
  | Granted (probe : Probe)
  | Refused (errName : string).

(** The [catch] block of [enableWebcam]. *)
Definition onError (errName : string) (h : Hook) : Hook :=
  let h := setStream None (setIsEnabled false h) in
  if String.eqb errName "NotAllowedError" then
    setError (Some "Camera access denied. Please check permissions.") h
  else if String.eqb errName "NotFoundError" then
    setError (Some "No camera found.") h
  else setError (Some "Could not access camera.") h.

(** [enableWebcam] up to its [await]: the early return, or the clean-up
    followed by the [getUserMedia] call. *)
Definition enableWebcam_request (mode : FacingMode) (h : Hook) : Hook :=
  if alreadyOn mode h then h
  else
    let h := stopHeld h in
    setInFlight (inFlight h ++ [mode]) h.

(** [enableWebcam] after its [await], for the oldest call in flight. *)
Definition enableWebcam_settle (o : Acquisition) (h : Hook) : Hook :=
  match inFlight h with
  | [] => h
  | mode :: rest =>
      let h := setInFlight rest h in
      match o with
      | Granted probe =>
          let newStream := length (devices h) in
          let h := setDevices (devices h ++ [{| tracks := [true] |}]) h in
          let h := setError None (setFacingMode mode
                     (setIsEnabled true (setStream (Some newStream) h))) in
          match probe with
          | Capabilities torch => setIsTorchOn false (setHasTorch torch h)
          | ProbeThrows errName => onError errName h
          end
      | Refused errName => onError errName h
      end
  end.

(** A call of [enableWebcam] that runs to its end before anything else
    happens. *)
Definition enableWebcam (mode : FacingMode) (o : Acquisition) (h : Hook) : Hook :=
  if alreadyOn mode h then h
  else enableWebcam_settle o (enableWebcam_request mode h).

(** Calls and settlements in any interleaving. *)
Inductive Event : Type :=
  | Call (mode : FacingMode)
  | Settle (o : Acquisition).

Definition step (h : Hook) (e : Event) : Hook :=
  match e with
  | Call mode => enableWebcam_request mode h
  | Settle o => enableWebcam_settle o h
  end.

Definition run (events : list Event) (h : Hook) : Hook := foldl step h events.

(** The number of capture streams that are active. *)
Definition activeStreams (h : Hook) : nat := length (filter (λ s, active s = true) (devices h)).

(** The probe of a granted stream answers. *)
Definition probed (o : Acquisition) : Prop :=
  match o with
  | Granted (ProbeThrows _) => False
  | _ => True
  end.

(** The states passed through by calls made one after the other, each
    run to its end: before each call, at its [await], and after it. *)
Fixpoint passed (callList : list (FacingMode * Acquisition)) (h : Hook) : list Hook :=
  match callList with
  | [] => [h]
  | (mode, o) :: rest =>
      h :: enableWebcam_request mode h :: passed rest (enableWebcam mode o h)
  end.

(** No active stream besides the one held, and no call in flight. *)
Definition settled (h : Hook) : Prop :=
  inFlight h = [] ∧ activeStreams h = (if heldActive h then 1 else 0).

Definition countActive (streams : list MediaStream) : nat :=
  length (filter (λ s, active s = true) streams).

(** "For all sequences of enable calls, at most one capture stream is
    active at any time", the calls settling whenever the platform
    answers. *)
Definition oneStreamAtMost : Prop :=
  ∀ events, (activeStreams (run events initial) ≤ 1)%nat.

(** Two calls made before either has settled, both then granted. *)
Definition doubleTap : list Event :=
  [Call user; Call user;
   Settle (Granted (Capabilities false)); Settle (Granted (Capabilities false))].

(** Three calls, each run to its end before the next. *)
Definition threeCalls : list (FacingMode * Acquisition) :=
  [(user, Granted (Capabilities true));
   (environment, Granted (Capabilities false));
   (environment, Refused "NotAllowedError")].

(** *** The other operations of the hook *)

(** [facingMode === 'user' ? 'environment' : 'user'] *)
Definition newMode (mode : FacingMode) : FacingMode :=
  match mode with
  | user => environment
  | environment => user
  end.

(** [toggleCamera], the call of [enableWebcam] it makes run to its end. *)
Definition toggleCamera (o : Acquisition) (h : Hook) : Hook :=
  enableWebcam (newMode (facingMode h)) o h.

(** [toggleTorch]; [applyConstraints] is how the awaited
    [track.applyConstraints] call ends. *)
Definition toggleTorch (applyConstraints : Outcome unit) (h : Hook) : Hook :=
  if negb (bool_decide (is_Some (stream h))) || negb (hasTorch h) then h
  else
    match applyConstraints with
    | Returned _ => setIsTorchOn (negb (isTorchOn h)) h
    | Threw _ => setIsTorchOn false (setHasTorch false h)
    end.

(** The message that the [catch] block of [enableWebcam] shows for an
    error of the given [name]. *)
Definition errorText (errName : string) : string :=
  if String.eqb errName "NotAllowedError"
  then "Camera access denied. Please check permissions."
  else if String.eqb errName "NotFoundError" then "No camera found."
  else "Could not access camera.".

(** The rear camera on, its torch lit. *)
Definition torchLit : Hook :=
  toggleTorch (Returned tt) (enableWebcam environment (Granted (Capabilities true)) initial).

End Webcam.

(* ===================================================================== *)
(** ** components/CameraVisualizer.tsx: the scene-analysis cycle          *)
(* ===================================================================== *)

Module Visualizer.

Import Transport.

Record BoundingBox : Type := { yMin : Q; xMin : Q; yMax : Q; xMax : Q }.

Record DetectedObject : Type :=
  { name : string; description : string; boundingBox : BoundingBox }.

Record DetectedFace : Type := { faceBox : BoundingBox }.

Record AnalysisResult : Type :=
  { sceneDescription : string;
    spatialAnalysis : string;
    detectedObjects : list DetectedObject;
    detectedFaces : list DetectedFace }.

(** What [response.json()] gives for the detection request.  The client
    hands it on unchecked as an [AnalysisResult], so the two members that
    the cycle reads may be missing. *)
Record Detection : Type :=
  { jsonSceneDescription : option string;
    jsonSpatialAnalysis : string;
    jsonDetectedObjects : option (list DetectedObject);
    jsonDetectedFaces : list DetectedFace }.

(** A reply that has every member of [AnalysisResult]. *)
Definition typed (result : AnalysisResult) : Detection :=
  {| jsonSceneDescription := Some (sceneDescription result);
     jsonSpatialAnalysis := spatialAnalysis result;
     jsonDetectedObjects := Some (detectedObjects result);
     jsonDetectedFaces := detectedFaces result |}.

Coercion typed : AnalysisResult >-> Detection.

(** Calls of the props and of the timer, in the order they are made. *)
Inductive Effect : Type :=
  | AnalysisUpdate (result : option Detection) (loading : bool)
      (error : option string)                 (* onAnalysisUpdate(...) *)
  | Speak (body : string)                     (* speakAndLog(body) *)
  | EmergencyTrigger                          (* onEmergencyTrigger() *)
  | SetTimeout (delay : N)                    (* window.setTimeout(runAnalysis, delay) *)
  | ConsoleError (what : string).

Record State : Type := mkState
  { boundingBoxes : option Detection;
    selectedObject : option DetectedObject;
    coverageRatio : Q;
    isAnalyzingRef : bool;
    emergencyTriggeredRef : option string;
    trace : list Effect }.

Definition initial : State :=
  {| boundingBoxes := None; selectedObject := None; coverageRatio := 0;
     isAnalyzingRef := false; emergencyTriggeredRef := None; trace := [] |}.

(** What one run of [runAnalysis] closes over and is answered. *)
Record Cycle : Type :=
  { isEnabled : bool;                          (* webcam.isEnabled *)
    isDetectionEnabled : bool;
    onLine : bool;                             (* navigator.onLine *)
    captureFrame : Outcome (option Base64Media);
    generateObjectDescription : Base64Media → Outcome Detection;
    onEmergencyTrigger : bool                  (* the optional prop is given *) }.

Definition setBoundingBoxes (v : option Detection) (st : State) : State :=
  let '(mkState _ b c d e f) := st in mkState v b c d e f.

Definition setCoverageRatio (v : Q) (st : State) : State :=
  let '(mkState a b _ d e f) := st in mkState a b v d e f.

Definition setIsAnalyzingRef (v : bool) (st : State) : State :=
  let '(mkState a b c _ e f) := st in mkState a b c v e f.

Definition setEmergencyTriggeredRef (v : option string) (st : State) : State :=
  let '(mkState a b c d _ f) := st in mkState a b c d v f.

Definition emit (effects : list Effect) (st : State) : State :=
  let '(mkState a b c d e f) := st in mkState a b c d e (f ++ effects).

Definition marker : string := "CRITICAL EMERGENCY:".

(** [(xMax - xMin) * (yMax - yMin)] *)
Definition area (box : BoundingBox) : Q :=
  ((xMax box - xMin box) * (yMax box - yMin box))%Q.

(** The [forEach] that keeps the largest area, started from 0. *)
Definition largestArea (objects : list DetectedObject) : Q :=
  foldl (λ maxArea obj,
           if Qlt_le_dec maxArea (area (boundingBox obj))
           then area (boundingBox obj) else maxArea)
        0%Q objects.

(** [sceneDescription.split(marker)[1].split(".")[0].trim()]; indexing
    past the end gives [undefined], on which [split] throws. *)
Definition emergencyTypeOf (sceneDescription : string) : Outcome string :=
  match split marker sceneDescription !! 1%nat with
  | Some rest =>
      match split "." rest !! 0%nat with
      | Some head => Returned (trim head)
      | None => Threw "TypeError: Cannot read properties of undefined (reading 'trim')"
      end
  | None => Threw "TypeError: Cannot read properties of undefined (reading 'split')"
  end.

(** The block under [// Check for CRITICAL EMERGENCY], for a reply that
    has a scene description. *)
Definition checkEmergency (c : Cycle) (sceneDescription : string) (st : State)
  : State * Outcome unit :=
  if includes marker sceneDescription && onEmergencyTrigger c then
    match emergencyTypeOf sceneDescription with
    | Returned emergencyType =>
        if decide (emergencyTriggeredRef st ≠ Some emergencyType) then
          let st := setEmergencyTriggeredRef (Some emergencyType) st in
          (emit [Speak ("Visual system detected a critical event: " +:+ emergencyType
                        +:+ ". Activating emergency dashboard.");
                 EmergencyTrigger] st,
           Returned tt)
        else (st, Returned tt)
    | Threw e => (st, Threw e)
    end
  else (setEmergencyTriggeredRef None st, Returned tt).

(** The [try] block.  The reply is stored and reported before any of its
    members is read; reading [length] of a missing [detectedObjects], or
    [includes] of a missing [sceneDescription], throws a [TypeError]. *)
Definition analyse (c : Cycle) (st : State) : State * Outcome unit :=
  match captureFrame c with
  | Threw e => (st, Threw e)
  | Returned None => (emit [SetTimeout 1000%N] st, Returned tt)
  | Returned (Some frame) =>
      match generateObjectDescription c frame with
      | Threw e => (st, Threw e)
      | Returned result =>
          let st := setBoundingBoxes (Some result) st in
          let st := emit [AnalysisUpdate (Some result) false None] st in
          match jsonDetectedObjects result with
          | None =>
              (st, Threw "TypeError: Cannot read properties of undefined (reading 'length')")
          | Some detectedObjects =>
              let st := setCoverageRatio
                          (if (0 <? length detectedObjects)%nat
                           then largestArea detectedObjects else 0%Q) st in
              match jsonSceneDescription result with
              | None =>
                  (st, Threw "TypeError: Cannot read properties of undefined (reading 'includes')")
              | Some sceneDescription =>
                  match checkEmergency c sceneDescription st with
                  | (st, Returned _) => (emit [SetTimeout 2000%N] st, Returned tt)
                  | (st, Threw e) => (st, Threw e)
                  end
              end
          end
      end
  end.

Definition isQuotaError (errorMsg : string) : bool :=
  includes "429" errorMsg || includes "quota" errorMsg
  || includes "RESOURCE_EXHAUSTED" errorMsg.

Definition isTimeout (errorMsg : string) : bool := includes "timed out" errorMsg.

(** [isQuotaError ? 60000 : isTimeout ? 10000 : 5000] *)
Definition backoff (errorMsg : string) : N :=
  if isQuotaError errorMsg then 60000%N
  else if isTimeout errorMsg then 10000%N else 5000%N.

Definition notice (errorMsg : string) : string :=
  if isQuotaError errorMsg then "Quota exceeded. Pausing 1 min."
  else if isTimeout errorMsg then "Network timeout. Retrying..."
  else "Analysis error. Retrying...".

(** The [catch] block. *)
Definition recover (errorMsg : string) (st : State) : State :=
  let st := emit [ConsoleError "Analysis error"] st in
  let st := emit [AnalysisUpdate None false (Some (notice errorMsg))] st in
  let st := if isQuotaError errorMsg then setBoundingBoxes None st else st in
  emit [SetTimeout (backoff errorMsg)] st.

Definition runAnalysis (c : Cycle) (st : State) : State :=
  if negb (isEnabled c) || negb (isDetectionEnabled c) then st
  else if negb (onLine c) then
    emit [AnalysisUpdate None false (Some "No internet connection."); SetTimeout 5000%N] st
  else if isAnalyzingRef st then st
  else
    let st := setIsAnalyzingRef true st in
    let st := match analyse c st with
              | (st, Returned _) => st
              | (st, Threw e) => recover e st
              end in
    setIsAnalyzingRef false st.

Definition isTrigger (e : Effect) : bool :=
  match e with
  | EmergencyTrigger => true
  | _ => false
  end.

(** The number of times the emergency callback is invoked in a trace. *)
Definition triggers (effects : list Effect) : nat :=
  length (filter (λ e, isTrigger e = true) effects).

(** *** Vocabulary of the statements *)

Definition announcement (emergencyType : string) : string :=
  "Visual system detected a critical event: " +:+ emergencyType
  +:+ ". Activating emergency dashboard.".


(** The cycle gets past its guards and the detection request answers with
    a reply that has every member. *)
Definition succeeds (c : Cycle) (result : AnalysisResult) : Prop :=
  isEnabled c = true ∧ isDetectionEnabled c = true ∧ onLine c = true ∧
  ∃ frame, captureFrame c = Returned (Some frame) ∧
           generateObjectDescription c frame = Returned (typed result).

(** The cycle gets past its guards and one of its awaited calls throws. *)
Definition failsWith (c : Cycle) (errorMsg : string) : Prop :=
  isEnabled c = true ∧ isDetectionEnabled c = true ∧ onLine c = true ∧
  (captureFrame c = Threw errorMsg ∨
   ∃ frame, captureFrame c = Returned (Some frame) ∧
            generateObjectDescription c frame = Threw errorMsg).

(** What a run of the cycle adds to the trace. *)
Definition added (c : Cycle) (st : State) : list Effect :=
  drop (length (trace st)) (trace (runAnalysis c st)).

Definition frame0 : Base64Media := {| data := "/9j/4AAQ"; mimeType := "image/jpeg" |}.

Definition describing (sceneDescription : string) : AnalysisResult :=
  {| sceneDescription := sceneDescription; spatialAnalysis := "";
     detectedObjects := []; detectedFaces := [] |}.

(** A cycle that succeeds with the given scene description, the emergency
    callback being supplied. *)
Definition seeing (sceneDescription : string) : Cycle :=
  {| isEnabled := true; isDetectionEnabled := true; onLine := true;
     captureFrame := Returned (Some frame0);
     generateObjectDescription := λ _, Returned (typed (describing sceneDescription));
     onEmergencyTrigger := true |}.

(** A cycle whose detection request fails with the given error. *)
Definition failing (errorMsg : string) : Cycle :=
  {| isEnabled := true; isDetectionEnabled := true; onLine := true;
     captureFrame := Returned (Some frame0);
     generateObjectDescription := λ _, Threw errorMsg;
     onEmergencyTrigger := true |}.

(** The successful cycles of one mounted component, one per description. *)
Definition session (reports : list string) : State :=
  foldl (λ st d, runAnalysis (seeing d) st) initial reports.

Definition typesOf (reports : list string) : list string :=
  omap (λ d, match emergencyTypeOf d with
             | Returned t => Some t
             | Threw _ => None
             end) reports.

(** "The callback is invoked exactly once per distinct emergency type." *)
Definition oncePerType : Prop :=
  ∀ reports,
    Forall (λ d, includes marker d = true) reports →
    triggers (trace (session reports)) = length (remove_dups (typesOf reports)).

Definition fire : string := "CRITICAL EMERGENCY: Fire. Flames are visible in the kitchen.".
Definition flood : string := "CRITICAL EMERGENCY: Flood. Water is rising in the hallway.".
Definition calm : string := "A quiet living room with a sofa.".

(** The delays of the timers set in a trace, oldest first. *)
Definition timers (effects : list Effect) : list N :=
  omap (λ e, match e with
             | SetTimeout delay => Some delay
             | _ => None
             end) effects.

(** A cycle that succeeds with the given result. *)
Definition detecting (result : AnalysisResult) : Cycle :=
  {| isEnabled := true; isDetectionEnabled := true; onLine := true;
     captureFrame := Returned (Some frame0);
     generateObjectDescription := λ _, Returned (typed result);
     onEmergencyTrigger := true |}.



(** A cup that fills a fifth of the frame, and a box drawn inside out. *)
Definition cupAndGhost : AnalysisResult :=
  {| sceneDescription := "A cup on a desk."; spatialAnalysis := "";
     detectedObjects :=
       [ {| name := "cup"; description := "";
            boundingBox := {| yMin := 1 # 10; xMin := 2 # 10;
                              yMax := 6 # 10; xMax := 6 # 10 |} |};
         {| name := "ghost"; description := "";
            boundingBox := {| yMin := 1 # 10; xMin := 9 # 10;
                              yMax := 9 # 10; xMax := 1 # 10 |} |} ];
     detectedFaces := [] |}.

(** A cycle run while the browser is offline. *)
Definition unplugged : Cycle :=
  {| isEnabled := true; isDetectionEnabled := true; onLine := false;
     captureFrame := Returned (Some frame0);
     generateObjectDescription := λ _, Returned (typed (describing fire));
     onEmergencyTrigger := true |}.

End Visualizer.

(* ===================================================================== *)
(** ** services/geminiService.ts: the PCM16 audio codec *)
(* ===================================================================== *)

Module Codec.

(** The conversion applied when a number is stored in an [Int16Array]:
    the fraction is dropped (towards zero) and the integer is taken modulo
    2^16 into the signed range. *)
Definition toInt16 (x : Q) : Z :=
  let int := (Qnum x ÷ Zpos (Qden x))%Z in
  let int16bit := (int mod 65536)%Z in
  if (int16bit <? 32768)%Z then int16bit else (int16bit - 65536)%Z.

(** [int16[i] = data[i] * 32768] for every sample. *)
Definition toPCM16 (data : list Q) : list Z :=
  (λ sample, toInt16 (sample * 32768)) <$> data.

(** The two bytes of a 16-bit element, low byte first. *)
Definition int16Bytes (v : Z) : list Z :=
  [ (v mod 256)%Z; ((v `div` 256) mod 256)%Z ].

(** [new Uint8Array(int16.buffer)] *)
Definition bytesOfInt16 (int16 : list Z) : list Z := int16 ≫= int16Bytes.

(** The bytes that [createBlob] hands to [encode]. *)
Definition createBlobBytes (data : list Q) : list Z := bytesOfInt16 (toPCM16 data).

(** The element made of a low and a high byte. *)
Definition int16Of (lo hi : Z) : Z :=
  let u := (lo + 256 * hi)%Z in
  if (u <? 32768)%Z then u else (u - 65536)%Z.

(** The elements of [new Int16Array(data.buffer)] for an even number of
    bytes; a byte left over makes the constructor throw, see
    [decodeAudioData]. *)
Fixpoint int16View (data : list Z) : list Z :=
  match data with
  | lo :: hi :: rest => int16Of lo hi :: int16View rest
  | _ => []
  end.

(** An [AudioBuffer]: its rate and, per channel, its samples. *)
Record AudioBuffer : Type :=
  { sampleRate : positive; channels : list (list Q) }.

(** [buffer.length], the number of frames. *)
Definition frames (b : AudioBuffer) : nat :=
  from_option length 0%nat (head (channels b)).

(** [buffer.duration], in seconds. *)
Definition duration (b : AudioBuffer) : Q :=
  (inject_Z (Z.of_nat (frames b)) / inject_Z (Zpos (sampleRate b)))%Q.

(** [channelData[i] = dataInt16[i * numChannels + channel] / 32768.0] for
    [i] below [frameCount]. *)
Definition channelData (dataInt16 : list Z) (numChannels frameCount channel : nat)
  : list Q :=
  (λ i, (inject_Z (default 0%Z (dataInt16 !! (i * numChannels + channel)%nat)) / 32768)%Q)
    <$> seq 0 frameCount.

(** [decodeAudioData(data, ctx, sampleRate, numChannels)].  The
    [Int16Array] constructor throws on an odd number of bytes, and
    [createBuffer] on no channel or no frame. *)
Definition decodeAudioData (data : list Z) (rate : positive) (numChannels : nat)
  : Outcome AudioBuffer :=
  if negb (Nat.even (length data)) then
    Threw "RangeError: byte length of Int16Array should be a multiple of 2"
  else
    let dataInt16 := int16View data in
    if (numChannels =? 0)%nat then
      Threw "NotSupportedError: The number of channels provided (0) is outside the range"
    else
      let frameCount := (length dataInt16 / numChannels)%nat in
      if (frameCount =? 0)%nat then
        Threw "NotSupportedError: The number of frames provided (0) is less than or equal to the minimum bound (0)"
      else
        Returned {| sampleRate := rate;
                    channels := channelData dataInt16 numChannels frameCount
                                  <$> seq 0 numChannels |}.

(** A byte of a [Uint8Array]. *)
Definition isByte (b : Z) : Prop := (0 ≤ b < 256)%Z.

(** A sample that the 16-bit format holds exactly. *)
Definition onGrid (sample : Q) : Prop :=
  ∃ k : Z, (-32768 ≤ k < 32768)%Z ∧ sample = (inject_Z k / 32768)%Q.

(** What a sample becomes on its way through [createBlob] and back
    through [decodeAudioData]. *)
Definition quantise (sample : Q) : Q :=
  (inject_Z (toInt16 (sample * 32768)) / 32768)%Q.

(** Every sample of every channel. *)
Definition samples (b : AudioBuffer) : list Q := concat (channels b).

End Codec.

(* ===================================================================== *)
(** ** server: the speech and scene endpoints, and their callers *)
(* ===================================================================== *)

Module Server.

(** The JSON bodies the endpoints send. *)
Inductive Body : Type :=
  | AudioData (audioData : string)      (* { audioData } *)
  | SceneText (text : string)           (* { text } *)
  | Detections (json : Visualizer.Detection)  (* the parsed model output *)
  | ErrorBody (error : string).         (* { error } *)

(** [res.status(status).json(body)]; [res.json(body)] sends status 200. *)
Record Reply : Type := { status : N; body : Body }.

(** [app.post('/api/tts', ...)].  [text] and [voiceName] are the members
    of [req.body]; [generateContent] gives
    [response.candidates?.[0]?.content?.parts?.[0]?.inlineData?.data], and
    what it throws is kept as its [message]. *)
Definition tts (text voiceName : option string)
    (generateContent : string → string → Outcome (option string)) : Reply :=
  if negb (truthy text) || negb (truthy voiceName) then
    {| status := 400; body := ErrorBody "Missing text or voiceName" |}
  else
    match generateContent (show text) (show voiceName) with
    | Returned base64Audio =>
        if truthy base64Audio
        then {| status := 200; body := AudioData (show base64Audio) |}
        else {| status := 500; body := ErrorBody "No audio data generated" |}
    | Threw message => {| status := 500; body := ErrorBody message |}
    end.

(** [app.post('/api/analyze-scene', ...)]; [generateContent] gives
    [response.text] for the prompt built from the request. *)
Definition analyzeScene (generateContent : Outcome (option string)) : Reply :=
  match generateContent with
  | Returned text =>
      {| status := 200;
         body := SceneText (show (orElse text (Some "I could not analyze the scene."))) |}
  | Threw message => {| status := 500; body := ErrorBody message |}
  end.

(** [app.post('/api/object-description', ...)]; [generateContent] gives
    [response.text] for the frame and the prompt, and [parse] is
    [JSON.parse] of that text, trimmed and without its code fence.
    Whatever is thrown inside the handler is answered with status 500 and
    the error's [message]. *)
Definition objectDescription (generateContent : Outcome (option string))
    (parse : string → Outcome Visualizer.Detection) : Reply :=
  match generateContent with
  | Returned (Some text) =>
      match parse text with
      | Returned json => {| status := 200; body := Detections json |}
      | Threw message => {| status := 500; body := ErrorBody message |}
      end
  | Returned None =>
      {| status := 500;
         body := ErrorBody "Cannot read properties of undefined (reading 'trim')" |}
  | Threw message => {| status := 500; body := ErrorBody message |}
  end.

End Server.

(** The client side of the endpoints (services/geminiService.ts). *)
Module Client.

Import Server.

(** [response.ok] *)
Definition ok (r : Reply) : bool := (200 <=? status r)%N && (status r <=? 299)%N.

(** [response.statusText], for the status codes the server sends. *)
Definition statusText (r : Reply) : string :=
  if (status r =? 200)%N then "OK"
  else if (status r =? 400)%N then "Bad Request"
  else if (status r =? 500)%N then "Internal Server Error"
  else "".

(** [generateSpeech]: [fetch] is how the request ends; the result is
    [data.audioData], which a body without that member leaves undefined. *)
Definition generateSpeech (fetch : Outcome Reply) : Outcome (option string) :=
  match fetch with
  | Threw e => Threw e
  | Returned r =>
      if ok r then
        Returned (match body r with
                  | AudioData audioData => Some audioData
                  | _ => None
                  end)
      else Threw ("Error: TTS API failed: " +:+ statusText r)
  end.

(** [analyzeSceneForNavigation]: the result is [data.text]. *)
Definition analyzeSceneForNavigation (fetch : Outcome Reply) : Outcome (option string) :=
  match fetch with
  | Threw e => Threw e
  | Returned r =>
      if ok r then
        Returned (match body r with
                  | SceneText text => Some text
                  | _ => None
                  end)
      else Threw ("Error: Scene Analysis API failed: " +:+ statusText r)
  end.

(** [generateObjectDescription]: a reply that is not [ok] is thrown as
    an [Error] that names the status text only; the body of an [ok] reply
    is returned as it is. *)
Definition generateObjectDescription (fetch : Outcome Reply)
  : Outcome Visualizer.Detection :=
  match fetch with
  | Threw e => Threw e
  | Returned r =>
      if ok r then
        Returned (match body r with
                  | Detections json => json
                  | _ => {| Visualizer.jsonSceneDescription := None;
                            Visualizer.jsonSpatialAnalysis := "";
                            Visualizer.jsonDetectedObjects := None;
                            Visualizer.jsonDetectedFaces := [] |}
                  end)
      else Threw ("Error: Object Description API failed: " +:+ statusText r)
  end.

(** A cycle of the analysis loop, with camera and detection on and the
    browser online, whose detection request ends as [fetch] does. *)
Definition analysing (fetch : Outcome Reply) : Visualizer.Cycle :=
  {| Visualizer.isEnabled := true; Visualizer.isDetectionEnabled := true;
     Visualizer.onLine := true;
     Visualizer.captureFrame := Returned (Some Visualizer.frame0);
     Visualizer.generateObjectDescription := λ _, generateObjectDescription fetch;
     Visualizer.onEmergencyTrigger := true |}.

(** What the model call throws when the quota is exhausted. *)
Definition quotaExhausted : string :=
  "got status: 429 Too Many Requests. RESOURCE_EXHAUSTED: check quota".

(** A speech model that answers every request with the same clip. *)
Definition clip : string → string → Outcome (option string) :=
  λ _ _, Returned (Some "UklGRg==").

End Client.

(* ===================================================================== *)
(** ** App.tsx: the two emergency handlers *)
(* ===================================================================== *)

Module App.

(** The cells of [App] that the emergency handlers touch, and the two
    hooks they call. *)
Record State : Type :=
  { isEmergencyOpen : bool;
    assistant : Live.Orch;
    geolocation : Geolocation.Hook }.

(** The [onEmergencyTrigger] prop given to [useGeminiLive]. *)
Definition onEmergencyTrigger (hasGeolocation : bool) (app : State) : State :=
  {| isEmergencyOpen := true;
     assistant := assistant app;
     geolocation :=
       match Geolocation.status (geolocation app) with
       | Geolocation.granted => geolocation app
       | _ => fst (Geolocation.requestLocation hasGeolocation (geolocation app))
       end |}.

(** [handleEmergencyOpen], the handler of the SOS button and of the
    visual emergency trigger. *)
Definition handleEmergencyOpen (hasGeolocation : bool) (app : State) : State :=
  {| isEmergencyOpen := true;
     assistant :=
       if Live.isListening (assistant app)
       then fst (Live.stopSession (assistant app))
       else assistant app;
     geolocation :=
       match Geolocation.location (geolocation app) with
       | Some _ => geolocation app
       | None => fst (Geolocation.requestLocation hasGeolocation (geolocation app))
       end |}.

(** The application with the assistant listening and no fix yet. *)
Definition listening : State :=
  {| isEmergencyOpen := false;
     assistant := Live.firstSession;
     geolocation := Geolocation.initial |}.

End App.

(* ===================================================================== *)
(** * Properties                                                          *)
(* ===================================================================== *)

(** ** The transport *)

Module TransportFacts.

Import Transport.

Section Sending.

Context {C : Type}.

Lemma sendRealtimeInput_open (media : Base64Media) (s : LiveSession C) :
  readyState (ws s) = OPEN →
  sent (ws (sendRealtimeInput media s)) = sent (ws s) ++ [RealtimeInput media].
Proof.
  intros Hopen. unfold sendRealtimeInput.
  destruct (decide _) as [_|Hne]; [reflexivity | contradiction].
Qed.

Lemma sendToolResponse_open (response : FunctionResponse) (s : LiveSession C) :
  readyState (ws s) = OPEN →
  sendToolResponse response s
  = {| ws := {| readyState := OPEN; sent := sent (ws s) ++ [ToolResponse response] |};
       callbacks := callbacks s |}.
Proof.
  intros Hopen. unfold sendToolResponse, ws_send.
  destruct (decide _) as [_|Hne]; [by rewrite Hopen | contradiction].
Qed.

(** C10.  A call of [sendRealtimeInput] or [sendToolResponse] on a session
    whose socket is not in the [OPEN] state leaves the session exactly as
    it was: no frame reaches [ws.send], the session has no queue in which
    the message could wait, and the call returns. *)
Theorem send_discarded_unless_open (media : Base64Media)
    (response : FunctionResponse) (s : LiveSession C) :
  readyState (ws s) ≠ OPEN →
  sendRealtimeInput media s = s ∧ sendToolResponse response s = s ∧
  sent (ws (sendRealtimeInput media s)) = sent (ws s) ∧
  sent (ws (sendToolResponse response s)) = sent (ws s).
Proof.
  intros Hclosed. unfold sendRealtimeInput, sendToolResponse.
  destruct (decide _) as [Hopen|_]; [contradiction | done].
Qed.
End Sending.

Lemma send_discarded_unless_open_witness :
  sendRealtimeInput micChunk connecting = connecting ∧
  sendToolResponse searchDone connecting = connecting.
Proof.
  destruct (send_discarded_unless_open micChunk searchDone connecting)
    as (Hmedia & Htool & _).
  - simpl. discriminate.
  - split; [exact Hmedia | exact Htool].
Defined.

End TransportFacts.

(** ** The orchestrator *)

Module LiveFacts.

Import Transport Live TransportFacts.

Ltac run_M := unfold bind, tryCatch, lift, get, await, ret in *.

Lemma ws_close_not_open (sock : WebSocket) :
  readyState (ws_close sock) = CLOSING ∨ readyState (ws_close sock) = CLOSED.
Proof. unfold ws_close. destruct (readyState sock) eqn:E; simpl; auto. Qed.

Lemma stopSession_returns (st : Orch) : snd (stopSession st) = Returned tt.
Proof.
  destruct st as [l cn a ci co ms s ac oc isrc pr on ps nt hi sc tr].
  unfold stopSession; run_M; simpl. by destruct s.
Qed.

(** What [stopSession] hands to the outside: the [close()] of the session
    it holds, then the rejection of each [close()] of a context that is
    closed already. *)
Lemma stopSession_trace (st : Orch) :
  trace (fst (stopSession st))
  = trace st
      ++ from_option (λ s, [SocketClosed (ws_close (ws s))]) [] (liveSessionRef st)
      ++ closeRejected (audioContextRef st) ++ closeRejected (outputContextRef st).
Proof.
  destruct st as [l cn a ci co ms s ac oc isrc pr on ps nt hi sc tr].
  unfold stopSession; run_M; simpl.
  destruct s as [s|]; simpl; rewrite <- ?app_assoc; done.
Qed.

Lemma closeRejected_running (ctx : option AudioContext) :
  running ctx → closeRejected ctx = [].
Proof.
  intros Hrun. destruct ctx as [c|]; [|done]. simpl. by rewrite (Hrun c eq_refl).
Qed.

Lemma stopSession_leaves_idle (st : Orch) : tornDown (fst (stopSession st)).
Proof.
  destruct st as [l cn a ci co ms s ac oc isrc pr on ps nt hi sc tr].
  unfold stopSession; run_M; simpl.
  destruct s as [s|]; simpl;
    (repeat split; try done;
     [ intros n Hn; destruct isrc; simplify_eq/=; done
     | intros n Hn; destruct pr; simplify_eq/=; done
     | intros n Hn; destruct ac; simplify_eq/=; done
     | intros n Hn; destruct oc; simplify_eq/=; done ]).
Qed.

(** The cells [stopSession] writes, and those it leaves alone. *)
Lemma stopSession_cells (st : Orch) :
  let st' := fst (stopSession st) in
  inputSourceRef st' = disconnect <$> inputSourceRef st ∧
  processorRef st' = disconnect <$> processorRef st ∧
  audioContextRef st' = closeContext <$> audioContextRef st ∧
  outputContextRef st' = closeContext <$> outputContextRef st ∧
  outputNodeRef st' = outputNodeRef st ∧
  playingSourcesRef st' = playingSourcesRef st ∧
  nextStartTimeRef st' = nextStartTimeRef st ∧
  messages st' = messages st.
Proof.
  destruct st as [l cn a ci co ms s ac oc isrc pr on ps nt hi sc tr].
  unfold stopSession; run_M; simpl. by destruct s.
Qed.

Lemma stopSession_again (st : Orch) :
  cells (fst (stopSession (fst (stopSession st)))) = cells (fst (stopSession st)).
Proof.
  destruct st as [l cn a ci co ms s ac oc isrc pr on ps nt hi sc tr].
  unfold stopSession; run_M; simpl.
  destruct s as [s|], isrc as [[?]|], pr as [[?]|], ac as [[? ?]|], oc as [[? ?]|];
    reflexivity.
Qed.

(** C9, amended.  From every state [stopSession] returns normally and
    leaves the hook idle ([isListening] and [isAssistantActive] false) and
    [liveSessionRef] null.  If a session was held, its [close()] is the
    first thing the call does to the outside, and leaves the socket
    neither open nor connecting.  The input source and the processor the
    hook refers to are disconnected and both audio contexts it refers to
    are closed, also those a failed start has left behind.  The gain
    node, the queued playback sources, the playback clock and the message
    log stay as they were.  With both contexts not yet closed the call
    does nothing else to the outside, and nothing at all when no session
    was held.  A second call changes no cell of the hook. *)
Theorem stopSession_releases_and_is_idempotent (st : Orch) :
  let st' := fst (stopSession st) in
  snd (stopSession st) = Returned tt ∧
  isListening st' = false ∧ isAssistantActive st' = false ∧
  liveSessionRef st' = None ∧
  (∀ s, liveSessionRef st = Some s →
        (∃ rest, trace st' = trace st ++ SocketClosed (ws_close (ws s)) :: rest) ∧
        readyState (ws_close (ws s)) ≠ OPEN ∧
        readyState (ws_close (ws s)) ≠ CONNECTING) ∧
  inputSourceRef st' = disconnect <$> inputSourceRef st ∧
  processorRef st' = disconnect <$> processorRef st ∧
  audioContextRef st' = closeContext <$> audioContextRef st ∧
  outputContextRef st' = closeContext <$> outputContextRef st ∧
  released (inputSourceRef st') ∧ released (processorRef st') ∧
  shut (audioContextRef st') ∧ shut (outputContextRef st') ∧
  outputNodeRef st' = outputNodeRef st ∧
  playingSourcesRef st' = playingSourcesRef st ∧
  nextStartTimeRef st' = nextStartTimeRef st ∧
  messages st' = messages st ∧
  (running (audioContextRef st) → running (outputContextRef st) →
     trace st'
     = trace st ++ from_option (λ s, [SocketClosed (ws_close (ws s))]) []
                     (liveSessionRef st)) ∧
  cells (fst (stopSession st')) = cells st'.
Proof.
  intros st'.
  pose proof (stopSession_leaves_idle st) as Hidle. fold st' in Hidle.
  destruct Hidle as (Hl & Ha & Hs & Hi & Hp & Hc & Ho).
  destruct (stopSession_cells st) as (Ci & Cp & Cc & Co & Cn & Cq & Ct & Cm).
  fold st' in Ci, Cp, Cc, Co, Cn, Cq, Ct, Cm.
  pose proof (stopSession_trace st) as Htr. fold st' in Htr.
  split; [apply stopSession_returns|].
  do 3 (split; [done|]).
  split.
  { intros s Hs'. rewrite Hs' in Htr. simpl in Htr.
    split; [eexists; exact Htr|].
    destruct (ws_close_not_open (ws s)) as [E|E]; rewrite E; done. }
  do 12 (split; [done|]).
  split; [|apply stopSession_again].
  intros Hin Hout. rewrite Htr.
  by rewrite (closeRejected_running _ Hin), (closeRejected_running _ Hout), !app_nil_r.
Qed.

(** A start that fails leaves its two audio contexts open and no session;
    [stopSession] then closes them and changes nothing else. *)
Lemma stopSession_after_failed_start :
  liveSessionRef refused = None ∧
  closed <$> outputContextRef refused = Some false ∧
  closed <$> outputContextRef (fst (stopSession refused)) = Some true ∧
  messages (fst (stopSession refused)) = messages refused ∧
  trace (fst (stopSession refused)) = trace refused.
Proof. vm_compute. done. Qed.

(** A second [stopSession] closes contexts that are closed already; each
    such [close()] is a rejected promise that nothing handles. *)
Lemma stopSession_again_rejects :
  drop (length (trace stopped)) (trace (fst (stopSession stopped)))
  = [UnhandledRejection "InvalidStateError"; UnhandledRejection "InvalidStateError"].
Proof. vm_compute. done. Qed.

(** C9, as stated, fails: after a start that the microphone refused no
    session is active, and [stopSession] is not a no-op there, since it
    closes the two contexts the start has left open. *)
Lemma not_stopIsNoOpWhenIdle :
  noSessionActive refused ∧
  closed <$> audioContextRef refused = Some false ∧
  closed <$> audioContextRef (fst (stopSession refused)) = Some true ∧
  ¬ stopIsNoOpWhenIdle.
Proof.
  split; [by repeat split|]. split; [reflexivity|]. split; [reflexivity|].
  intros Hclaim.
  assert (Hidle : noSessionActive refused) by by repeat split.
  pose proof (f_equal (λ r, closed <$> audioContextRef (fst r)) (Hclaim refused Hidle))
    as Heq.
  vm_compute in Heq. discriminate.
Qed.

Lemma stopSession_twice_witness :
  trace (fst (stopSession firstSession))
  = trace firstSession
      ++ [SocketClosed {| readyState := CLOSING; sent := [] |}] ∧
  cells (fst (stopSession stopped)) = cells stopped.
Proof.
  destruct (stopSession_releases_and_is_idempotent firstSession)
    as (_ & _ & _ & _ & _ & _ & _ & _ & _ & _ & _ & _ & _ & _ & _ & _ & _ & Hquiet & Hagain).
  split; [|exact Hagain].
  apply Hquiet; intros c [= <-]; reflexivity.
Defined.

(** ** Interruption and scheduling *)

Lemma onInterrupted_clears (env : HandlerEnv) (msg : Wire.LiveServerMessage) (st : Orch) :
  isInterrupted msg = true →
  let st' := onInterrupted env msg st in
  playingSourcesRef st' = [] ∧
  trace st' = trace st ++ (SourceStop <$> playingSourcesRef st) ∧
  nextStartTimeRef st' = 0%Q ∧
  hasAIBeenInterruptedRef st' = true ∧
  outputContextRef st' = outputContextRef st ∧
  sourcesCreated st' = sourcesCreated st ∧
  outputNodeRef st' = outputNodeRef st.
Proof.
  intros Hint. unfold onInterrupted. rewrite Hint.
  destruct st as [l cn a ci co ms s ac oc isrc pr on ps nt hi sc tr].
  destruct (nonEmpty (capturedOutput env)); simpl; done.
Qed.

Lemma onTurnComplete_audio_cells (env : HandlerEnv) (msg : Wire.LiveServerMessage) (st : Orch) :
  let st' := onTurnComplete env msg st in
  playingSourcesRef st' = playingSourcesRef st ∧ trace st' = trace st ∧
  nextStartTimeRef st' = nextStartTimeRef st ∧
  outputContextRef st' = outputContextRef st ∧
  sourcesCreated st' = sourcesCreated st ∧
  outputNodeRef st' = outputNodeRef st.
Proof.
  unfold onTurnComplete.
  destruct st as [l cn a ci co ms s ac oc isrc pr on ps nt hi sc tr].
  destruct (isTurnComplete msg), (nonEmpty (capturedInput env)),
    (nonEmpty (capturedOutput env)); simpl; done.
Qed.

Lemma onTranscription_same_cells (msg : Wire.LiveServerMessage) (st : Orch) :
  let st' := onOutputTranscription msg (onInputTranscription msg st) in
  playingSourcesRef st' = playingSourcesRef st ∧ trace st' = trace st ∧
  nextStartTimeRef st' = nextStartTimeRef st ∧
  outputContextRef st' = outputContextRef st ∧
  sourcesCreated st' = sourcesCreated st ∧
  messages st' = messages st ∧
  hasAIBeenInterruptedRef st' = hasAIBeenInterruptedRef st ∧
  liveSessionRef st' = liveSessionRef st ∧
  outputNodeRef st' = outputNodeRef st.
Proof.
  unfold onOutputTranscription, onInputTranscription.
  destruct st as [l cn a ci co ms s ac oc isrc pr on ps nt hi sc tr].
  destruct (Wire.serverContent msg ≫= Wire.inputTranscription),
    (Wire.serverContent msg ≫= Wire.outputTranscription); simpl; done.
Qed.

Lemma scheduleStreamed_spec (now duration : Q) (st : Orch) :
  let st' := scheduleStreamed now duration st in
  let start := Qmax (nextStartTimeRef st) now in
  trace st' = trace st ++ [SourceStart (sourcesCreated st) start] ∧
  playingSourcesRef st' = playingSourcesRef st ++ [sourcesCreated st] ∧
  nextStartTimeRef st' = (start + duration)%Q.
Proof.
  destruct st as [l cn a ci co ms s ac oc isrc pr on ps nt hi sc tr].
  unfold scheduleStreamed, scheduleSource. simpl. done.
Qed.

Lemma start_not_in_past (clock now : Q) : (now <= Qmax clock now)%Q.
Proof. apply Q.le_max_r. Qed.

Lemma start_is_now_after_reset (clock now : Q) :
  (clock == 0)%Q → (0 <= now)%Q → (Qmax clock now == now)%Q.
Proof. intros Hz Hnow. apply Q.max_r. by rewrite Hz. Qed.

(** The effects of the inline-audio step. *)
Lemma onInlineAudio_trace (w : World) (msg : Wire.LiveServerMessage) (st : Orch) :
  (∃ c payload duration,
      outputContextRef st = Some c ∧
      Wire.serverContent msg ≫= Wire.inlineData = Some payload ∧
      nonEmpty payload = true ∧
      decodeAudioData w payload = Returned duration ∧
      is_Some (outputNodeRef st) ∧
      onInlineAudio w msg st = (scheduleStreamed (currentTime c) duration st, Returned tt))
  ∨ fst (onInlineAudio w msg st) = st.
Proof.
  unfold onInlineAudio; run_M.
  destruct (Wire.serverContent msg ≫= Wire.inlineData) as [payload|] eqn:Ea; [|by right].
  destruct (outputContextRef st) as [c|] eqn:Ec; [|by right].
  destruct (nonEmpty payload) eqn:Ep; [|by right].
  destruct (decodeAudioData w payload) as [duration|e] eqn:Ed; [|by right].
  destruct (outputNodeRef st) as [node|] eqn:En; [|by right].
  left. exists c, payload, duration. done.
Qed.

Lemma handleMessage_steps (env : HandlerEnv) (w : World)
    (msg : Wire.LiveServerMessage) (st : Orch) :
  handleMessage env w msg st
  = match onInlineAudio w msg (beforeAudio env msg st) with
    | (st', Returned _) => onToolCall w msg st'
    | (st', Threw e) => (st', Threw e)
    end.
Proof. reflexivity. Qed.

(** C3.  The interruption step of [handleMessage] stops every source in
    the playback queue, empties the queue and puts the scheduling clock
    back to zero.  Whatever the state, a segment scheduled by the
    inline-audio step starts at [max(clock, now)], never before the
    current time [now] of the output context; with the clock at zero, as
    the interruption leaves it, and [now] not negative, it starts exactly
    at [now].  An envelope that carries both an interruption and audio
    first stops the queued sources and then starts the new segment at the
    current time, leaving it alone in the queue. *)
Theorem interruption_resets_schedule (env : HandlerEnv) (w : World)
    (msg : Wire.LiveServerMessage) (st : Orch) :
  (isInterrupted msg = true →
     playingSourcesRef (onInterrupted env msg st) = [] ∧
     trace (onInterrupted env msg st)
       = trace st ++ (SourceStop <$> playingSourcesRef st) ∧
     nextStartTimeRef (onInterrupted env msg st) = 0%Q) ∧
  (∀ c, outputContextRef st = Some c →
     ∃ new, trace (fst (onInlineAudio w msg st)) = trace st ++ new ∧
       ∀ source start, SourceStart source start ∈ new →
         (currentTime c <= start)%Q ∧
         ((nextStartTimeRef st == 0)%Q → (0 <= currentTime c)%Q →
          (start == currentTime c)%Q)) ∧
  (isInterrupted msg = true → Wire.toolCall msg = None →
   ∀ c payload duration,
     outputContextRef st = Some c → is_Some (outputNodeRef st) →
     (0 <= currentTime c)%Q →
     Wire.serverContent msg ≫= Wire.inlineData = Some payload →
     nonEmpty payload = true →
     decodeAudioData w payload = Returned duration →
     ∃ start, (start == currentTime c)%Q ∧
       trace (fst (handleMessage env w msg st))
         = trace st ++ (SourceStop <$> playingSourcesRef st)
             ++ [SourceStart (sourcesCreated st) start] ∧
       playingSourcesRef (fst (handleMessage env w msg st)) = [sourcesCreated st]) ∧
  (isInterrupted msg = true → Wire.toolCall msg = None →
   Wire.serverContent msg ≫= Wire.inlineData = None →
   playingSourcesRef (fst (handleMessage env w msg st)) = [] ∧
   nextStartTimeRef (fst (handleMessage env w msg st)) = 0%Q ∧
   trace (fst (handleMessage env w msg st))
     = trace st ++ (SourceStop <$> playingSourcesRef st)).
Proof.
  split; [|split; [|split]].
  - intros Hint. pose proof (onInterrupted_clears env msg st Hint) as H. simpl in H. tauto.
  - intros c Hc.
    destruct (onInlineAudio_trace w msg st)
      as [(c' & payload & duration & Hc' & _ & _ & _ & _ & Hrun) | Hskip].
    + rewrite Hc in Hc'. injection Hc' as <-. rewrite Hrun. simpl.
      destruct (scheduleStreamed_spec (currentTime c) duration st) as (Htr & _).
      eexists. split; [exact Htr|].
      intros source start Hin. apply list_elem_of_singleton in Hin.
      injection Hin as _ ->. split; [apply start_not_in_past|].
      apply start_is_now_after_reset.
    + exists []. rewrite Hskip, app_nil_r. split; [done|].
      intros source start Hin. by apply elem_of_nil in Hin.
  - intros Hint Hno c payload duration Hc [node Hnode] Hnow Hpay Hne Hdec.
    rewrite handleMessage_steps.
    set (st1 := onOutputTranscription msg (onInputTranscription msg st)).
    destruct (onTranscription_same_cells msg st)
      as (Hp1 & Ht1 & Hn1 & Hc1 & Hs1 & _ & _ & _ & Ho1).
    fold st1 in Hp1, Ht1, Hn1, Hc1, Hs1, Ho1.
    destruct (onInterrupted_clears env msg st1 Hint)
      as (Hp2 & Ht2 & Hn2 & _ & Hc2 & Hs2 & Ho2).
    set (st2 := onInterrupted env msg st1) in *.
    destruct (onTurnComplete_audio_cells env msg st2) as (Hp3 & Ht3 & Hn3 & Hc3 & Hs3 & Ho3).
    unfold beforeAudio. fold st1. fold st2.
    set (st3 := onTurnComplete env msg st2) in *.
    assert (Hctx : outputContextRef st3 = Some c) by congruence.
    assert (Hout : outputNodeRef st3 = Some node) by congruence.
    unfold onInlineAudio; run_M. rewrite Hctx, Hpay, Hne, Hdec, Hout.
    unfold onToolCall. rewrite Hno. simpl.
    destruct (scheduleStreamed_spec (currentTime c) duration st3) as (Htr & Hpl & _).
    exists (Qmax (nextStartTimeRef st3) (currentTime c)). split.
    + apply start_is_now_after_reset; [|done]. rewrite Hn3, Hn2. reflexivity.
    + rewrite Htr, Hpl, Ht3, Ht2, Ht1, Hp3, Hp2, Hp1, Hs3, Hs2, Hs1.
      by rewrite <- app_assoc.
  - intros Hint Hno Hsilent.
    rewrite handleMessage_steps.
    set (st1 := onOutputTranscription msg (onInputTranscription msg st)).
    destruct (onTranscription_same_cells msg st) as (Hp1 & Ht1 & _).
    fold st1 in Hp1, Ht1.
    destruct (onInterrupted_clears env msg st1 Hint) as (Hp2 & Ht2 & Hn2 & _).
    set (st2 := onInterrupted env msg st1) in *.
    destruct (onTurnComplete_audio_cells env msg st2) as (Hp3 & Ht3 & Hn3 & _).
    unfold beforeAudio. fold st1. fold st2.
    set (st3 := onTurnComplete env msg st2) in *.
    unfold onInlineAudio; run_M. rewrite Hsilent.
    unfold onToolCall. rewrite Hno. simpl.
    rewrite Hp3, Hp2, Hn3, Hn2, Ht3, Ht2, Ht1, Hp1. done.
Qed.

Lemma interruption_resets_schedule_witness :
  ∃ start,
    (start == 5)%Q ∧
    trace (fst (handleMessage {| capturedInput := ""; capturedOutput := "" |}
                  offline bargeIn speaking))
    = trace speaking ++ (SourceStop <$> playingSourcesRef speaking)
        ++ [SourceStart (sourcesCreated speaking) start] ∧
    playingSourcesRef (fst (handleMessage {| capturedInput := ""; capturedOutput := "" |}
                              offline bargeIn speaking))
    = [sourcesCreated speaking].
Proof.
  destruct (interruption_resets_schedule {| capturedInput := ""; capturedOutput := "" |}
              offline bargeIn speaking) as (_ & _ & Hboth & _).
  destruct (Hboth eq_refl eq_refl {| closed := false; currentTime := 0 + 5 |} "AAAA" 1%Q)
    as (start & Hstart & Htrace & Hqueue).
  - reflexivity.
  - eexists. reflexivity.
  - vm_compute. discriminate.
  - reflexivity.
  - reflexivity.
  - reflexivity.
  - exists start. split; [|split; [exact Htrace | exact Hqueue]].
    rewrite Hstart. reflexivity.
Defined.

(** ** Turn completion *)

Lemma onTurnComplete_commits_captured (env : HandlerEnv)
    (msg : Wire.LiveServerMessage) (st : Orch) :
  isTurnComplete msg = true →
  nonEmpty (capturedInput env) = true →
  nonEmpty (capturedOutput env) = true →
  let st' := onTurnComplete env msg st in
  messages st' = messages st ++ [plain user (capturedInput env); plain ai (capturedOutput env)] ∧
  currentInputTranscription st' = "" ∧ currentOutputTranscription st' = "" ∧
  hasAIBeenInterruptedRef st' = false.
Proof.
  intros Ht Hi Ho. unfold onTurnComplete. rewrite Ht, Hi, Ho.
  destruct st as [l cn a ci co ms s ac oc isrc pr on ps nt hi sc tr]. simpl.
  by rewrite <- app_assoc.
Qed.

Lemma onTurnComplete_clears (env : HandlerEnv)
    (msg : Wire.LiveServerMessage) (st : Orch) :
  isTurnComplete msg = true →
  let st' := onTurnComplete env msg st in
  currentInputTranscription st' = "" ∧ currentOutputTranscription st' = "" ∧
  hasAIBeenInterruptedRef st' = false.
Proof.
  intros Ht. unfold onTurnComplete. rewrite Ht.
  destruct st as [l cn a ci co ms s ac oc isrc pr on ps nt hi sc tr].
  destruct (nonEmpty (capturedInput env)), (nonEmpty (capturedOutput env)); simpl; done.
Qed.

(** A handler built while both buffers were empty never logs a transcript,
    whatever the buffers hold when the turn completes. *)
Lemma onTurnComplete_stale (msg : Wire.LiveServerMessage) (st : Orch) :
  messages (onTurnComplete {| capturedInput := ""; capturedOutput := "" |} msg st)
  = messages st.
Proof.
  unfold onTurnComplete.
  destruct st as [l cn a ci co ms s ac oc isrc pr on ps nt hi sc tr].
  destruct (isTurnComplete msg); simpl; done.
Qed.

Lemma startSession_captures (st : Orch) :
  ∃ s, liveSessionRef (fst (startSession Connected st)) = Some s ∧
       callbacks s = {| capturedInput := currentInputTranscription st;
                        capturedOutput := currentOutputTranscription st |} ∧
       readyState (ws s) = OPEN.
Proof.
  destruct st as [l cn a ci co ms s ac oc isrc pr on ps nt hi sc tr].
  eexists. unfold startSession; run_M; simpl. done.
Qed.

(** While a session started with empty buffers lasts, an envelope without
    tool calls appends nothing to the log, whatever the buffers hold. *)
Lemma receive_stale (w : World) (msg : Wire.LiveServerMessage) (st : Orch)
    (s : LiveSession HandlerEnv) :
  liveSessionRef st = Some s →
  callbacks s = {| capturedInput := ""; capturedOutput := "" |} →
  Wire.toolCall msg = None →
  messages (receive w msg st) = messages st ∧
  liveSessionRef (receive w msg st) = Some s.
Proof.
  intros Hs Hcb Hno. unfold receive, onmessage. rewrite Hs, Hcb, handleMessage_steps.
  set (env := {| capturedInput := ""; capturedOutput := "" |}).
  assert (Hbefore : messages (beforeAudio env msg st) = messages st ∧
                    liveSessionRef (beforeAudio env msg st) = Some s).
  { unfold beforeAudio. unfold env at 1. rewrite onTurnComplete_stale.
    destruct (onTranscription_same_cells msg st) as (_ & _ & _ & _ & _ & Hm & _ & Hl & _).
    set (st1 := onOutputTranscription msg (onInputTranscription msg st)) in *.
    rewrite <- Hm, <- Hs, <- Hl. clearbody st1.
    unfold onTurnComplete, onInterrupted. destruct st1.
    destruct (isTurnComplete msg), (isInterrupted msg); done. }
  destruct Hbefore as [Hm Hl].
  set (st3 := beforeAudio env msg st) in *.
  assert (Haudio : messages (fst (onInlineAudio w msg st3)) = messages st3 ∧
                   liveSessionRef (fst (onInlineAudio w msg st3)) = liveSessionRef st3).
  { destruct (onInlineAudio_trace w msg st3)
      as [(c & payload & duration & _ & _ & _ & _ & _ & ->) | ->]; [|done].
    simpl. unfold scheduleStreamed, scheduleSource. by destruct st3. }
  destruct (onInlineAudio w msg st3) as [st4 [[]|e]]; simpl in Haudio.
  - unfold onToolCall. rewrite Hno. simpl. destruct Haudio as [-> ->]. done.
  - destruct Haudio as [Hm4 Hl4]. rewrite <- Hm, <- Hl, <- Hm4, <- Hl4. by destruct st4.
Qed.

(** In a first session no transcript is ever committed to the log. *)
Lemma first_session_logs_no_transcript (w : World)
    (envelopes : list Wire.LiveServerMessage) :
  Forall (λ msg, Wire.toolCall msg = None) envelopes →
  messages (foldl (λ st msg, receive w msg st) firstSession envelopes) = [].
Proof.
  intros Hno.
  assert (Hgen : ∀ st s,
             liveSessionRef st = Some s →
             callbacks s = {| capturedInput := ""; capturedOutput := "" |} →
             messages (foldl (λ st msg, receive w msg st) st envelopes) = messages st).
  { induction Hno as [|msg rest Hmsg _ IH]; intros st s Hs Hcb; [done|].
    simpl. destruct (receive_stale w msg st s Hs Hcb Hmsg) as [Hm Hl].
    rewrite (IH _ s Hl Hcb). exact Hm. }
  destruct (startSession_captures initial) as (s & Hs & Hcb & _).
  exact (Hgen firstSession s Hs Hcb).
Qed.

(** C4 (the code at the failing input).  In a first session the user is
    heard ("hi") and the assistant answers ("hello"), so both transcript
    buffers are non-empty when the turn completes; the handler stored by
    the session still sees the empty buffers of the render that started
    it, and the turn-complete envelope appends no log entry.  The buffers
    are emptied and the interrupted flag is cleared. *)
Theorem turnComplete_in_first_session_logs_nothing :
  currentInputTranscription midTurn = "hi" ∧
  currentOutputTranscription midTurn = "hello" ∧
  messages midTurn = [] ∧
  let st' := receive offline turnEnds midTurn in
  messages st' = [] ∧
  currentInputTranscription st' = "" ∧ currentOutputTranscription st' = "" ∧
  hasAIBeenInterruptedRef st' = false.
Proof. vm_compute. repeat split. Qed.

(** ** Tool dispatch *)

Create HintDb session discriminated.

Lemma keeps_ret {A} (a : A) : keepsSession (ret a).
Proof. by intros st. Qed.

Lemma keeps_get {A} (f : Orch → A) : keepsSession (get f).
Proof. by intros st. Qed.

Lemma keeps_await {A} (o : Outcome A) : keepsSession (await o).
Proof. by intros st. Qed.

Lemma keeps_lift (f : Orch → Orch) : keepsSessionF f → keepsSession (lift f).
Proof. intros Hf st. apply Hf. Qed.

Lemma keeps_bind {A B} (m : M A) (k : A → M B) :
  keepsSession m → (∀ a, keepsSession (k a)) → keepsSession (bind m k).
Proof.
  intros Hm Hk st. unfold bind. specialize (Hm st).
  destruct (m st) as [st' [a|e]]; simpl in *; [|done].
  by rewrite (Hk a st').
Qed.

Lemma keeps_tryCatch {A} (body : M A) (handler : string → M A) :
  keepsSession body → (∀ e, keepsSession (handler e)) → keepsSession (tryCatch body handler).
Proof.
  intros Hb Hh st. unfold tryCatch. specialize (Hb st).
  destruct (body st) as [st' [a|e]]; simpl in *; [done|].
  by rewrite (Hh e st').
Qed.

Lemma keeps_if {A} (b : bool) (m1 m2 : M A) :
  keepsSession m1 → keepsSession m2 → keepsSession (if b then m1 else m2).
Proof. by destruct b. Qed.

Lemma keepsF_addMessage (msg : ChatMessage) : keepsSessionF (addMessage msg).
Proof. by intros []. Qed.

Lemma keepsF_emit (effects : list Effect) : keepsSessionF (emit effects).
Proof. by intros []. Qed.

Lemma keepsF_stopAllPlaying : keepsSessionF stopAllPlaying.
Proof. by intros []. Qed.

Lemma keepsF_setNextStartTimeRef (t : Q) : keepsSessionF (setNextStartTimeRef t).
Proof. by intros []. Qed.

Lemma keepsF_scheduleSource (d : Q) : keepsSessionF (scheduleSource d).
Proof. by intros []. Qed.

Lemma keepsF_scheduleStreamed (now d : Q) : keepsSessionF (scheduleStreamed now d).
Proof. by intros []. Qed.

#[local] Hint Resolve keeps_ret keeps_get keeps_await keeps_lift keeps_tryCatch keeps_if
  keepsF_addMessage keepsF_emit keepsF_stopAllPlaying keepsF_setNextStartTimeRef
  keepsF_scheduleSource keepsF_scheduleStreamed : session.

Ltac keeps :=
  repeat first
    [ apply keeps_bind; [|intros ?]
    | apply keeps_tryCatch; [|intros ?]
    | apply keeps_if
    | progress auto with session
    | match goal with |- keepsSession (match ?x with _ => _ end) => destruct x end ].

Lemma keeps_playAudio (w : World) (audio : string) : keepsSession (playAudio w audio).
Proof. unfold playAudio. keeps. Qed.

#[local] Hint Resolve keeps_playAudio : session.

Lemma keeps_speakAndLog (w : World) (body : string) (isError canSpeak : bool) :
  keepsSession (speakAndLog w body isError canSpeak).
Proof. unfold speakAndLog. keeps. Qed.

#[local] Hint Resolve keeps_speakAndLog : session.

Lemma keeps_executeWebSearch w q : keepsSession (executeWebSearch w q).
Proof. unfold executeWebSearch. keeps. Qed.

Lemma keeps_executeShopping w q : keepsSession (executeShopping w q).
Proof. unfold executeShopping. keeps. Qed.

Lemma keeps_executeNearby w q : keepsSession (executeNearby w q).
Proof. unfold executeNearby. keeps. Qed.

#[local] Hint Resolve keeps_executeWebSearch keeps_executeShopping keeps_executeNearby : session.

Lemma keeps_dispatch w call : keepsSession (dispatch w call).
Proof. unfold dispatch. keeps. Qed.

(** The [try]/[catch] of [processToolCall] always yields a response. *)
Lemma guarded_dispatch_returns (w : World) (call : ToolCall) (st : Orch) :
  ∃ response,
    snd (tryCatch (dispatch w call)
           (λ e, lift (emit [ConsoleError e]) ;; ret "Tool execution failed.") st)
    = Returned response.
Proof.
  unfold tryCatch. destruct (dispatch w call st) as [st' [r|e]]; simpl; eauto.
Qed.

Lemma keeps_guarded_dispatch (w : World) (call : ToolCall) :
  keepsSession (tryCatch (dispatch w call)
                  (λ e, lift (emit [ConsoleError e]) ;; ret "Tool execution failed.")).
Proof. apply keeps_tryCatch; [apply keeps_dispatch|]. intros e. keeps. Qed.

(** One tool call: always returns, and answers on the session in
    [liveSessionRef] when there is one. *)
Lemma processToolCall_answers (w : World) (call : ToolCall) (st : Orch) :
  ∃ st' response,
    processToolCall w call st = (st', Returned tt) ∧
    liveSessionRef st'
    = sendToolResponse {| fr_id := id call; fr_name := name call; fr_result := response |}
        <$> liveSessionRef st.
Proof.
  unfold processToolCall.
  set (guarded := tryCatch _ _).
  set (logged := addMessage _).
  unfold bind at 1. unfold lift at 1.
  unfold bind at 1.
  pose proof (keeps_guarded_dispatch w call (logged st)) as Hkeep.
  destruct (guarded_dispatch_returns w call (logged st)) as [response Hret].
  fold guarded in Hkeep, Hret.
  destruct (guarded (logged st)) as [st1 r]. simpl in Hkeep, Hret. subst r.
  assert (Hs : liveSessionRef st1 = liveSessionRef st).
  { rewrite Hkeep. unfold logged. apply keepsF_addMessage. }
  unfold bind, get. rewrite Hs.
  destruct (liveSessionRef st) as [s|] eqn:Es.
  - unfold lift. eexists _, response. split; [reflexivity|].
    by destruct st1.
  - unfold ret. exists st1, response. by rewrite Hs.
Qed.

Lemma keepsF_transcriptions msg :
  keepsSessionF (λ st, onOutputTranscription msg (onInputTranscription msg st)).
Proof. intros st. by destruct (onTranscription_same_cells msg st) as (_&_&_&_&_&_&_&?&_). Qed.

Lemma keepsF_onInterrupted env msg : keepsSessionF (onInterrupted env msg).
Proof.
  intros st. unfold onInterrupted. destruct st.
  destruct (isInterrupted msg), (nonEmpty (capturedOutput env)); done.
Qed.

Lemma keepsF_onTurnComplete env msg : keepsSessionF (onTurnComplete env msg).
Proof.
  intros st. unfold onTurnComplete. destruct st.
  destruct (isTurnComplete msg), (nonEmpty (capturedInput env)),
    (nonEmpty (capturedOutput env)); done.
Qed.

Lemma keepsF_beforeAudio env msg : keepsSessionF (beforeAudio env msg).
Proof.
  intros st. unfold beforeAudio.
  rewrite keepsF_onTurnComplete, keepsF_onInterrupted. apply (keepsF_transcriptions msg).
Qed.

Lemma keeps_onInlineAudio (w : World) (msg : Wire.LiveServerMessage) :
  keepsSession (onInlineAudio w msg).
Proof. unfold onInlineAudio. keeps. Qed.

(** *** The tool calls in the log *)

Section Preserving.

Context {B : Type} (f : Orch → B).

Lemma preserves_ret {A} (a : A) : preserves f (ret a).
Proof. by intros st. Qed.

Lemma preserves_get {A} (g : Orch → A) : preserves f (get g).
Proof. by intros st. Qed.

Lemma preserves_await {A} (o : Outcome A) : preserves f (await o).
Proof. by intros st. Qed.

Lemma preserves_lift (h : Orch → Orch) : (∀ st, f (h st) = f st) → preserves f (lift h).
Proof. intros Hh st. apply Hh. Qed.

Lemma preserves_bind {A C} (m : M A) (k : A → M C) :
  preserves f m → (∀ a, preserves f (k a)) → preserves f (bind m k).
Proof.
  intros Hm Hk st. unfold bind. specialize (Hm st).
  destruct (m st) as [st' [a|e]]; simpl in *; [|done].
  by rewrite Hk.
Qed.

Lemma preserves_tryCatch {A} (body : M A) (handler : string → M A) :
  preserves f body → (∀ e, preserves f (handler e)) → preserves f (tryCatch body handler).
Proof.
  intros Hb Hh st. unfold tryCatch. specialize (Hb st).
  destruct (body st) as [st' [a|e]]; simpl in *; [done|].
  by rewrite Hh.
Qed.

Lemma preserves_if {A} (b : bool) (m1 m2 : M A) :
  preserves f m1 → preserves f m2 → preserves f (if b then m1 else m2).
Proof. by destruct b. Qed.

End Preserving.

Lemma callsLogged_addMessage (msg : ChatMessage) (st : Orch) :
  callsLogged (addMessage msg st) = callsLogged st ++ option_list (toolCall msg).
Proof.
  destruct st. unfold callsLogged. simpl. rewrite omap_app. simpl.
  by destruct (toolCall msg).
Qed.

Lemma callsLogged_plain (t : MessageType) (body : string) (st : Orch) :
  callsLogged (addMessage (plain t body) st) = callsLogged st.
Proof. rewrite callsLogged_addMessage. simpl. apply app_nil_r. Qed.

Lemma callsLogged_answer (body : string) (links : option (list GroundingSource))
    (st : Orch) :
  callsLogged (addMessage {| type := ai; text := body; toolCall := None;
                             groundingSources := links |} st) = callsLogged st.
Proof. rewrite callsLogged_addMessage. simpl. apply app_nil_r. Qed.

Lemma callsLogged_emit (effects : list Effect) (st : Orch) :
  callsLogged (emit effects st) = callsLogged st.
Proof. by destruct st. Qed.

Lemma callsLogged_stopAllPlaying (st : Orch) : callsLogged (stopAllPlaying st) = callsLogged st.
Proof. by destruct st. Qed.

Lemma callsLogged_setNextStartTimeRef (t : Q) (st : Orch) :
  callsLogged (setNextStartTimeRef t st) = callsLogged st.
Proof. by destruct st. Qed.

Lemma callsLogged_scheduleSource (d : Q) (st : Orch) :
  callsLogged (scheduleSource d st) = callsLogged st.
Proof. by destruct st. Qed.

Lemma callsLogged_scheduleStreamed (now d : Q) (st : Orch) :
  callsLogged (scheduleStreamed now d st) = callsLogged st.
Proof. by destruct st. Qed.

Create HintDb calls discriminated.

#[local] Hint Resolve preserves_ret preserves_get preserves_await preserves_lift
  preserves_tryCatch preserves_if callsLogged_plain callsLogged_answer callsLogged_emit
  callsLogged_stopAllPlaying callsLogged_setNextStartTimeRef callsLogged_scheduleSource
  callsLogged_scheduleStreamed : calls.

Ltac logs :=
  repeat first
    [ apply preserves_bind; [|intros ?]
    | apply preserves_tryCatch; [|intros ?]
    | apply preserves_if
    | progress auto with calls
    | match goal with |- preserves _ (match ?x with _ => _ end) => destruct x end ].

Lemma logs_playAudio (w : World) (audio : string) : preserves callsLogged (playAudio w audio).
Proof. unfold playAudio. logs. Qed.

#[local] Hint Resolve logs_playAudio : calls.

Lemma logs_speakAndLog (w : World) (body : string) (isError canSpeak : bool) :
  preserves callsLogged (speakAndLog w body isError canSpeak).
Proof. unfold speakAndLog. logs. Qed.

#[local] Hint Resolve logs_speakAndLog : calls.

Lemma logs_executeWebSearch w q : preserves callsLogged (executeWebSearch w q).
Proof. unfold executeWebSearch. logs. Qed.

Lemma logs_executeShopping w q : preserves callsLogged (executeShopping w q).
Proof. unfold executeShopping. logs. Qed.

Lemma logs_executeNearby w q : preserves callsLogged (executeNearby w q).
Proof. unfold executeNearby. logs. Qed.

#[local] Hint Resolve logs_executeWebSearch logs_executeShopping logs_executeNearby : calls.

(** No executor logs a tool call. *)
Lemma logs_dispatch w call : preserves callsLogged (dispatch w call).
Proof. unfold dispatch. logs. Qed.

Lemma logs_onInlineAudio (w : World) (msg : Wire.LiveServerMessage) :
  preserves callsLogged (onInlineAudio w msg).
Proof. unfold onInlineAudio. logs. Qed.

Lemma callsLogged_beforeAudio (env : HandlerEnv) (msg : Wire.LiveServerMessage)
    (st : Orch) :
  callsLogged (beforeAudio env msg st) = callsLogged st.
Proof.
  unfold beforeAudio, onTurnComplete, onInterrupted, onOutputTranscription,
    onInputTranscription.
  destruct (isTurnComplete msg), (isInterrupted msg),
    (nonEmpty (capturedInput env)), (nonEmpty (capturedOutput env)),
    (Wire.serverContent msg ≫= Wire.inputTranscription),
    (Wire.serverContent msg ≫= Wire.outputTranscription);
    rewrite ?callsLogged_plain; destruct st; unfold callsLogged; simpl;
    rewrite ?omap_app; simpl; rewrite ?app_nil_r; reflexivity.
Qed.

(** One tool call on a session that is held and open: the call is logged,
    its executor runs, and one response goes out, with the call's id and
    name and with the executor's result, or with the generic failure text
    when the executor throws. *)
Lemma processToolCall_sends (w : World) (call : ToolCall) (st : Orch)
    (s : LiveSession HandlerEnv) :
  liveSessionRef st = Some s → readyState (ws s) = OPEN →
  ∃ st' response,
    processToolCall w call st = (st', Returned tt) ∧
    liveSessionRef st'
    = Some {| ws := {| readyState := OPEN;
                       sent := sent (ws s)
                                 ++ [ToolResponse {| fr_id := id call; fr_name := name call;
                                                     fr_result := response |}] |};
              callbacks := callbacks s |} ∧
    match snd (dispatch w call (addMessage (toolCallEntry call) st)) with
    | Returned value => response = value
    | Threw _ => response = "Tool execution failed."
    end ∧
    callsLogged st' = callsLogged st ++ [call].
Proof.
  intros Hs Hopen.
  pose proof (keeps_dispatch w call (addMessage (toolCallEntry call) st)) as Hkeep.
  pose proof (logs_dispatch w call (addMessage (toolCallEntry call) st)) as Hlog.
  rewrite keepsF_addMessage, Hs in Hkeep.
  rewrite callsLogged_addMessage in Hlog. simpl in Hlog.
  unfold processToolCall. fold (toolCallEntry call). run_M. cbv beta iota.
  destruct (dispatch w call (addMessage (toolCallEntry call) st)) as [st1 [value|e]];
    simpl in Hkeep, Hlog |- *.
  - rewrite Hkeep. eexists _, value. split; [reflexivity|].
    rewrite (sendToolResponse_open _ s Hopen).
    destruct st1. simpl in *. done.
  - assert (liveSessionRef (emit [ConsoleError e] st1) = Some s) as ->
      by by rewrite keepsF_emit.
    eexists _, "Tool execution failed.". split; [reflexivity|].
    rewrite (sendToolResponse_open _ s Hopen).
    destruct st1. simpl in *. done.
Qed.

Lemma forEach_answers (w : World) (calls : list Wire.FunctionCall) :
  Forall named calls →
  ∀ (st : Orch) (s : LiveSession HandlerEnv),
    liveSessionRef st = Some s → readyState (ws s) = OPEN →
    ∃ st' responses s',
      forEach (onFunctionCall w) calls st = (st', Returned tt) ∧
      length responses = length calls ∧
      liveSessionRef st' = Some s' ∧ readyState (ws s') = OPEN ∧
      callbacks s' = callbacks s ∧
      sent (ws s') = sent (ws s) ++ zip_with answerTo calls responses ∧
      inTurn w (toolCallOf <$> calls) st responses ∧
      callsLogged st' = callsLogged st ++ (toolCallOf <$> calls).
Proof.
  induction 1 as [|fc calls Hname _ IH]; intros st s Hs Hopen.
  - exists st, [], s. simpl. rewrite !app_nil_r. done.
  - cbn [forEach]. unfold bind at 1. unfold onFunctionCall at 1. rewrite Hname.
    change (processToolCall w _ st) with (processToolCall w (toolCallOf fc) st).
    destruct (processToolCall_sends w (toolCallOf fc) st s Hs Hopen)
      as (st1 & r & Hrun & Hs1 & Hr & Hlog).
    rewrite Hrun. cbv beta iota.
    destruct (IH st1 _ Hs1 eq_refl)
      as (st' & rs & s' & Hrest & Hlen & Hs' & Hopen' & Hcb & Hsent & Hturn & Hlogs).
    exists st', (r :: rs), s'. simpl in *.
    split; [done|]. split; [by rewrite Hlen|]. split; [done|]. split; [done|].
    split; [done|]. split; [by rewrite Hsent, <- app_assoc|].
    split; [|by rewrite Hlogs, Hlog, <- app_assoc].
    split; [exact Hr|]. by rewrite Hrun.
Qed.

(** C2, amended.  When an envelope carries N named function calls, the
    session handle is set with its socket open, and the inline-audio step
    of the envelope does not throw, [handleMessage] returns normally.  It
    has dispatched the calls one after the other in arrival order: the
    log gains their N tool-call entries in that order, and the executor
    of each call runs in the state the calls before it have left.  It has
    sent exactly N tool responses after the frames sent before, in the
    order of the calls, each tagged with the call's name and its id
    (['unknown'] for a call without id), and each carrying what the
    executor of its call returned, or "Tool execution failed." when that
    executor threw. *)
Theorem tool_calls_answered_in_order (env : HandlerEnv) (w : World)
    (msg : Wire.LiveServerMessage) (calls : list Wire.FunctionCall)
    (s : LiveSession HandlerEnv) (st : Orch) :
  carries msg calls → Forall named calls →
  liveSessionRef st = Some s → readyState (ws s) = OPEN →
  audioStepReturns env w msg st →
  ∃ st' responses s',
    handleMessage env w msg st = (st', Returned tt) ∧
    length responses = length calls ∧
    liveSessionRef st' = Some s' ∧
    sent (ws s') = sent (ws s) ++ zip_with answerTo calls responses ∧
    inTurn w (toolCallOf <$> calls)
      (fst (onInlineAudio w msg (beforeAudio env msg st))) responses ∧
    callsLogged st' = callsLogged st ++ (toolCallOf <$> calls).
Proof.
  intros Hmsg Hnamed Hs Hopen Haudio.
  rewrite handleMessage_steps.
  pose proof (keeps_onInlineAudio w msg (beforeAudio env msg st)) as Hs1.
  pose proof (logs_onInlineAudio w msg (beforeAudio env msg st)) as Hl1.
  unfold audioStepReturns in Haudio.
  destruct (onInlineAudio w msg (beforeAudio env msg st)) as [st1 r].
  simpl in Haudio, Hs1, Hl1 |- *. subst r.
  rewrite keepsF_beforeAudio, Hs in Hs1.
  rewrite callsLogged_beforeAudio in Hl1.
  unfold onToolCall. rewrite Hmsg. simpl.
  destruct (forEach_answers w calls Hnamed st1 s Hs1 Hopen)
    as (st' & rs & s' & Hrun & Hlen & Hs' & _ & _ & Hsent & Hturn & Hlogs).
  exists st', rs, s'. rewrite Hlogs, Hl1. done.
Qed.

(** Three calls in one envelope, the second of which fails in its
    executor: three responses, in order, the second the generic failure
    text, the third under the id ['unknown']. *)
Lemma tool_calls_answered_in_order_witness :
  ∃ st' s',
    handleMessage firstHandler online askAll firstSession = (st', Returned tt) ∧
    liveSessionRef st' = Some s' ∧
    sent (ws s')
    = [ ToolResponse {| fr_id := "call-1"; fr_name := "webSearch";
                        fr_result := "Opened search." |};
        ToolResponse {| fr_id := "call-2"; fr_name := "describeEnvironment";
                        fr_result := "Tool execution failed." |};
        ToolResponse {| fr_id := "unknown"; fr_name := "openDoor";
                        fr_result := "Unknown tool openDoor" |} ] ∧
    name <$> callsLogged st' = ["webSearch"; "describeEnvironment"; "openDoor"].
Proof.
  destruct (tool_calls_answered_in_order firstHandler online askAll threeTools
              {| ws := {| readyState := OPEN; sent := [] |}; callbacks := firstHandler |}
              firstSession)
    as (st' & responses & s' & Hrun & Hlen & Hs & Hsent & Hturn & Hlogs);
    [reflexivity | by repeat constructor | reflexivity | reflexivity | reflexivity |].
  exists st', s'. split; [exact Hrun|]. split; [exact Hs|].
  destruct responses as [|r1 [|r2 [|r3 [|r4 responses]]]]; try discriminate Hlen.
  vm_compute in Hturn. destruct Hturn as (-> & -> & -> & _).
  split; [exact Hsent|]. rewrite Hlogs. reflexivity.
Defined.

(** The guard of [processToolCall] at work.  The calls of an envelope are
    awaited one after the other, and the user may stop the session
    between two of them: the first call is answered, the second is
    dispatched and logged, and nothing is sent for it, the session
    reference being empty by then. *)
Lemma unanswered_after_stop :
  let first := toolCallOf {| Wire.name := Some "webSearch"; Wire.id := Some "call-1";
                             Wire.args := None |} in
  let second := toolCallOf {| Wire.name := Some "openDoor"; Wire.id := Some "call-2";
                              Wire.args := None |} in
  let st1 := fst (processToolCall offline first firstSession) in
  let st3 := fst (processToolCall offline second (fst (stopSession st1))) in
  wire st1 = [ToolResponse {| fr_id := "call-1"; fr_name := "webSearch";
                              fr_result := "Opened search." |}] ∧
  drop (length (trace st1)) (trace st3)
  = [SocketClosed {| readyState := CLOSING; sent := wire st1 |}] ∧
  text <$> messages st3 = ["Using webSearch"; "Searching for undefined."; "Using openDoor"] ∧
  liveSessionRef st3 = None.
Proof. vm_compute. done. Qed.

(** C2, as stated, fails: on a session that is held and open, an envelope
    whose audio does not decode makes the handler throw before it reaches
    the tool calls, and the named call it carries is never answered. *)
Lemma not_everyCallAnswered :
  (∃ s, liveSessionRef firstSession = Some s ∧ readyState (ws s) = OPEN) ∧
  (∃ e, snd (handleMessage firstHandler undecodable callWithOddAudio firstSession)
        = Threw e) ∧
  wire (fst (handleMessage firstHandler undecodable callWithOddAudio firstSession)) = [] ∧
  ¬ everyCallAnswered.
Proof.
  split; [eexists; split; reflexivity|]. split; [eexists; reflexivity|].
  split; [reflexivity|].
  intros Hclaim.
  destruct (Hclaim firstHandler undecodable callWithOddAudio _ firstSession eq_refl)
    as (rs & Hlen & Hwire).
  { repeat constructor. }
  destruct rs; [discriminate Hlen|]. vm_compute in Hwire. discriminate.
Qed.

(** ** The emergency tool *)

Lemma emit_trace (effects : list Effect) (st : Orch) :
  trace (emit effects st) = trace st ++ effects.
Proof. by destruct st. Qed.

Lemma emit_messages (effects : list Effect) (st : Orch) :
  messages (emit effects st) = messages st.
Proof. by destruct st. Qed.

Lemma playAudio_quiet (w : World) (audio : string) (st : Orch) :
  ∃ rest, trace (fst (playAudio w audio st)) = trace st ++ rest ∧ Forall quiet rest ∧
          messages (fst (playAudio w audio st)) = messages st.
Proof.
  destruct st as [l cn a ci co ms s ac oc isrc pr on ps nt hi sc tr].
  unfold playAudio; run_M; simpl.
  destruct oc as [c|]; [|exists []; by rewrite app_nil_r].
  destruct on as [n|]; [|exists []; by rewrite app_nil_r].
  simpl. destruct (decodeAudioData w audio) as [d|e]; simpl.
  - exists ((SourceStop <$> ps) ++ [SourceStart sc (currentTime c)]).
    rewrite app_assoc. split; [done|]. split; [|done].
    apply Forall_app. split; [|by repeat constructor].
    apply Forall_fmap, Forall_true. done.
  - exists (SourceStop <$> ps). split; [done|]. split; [|done].
    apply Forall_fmap, Forall_true. done.
Qed.

Lemma speakAndLog_suppressed (w : World) (body : string) (isError : bool) (st : Orch) :
  midSpeech st = true →
  speakAndLog w body isError false st = (addMessage (plain ai body) st, Returned tt).
Proof.
  unfold midSpeech, speakAndLog; run_M. intros ->. reflexivity.
Qed.

Lemma speakAndLog_spoken (w : World) (body : string) (st : Orch) :
  midSpeech st = false →
  ∃ st' rest,
    speakAndLog w body false false st = (st', Returned tt) ∧
    messages st' = messages st ++ [plain ai body] ∧
    trace st' = trace st ++ SpeechRequest body :: rest ∧ Forall quiet rest.
Proof.
  unfold midSpeech, speakAndLog. intros Hmid.
  unfold bind at 1. unfold get at 1. unfold bind at 1. unfold get at 1.
  rewrite Hmid. simpl.
  unfold bind at 1, lift at 1. unfold bind at 1, ret at 1.
  unfold tryCatch. unfold bind at 1, lift at 1. unfold bind at 1, await at 1.
  set (st1 := emit _ (addMessage _ st)).
  assert (Hm1 : messages st1 = messages st ++ [plain ai body]) by (by destruct st).
  assert (Ht1 : trace st1 = trace st ++ [SpeechRequest body]) by (by destruct st).
  destruct (generateSpeech w body) as [audio|e].
  - destruct (playAudio_quiet w audio st1) as (rest & Htr & Hq & Hms).
    destruct (playAudio w audio st1) as [st2 [[]|e]] eqn:Eplay; simpl in *.
    + exists st2, rest. split; [reflexivity|]. split; [by rewrite Hms|].
      split; [|done]. by rewrite Htr, Ht1, <- app_assoc.
    + unfold lift. eexists _, (rest ++ [ConsoleError "TTS failed"]).
      split; [reflexivity|].
      rewrite emit_messages, emit_trace, Hms, Htr, Ht1, Hm1.
      split; [done|]. split; [by rewrite <- !app_assoc|].
      apply Forall_app. split; [done|]. by repeat constructor.
  - unfold lift. eexists _, [ConsoleError "TTS failed"].
    split; [reflexivity|].
    rewrite emit_messages, emit_trace, Ht1, Hm1.
    split; [done|]. split; [by rewrite <- !app_assoc|]. by repeat constructor.
Qed.

Lemma dispatch_emergency (w : World) (call : ToolCall) :
  name call = "callEmergencyServices" →
  dispatch w call
  = (lift (emit [EmergencyTrigger]) ;;
     speakAndLog w confirmation false false ;;
     ret "Emergency dashboard activated.").
Proof. intros Hname. unfold dispatch. rewrite Hname. reflexivity. Qed.

(** C7, amended.  Every dispatch of [callEmergencyServices] returns
    normally, invokes the emergency callback once, before anything else
    it does to the outside and whatever the state, logs the tool call and
    the confirmation, and answers the call.  The confirmation is spoken
    (speech synthesis is requested right after the callback) only when the
    assistant is not mid-speech, that is neither interrupted nor with audio
    scheduled; mid-speech the callback is all that happens besides the
    log. *)
Theorem emergency_tool_dispatch (w : World) (call : ToolCall) (st : Orch) :
  name call = "callEmergencyServices" →
  ∃ st',
    processToolCall w call st = (st', Returned tt) ∧
    messages st'
    = messages st
        ++ [ {| type := tool_call; text := "Using callEmergencyServices";
                toolCall := Some call; groundingSources := None |};
             plain ai confirmation ] ∧
    (if midSpeech st
     then trace st' = trace st ++ [EmergencyTrigger]
     else ∃ rest, trace st' = trace st
                    ++ EmergencyTrigger :: SpeechRequest confirmation :: rest ∧
                  Forall quiet rest) ∧
    liveSessionRef st'
    = sendToolResponse {| fr_id := id call; fr_name := name call;
                          fr_result := "Emergency dashboard activated." |}
        <$> liveSessionRef st.
Proof.
  intros Hname. unfold processToolCall. rewrite (dispatch_emergency w call Hname).
  destruct call as [toolName callId callArgs]. simpl in Hname. subst toolName.
  cbn [name id args].
  change ("Using " +:+ "callEmergencyServices") with "Using callEmergencyServices".
  set (logged := {| type := tool_call |}).
  unfold bind at 1, lift at 1. unfold bind at 1. unfold tryCatch.
  unfold bind at 1, lift at 1.
  set (st1 := emit [EmergencyTrigger] (addMessage logged st)).
  assert (Hm1 : messages st1 = messages st ++ [logged]) by (by destruct st).
  assert (Ht1 : trace st1 = trace st ++ [EmergencyTrigger]) by (by destruct st).
  assert (Hs1 : liveSessionRef st1 = liveSessionRef st) by (by destruct st).
  assert (Hmid : midSpeech st1 = midSpeech st) by (by destruct st).
  unfold bind at 1.
  assert (∃ st2, speakAndLog w confirmation false false st1 = (st2, Returned tt) ∧
                 messages st2 = messages st ++ [logged; plain ai confirmation] ∧
                 (if midSpeech st
                  then trace st2 = trace st ++ [EmergencyTrigger]
                  else ∃ rest, trace st2 = trace st
                         ++ EmergencyTrigger :: SpeechRequest confirmation :: rest ∧
                       Forall quiet rest) ∧
                 liveSessionRef st2 = liveSessionRef st) as (st2 & -> & Hm2 & Ht2 & Hs2).
  { pose proof (keeps_speakAndLog w confirmation false false st1) as Hkeep.
    destruct (midSpeech st) eqn:E.
    - rewrite (speakAndLog_suppressed w confirmation false st1 Hmid) in *.
      eexists. split; [reflexivity|]. simpl in Hkeep.
      split; [|split; [|congruence]].
      + destruct st1; simpl in *. rewrite Hm1, <- app_assoc. done.
      + destruct st1; simpl in *. done.
    - destruct (speakAndLog_spoken w confirmation st1 Hmid) as (st2 & rest & Hrun & Hm & Ht & Hq).
      rewrite Hrun in *. exists st2. split; [done|]. simpl in Hkeep.
      split; [by rewrite Hm, Hm1, <- app_assoc|].
      split; [|congruence].
      exists rest. rewrite Ht, Ht1, <- app_assoc. done. }
  unfold ret at 1. unfold bind, get. rewrite Hs2.
  destruct (liveSessionRef st) as [s|] eqn:Es.
  - unfold lift. eexists. split; [reflexivity|].
    destruct st2; simpl in *. done.
  - unfold ret. exists st2. by rewrite Hs2.
Qed.

Lemma emergency_tool_dispatch_witness :
  ∃ st',
    processToolCall offline emergencyCall hushed = (st', Returned tt) ∧
    trace st' = trace hushed ++ [EmergencyTrigger].
Proof.
  destruct (emergency_tool_dispatch offline emergencyCall hushed eq_refl)
    as (st' & Hrun & _ & Htrace & _).
  exists st'. split; [exact Hrun | exact Htrace].
Defined.

Lemma emergency_speech_suppressed :
  midSpeech hushed = true ∧
  added (processToolCall offline emergencyCall) hushed = [EmergencyTrigger] ∧
  text <$> drop (length (messages hushed))
             (messages (fst (processToolCall offline emergencyCall hushed)))
  = ["Using callEmergencyServices"; confirmation].
Proof. vm_compute. done. Qed.

(** C7, as stated, fails: after "stop speaking" the dispatch invokes the
    callback and requests no speech. *)
Lemma not_emergencyAlwaysSpoken :
  added (processToolCall offline emergencyCall) hushed = [EmergencyTrigger] ∧
  ¬ emergencyAlwaysSpoken.
Proof.
  destruct emergency_speech_suppressed as (_ & Hadded & _).
  split; [exact Hadded|].
  intros Hclaim.
  destruct (Hclaim offline emergencyCall hushed eq_refl) as [_ Hspoken].
  rewrite Hadded in Hspoken. apply list_elem_of_singleton in Hspoken. discriminate.
Qed.

End LiveFacts.

(** ** The scene-analysis cycle *)

Module VisualizerFacts.

Import Transport Visualizer.

(** ** Strings *)

Lemma split_go_nonempty (sep : string) (s : string) :
  ∀ skip, split_go sep skip s ≠ [].
Proof.
  induction s as [|c rest IH]; intros skip; cbn [split_go]; [done|].
  destruct skip; [|apply IH].
  destruct (String.prefix sep (String c rest)); [done|].
  by destruct (split_go sep 0 rest).
Qed.

Lemma split_head (sep s : string) : ∃ head pieces, split sep s = head :: pieces.
Proof.
  unfold split. pose proof (split_go_nonempty sep s 0) as H.
  destruct (split_go sep 0 s); [done|eauto].
Qed.

Lemma includes_split (sep s : string) :
  sep ≠ "" → includes sep s = true →
  ∃ head next pieces, split sep s = head :: next :: pieces.
Proof.
  intros Hsep. unfold split. induction s as [|c rest IH]; cbn [split_go includes].
  - destruct sep; [done|]. discriminate.
  - intros Hinc. destruct (String.prefix sep (String c rest)) eqn:Ep.
    + pose proof (split_go_nonempty sep rest (String.length sep - 1)) as Hne.
      destruct (split_go sep (String.length sep - 1) rest); [done|eauto].
    + simpl in Hinc.
      destruct (IH Hinc) as (head & next & pieces & ->). eauto.
Qed.

Lemma emergencyTypeOf_returns (d : string) :
  includes marker d = true → ∃ emergencyType, emergencyTypeOf d = Returned emergencyType.
Proof.
  intros Hinc. unfold emergencyTypeOf.
  destruct (includes_split marker d) as (head & next & pieces & ->); [done|done|].
  simpl. destruct (split_head "." next) as (h & ps & ->). simpl. eauto.
Qed.

(** ** The successful cycle and the emergency marker *)

(** What a successful cycle with the marker adds to the trace, and the
    key it leaves. *)
Lemma runAnalysis_marker (c : Cycle) (result : AnalysisResult) (st : State)
    (emergencyType : string) :
  succeeds c result → isAnalyzingRef st = false →
  onEmergencyTrigger c = true →
  includes marker (sceneDescription result) = true →
  emergencyTypeOf (sceneDescription result) = Returned emergencyType →
  trace (runAnalysis c st)
  = trace st
      ++ AnalysisUpdate (Some (typed result)) false None
         :: (if decide (emergencyTriggeredRef st = Some emergencyType) then []
             else [Speak (announcement emergencyType); EmergencyTrigger])
      ++ [SetTimeout 2000%N] ∧
  emergencyTriggeredRef (runAnalysis c st) = Some emergencyType ∧
  isAnalyzingRef (runAnalysis c st) = false ∧
  boundingBoxes (runAnalysis c st) = Some (typed result).
Proof.
  intros (Hen & Hdet & Hon & frame & Hcap & Hgen) Han Hcb Hinc Hty.
  destruct st as [bb so cr an key tr]. simpl in Han. subst an.
  unfold runAnalysis, analyse, checkEmergency.
  rewrite Hen, Hdet, Hon, Hcap, Hgen. cbn [negb orb isAnalyzingRef setIsAnalyzingRef].
  cbn [typed jsonDetectedObjects jsonSceneDescription setBoundingBoxes emit
       setCoverageRatio].
  rewrite Hinc, Hcb, Hty. cbn [andb emergencyTriggeredRef].
  destruct (decide (key ≠ Some emergencyType)) as [Hne|Heq];
    destruct (decide (key = Some emergencyType)) as [Heq'|Hne']; try done.
  - cbn. rewrite <- !app_assoc. done.
  - cbn. rewrite <- !app_assoc. done.
Qed.

(** A successful cycle without the marker forgets the key. *)
Lemma runAnalysis_clear (c : Cycle) (result : AnalysisResult) (st : State) :
  succeeds c result → isAnalyzingRef st = false →
  includes marker (sceneDescription result) = false →
  emergencyTriggeredRef (runAnalysis c st) = None ∧
  trace (runAnalysis c st)
  = trace st ++ [AnalysisUpdate (Some (typed result)) false None; SetTimeout 2000%N].
Proof.
  intros (Hen & Hdet & Hon & frame & Hcap & Hgen) Han Hinc.
  destruct st as [bb so cr an key tr]. simpl in Han. subst an.
  unfold runAnalysis, analyse, checkEmergency.
  rewrite Hen, Hdet, Hon, Hcap, Hgen. cbn [negb orb isAnalyzingRef setIsAnalyzingRef].
  cbn [typed jsonDetectedObjects jsonSceneDescription setBoundingBoxes emit
       setCoverageRatio].
  rewrite Hinc. cbn. rewrite <- !app_assoc. done.
Qed.

Lemma triggers_of_cycle (result : AnalysisResult) (said : list Effect) :
  Forall (λ e, isTrigger e = false) said →
  triggers (AnalysisUpdate (Some (typed result)) false None :: said ++ [SetTimeout 2000%N]) = 0%nat.
Proof.
  intros Hq. unfold triggers.
  rewrite filter_cons_False by (simpl; discriminate).
  rewrite filter_app, length_app.
  rewrite (filter_cons_False _ (SetTimeout _)) by (simpl; discriminate).
  rewrite filter_nil.
  assert (filter (λ e, isTrigger e = true) said = []) as ->; [|done].
  induction Hq as [|e es He _ IH]; [done|].
  rewrite filter_cons_False; [done|]. by rewrite He.
Qed.

(** C1, amended.  In a successful cycle whose scene description contains
    the marker, the emergency callback being supplied, the callback is
    invoked once if the extracted type differs from the key left by the
    last trigger and not at all if it equals it, and the key then holds
    the extracted type: the next such cycle does not fire for the same
    type and fires for a different one. *)
Theorem emergency_fires_when_type_changes (c : Cycle) (result : AnalysisResult)
    (st : State) :
  succeeds c result → isAnalyzingRef st = false →
  onEmergencyTrigger c = true →
  includes marker (sceneDescription result) = true →
  ∃ emergencyType,
    emergencyTypeOf (sceneDescription result) = Returned emergencyType ∧
    triggers (added c st)
      = (if decide (emergencyTriggeredRef st = Some emergencyType) then 0 else 1)%nat ∧
    emergencyTriggeredRef (runAnalysis c st) = Some emergencyType ∧
    ∀ c' result' nextType,
      succeeds c' result' → onEmergencyTrigger c' = true →
      includes marker (sceneDescription result') = true →
      emergencyTypeOf (sceneDescription result') = Returned nextType →
      triggers (added c' (runAnalysis c st))
        = (if decide (nextType = emergencyType) then 0 else 1)%nat.
Proof.
  intros Hok Han Hcb Hinc.
  destruct (emergencyTypeOf_returns _ Hinc) as [emergencyType Hty].
  exists emergencyType. split; [done|].
  assert (Hcount : ∀ c0 r0 st0 ty0,
             succeeds c0 r0 → isAnalyzingRef st0 = false →
             onEmergencyTrigger c0 = true →
             includes marker (sceneDescription r0) = true →
             emergencyTypeOf (sceneDescription r0) = Returned ty0 →
             triggers (added c0 st0)
             = (if decide (emergencyTriggeredRef st0 = Some ty0) then 0 else 1)%nat).
  { intros c0 r0 st0 ty0 H1 H2 H3 H4 H5.
    destruct (runAnalysis_marker c0 r0 st0 ty0 H1 H2 H3 H4 H5) as (Htr & _).
    unfold added. rewrite Htr, drop_app_length.
    destruct (decide _); [by apply (triggers_of_cycle r0 [])|].
    reflexivity. }
  destruct (runAnalysis_marker c result st emergencyType Hok Han Hcb Hinc Hty)
    as (_ & Hkey & Han' & _).
  split; [by apply (Hcount c result)|]. split; [done|].
  intros c' result' nextType Hok' Hcb' Hinc' Hty'.
  rewrite (Hcount c' result' _ nextType Hok' Han' Hcb' Hinc' Hty'), Hkey.
  destruct (decide (Some emergencyType = Some nextType)) as [Heq|Hne];
    destruct (decide (nextType = emergencyType)) as [Heq'|Hne']; try done.
  - injection Heq as ->. done.
  - subst. done.
Qed.

Lemma emergency_fires_when_type_changes_witness :
  ∃ emergencyType,
    emergencyTypeOf fire = Returned emergencyType ∧
    triggers (added (seeing fire) initial) = 1%nat.
Proof.
  destruct (emergency_fires_when_type_changes (seeing fire) (describing fire) initial)
    as (emergencyType & Hty & Hfired & _).
  - repeat split; try reflexivity. exists frame0. split; reflexivity.
  - reflexivity.
  - reflexivity.
  - vm_compute. reflexivity.
  - exists emergencyType. split; [exact Hty|].
    rewrite Hfired. reflexivity.
Defined.

Lemma same_type_fires_again :
  triggers (trace (session [fire; flood; fire])) = 3%nat ∧
  remove_dups (typesOf [fire; flood; fire]) = ["Flood"; "Fire"] ∧
  triggers (trace (session [fire; calm; fire])) = 2%nat.
Proof. vm_compute. done. Qed.

(** C1, as stated, fails: three cycles reporting fire, flood and fire
    again invoke the callback three times for two distinct types. *)
Lemma not_oncePerType :
  triggers (trace (session [fire; flood; fire])) = 3%nat ∧ ¬ oncePerType.
Proof.
  destruct same_type_fires_again as (Hfired & Htypes & _).
  split; [exact Hfired|]. intros Hclaim.
  specialize (Hclaim [fire; flood; fire]).
  rewrite Hfired, Htypes in Hclaim. simpl in Hclaim.
  assert (3 = 2)%nat as Habs; [|discriminate].
  apply Hclaim. repeat constructor.
Qed.

(** ** The failing cycle *)

Lemma checkEmergency_returns (c : Cycle) (sceneDescription : string) (st : State) :
  ∃ st', checkEmergency c sceneDescription st = (st', Returned tt).
Proof.
  unfold checkEmergency.
  destruct (includes marker sceneDescription) eqn:Hinc; [|by eauto].
  destruct (onEmergencyTrigger c); [|by eauto]. cbn [andb].
  destruct (emergencyTypeOf_returns _ Hinc) as [emergencyType ->].
  destruct (decide _); eauto.
Qed.

Lemma recover_spec (errorMsg : string) (st : State) :
  trace (recover errorMsg st)
  = trace st ++ [ConsoleError "Analysis error";
                 AnalysisUpdate None false (Some (notice errorMsg));
                 SetTimeout (backoff errorMsg)] ∧
  boundingBoxes (recover errorMsg st)
  = (if isQuotaError errorMsg then None else boundingBoxes st) ∧
  emergencyTriggeredRef (recover errorMsg st) = emergencyTriggeredRef st ∧
  isAnalyzingRef (recover errorMsg st) = isAnalyzingRef st.
Proof.
  destruct st as [bb so cr an key tr]. unfold recover.
  destruct (isQuotaError errorMsg); cbn; rewrite <- !app_assoc; done.
Qed.

(** A cycle in which an awaited call throws ends in the [catch] block,
    entered in the state the cycle started from: the error is reported,
    the timer is set once to the delay of the error's text, the boxes are
    cleared if that text is of the quota class and kept otherwise, and
    the in-flight flag is lowered. *)
Lemma thrown_cycle (c : Cycle) (errorMsg : string) (st : State) :
  failsWith c errorMsg → isAnalyzingRef st = false →
  let st' := runAnalysis c st in
  trace st'
  = trace st ++ [ConsoleError "Analysis error";
                 AnalysisUpdate None false (Some (notice errorMsg));
                 SetTimeout (backoff errorMsg)] ∧
  isAnalyzingRef st' = false ∧
  boundingBoxes st' = (if isQuotaError errorMsg then None else boundingBoxes st).
Proof.
  intros (Hen & Hdet & Hon & Hfail) Han st'.
  assert (Hrun : st' = setIsAnalyzingRef false (recover errorMsg (setIsAnalyzingRef true st))).
  { subst st'. unfold runAnalysis. rewrite Hen, Hdet, Hon, Han. cbn [negb orb].
    unfold analyse.
    destruct Hfail as [Hcap | (frame & Hcap & Hgen)].
    - by rewrite Hcap.
    - by rewrite Hcap, Hgen. }
  destruct (recover_spec errorMsg (setIsAnalyzingRef true st)) as (Htr & Hbb & _ & _).
  split; [|split].
  - rewrite Hrun. destruct (recover _ _) eqn:E. simpl in *. rewrite Htr. by destruct st.
  - rewrite Hrun. by destruct (recover _ _).
  - rewrite Hrun. destruct (recover _ _) eqn:E. simpl in *. rewrite Hbb. by destruct st.
Qed.

(** The classes of the [catch] block are read off the text of the error:
    with results on display, a text that names the status 429 gives 60 s
    and clears them, one that says "timed out" gives 10 s and keeps them,
    and any other gives 5 s and keeps them. *)
Lemma classified_by_text :
  let seen := runAnalysis (detecting cupAndGhost) initial in
  let after errorMsg := runAnalysis (failing errorMsg) seen in
  boundingBoxes seen = Some (typed cupAndGhost) ∧
  (timers (added (failing "Error: got status: 429 Too Many Requests") seen) = [60000%N] ∧
   boundingBoxes (after "Error: got status: 429 Too Many Requests") = None) ∧
  (timers (added (failing "Error: The request timed out") seen) = [10000%N] ∧
   boundingBoxes (after "Error: The request timed out") = boundingBoxes seen) ∧
  (timers (added (failing "TypeError: Failed to fetch") seen) = [5000%N] ∧
   boundingBoxes (after "TypeError: Failed to fetch") = boundingBoxes seen).
Proof. vm_compute. done. Qed.

(** C8 (the code at the failing input).  When the model call behind the
    detection endpoint throws, whatever its message, and so also when the
    message reports an exhausted quota, the endpoint answers with status
    500 and the message in the body; the client throws an error that
    names the status text only; the cycle therefore takes the error for
    one of the other class: it reports "Analysis error. Retrying...",
    sets the timer to 5 s and keeps the displayed boxes. *)
Theorem upstream_failure_waits_five_seconds (message : string)
    (parse : string → Outcome Detection) (st : State) :
  isAnalyzingRef st = false →
  let reply := Server.objectDescription (Threw message) parse in
  let st' := runAnalysis (Client.analysing (Returned reply)) st in
  reply = {| Server.status := 500; Server.body := Server.ErrorBody message |} ∧
  Client.generateObjectDescription (Returned reply)
  = Threw "Error: Object Description API failed: Internal Server Error" ∧
  trace st'
  = trace st ++ [ConsoleError "Analysis error";
                 AnalysisUpdate None false (Some "Analysis error. Retrying...");
                 SetTimeout 5000%N] ∧
  boundingBoxes st' = boundingBoxes st ∧
  isAnalyzingRef st' = false.
Proof.
  intros Han reply st'.
  split; [reflexivity|]. split; [reflexivity|].
  destruct (thrown_cycle (Client.analysing (Returned reply))
              "Error: Object Description API failed: Internal Server Error" st)
    as (Htrace & Hflag & Hboxes); [|exact Han|].
  - repeat split; try reflexivity. right. exists frame0. split; reflexivity.
  - split; [exact Htrace|]. split; [exact Hboxes|exact Hflag].
Qed.

Lemma upstream_failure_waits_five_seconds_witness :
  let seen := runAnalysis (detecting cupAndGhost) initial in
  let st' := runAnalysis
               (Client.analysing
                  (Returned (Server.objectDescription (Threw Client.quotaExhausted)
                               (λ _, Threw "SyntaxError"))))
               seen in
  isQuotaError ("Error: " +:+ Client.quotaExhausted) = true ∧
  timers (drop (length (trace seen)) (trace st')) = [5000%N] ∧
  boundingBoxes st' = Some (typed cupAndGhost).
Proof.
  intros seen st'.
  destruct (upstream_failure_waits_five_seconds Client.quotaExhausted
              (λ _, Threw "SyntaxError") seen eq_refl)
    as (_ & _ & Htrace & Hboxes & _).
  split; [vm_compute; reflexivity|]. split.
  - unfold st'. rewrite Htrace, drop_app_length. reflexivity.
  - unfold st'. rewrite Hboxes. reflexivity.
Defined.

End VisualizerFacts.

(** ** The location hook *)

Module GeolocationFacts.

Import Geolocation.

(** While a request is in flight every call hands back its promise and
    touches nothing. *)
Lemma calls_in_flight (hasGeolocation : bool) (p : nat) (n : nat) (h : Hook) :
  promiseRef h = Some p →
  calls hasGeolocation n h = (h, replicate n (Follows p)).
Proof.
  intros Hp. induction n as [|n IH]; [done|].
  simpl. unfold requestLocation at 1. rewrite Hp, IH. done.
Qed.

Lemma first_call_issues (h : Hook) :
  promiseRef h = None →
  ∃ h', requestLocation true h = (h', Follows (length (promises h))) ∧
        promiseRef h' = Some (length (promises h)) ∧
        promises h' = promises h ++ [Pending] ∧
        platformRequests h' = platformRequests h ++ [length (promises h)] ∧
        status h' = pending ∧ error h' = None ∧ location h' = location h.
Proof.
  intros Hnone. destruct h as [loc st err ref ps reqs]. simpl in Hnone. subst ref.
  eexists. unfold requestLocation. simpl. done.
Qed.

Lemma answer_settles (p : nat) (a : Answer) (h : Hook) :
  promises h !! p = Some Pending →
  promises (answer p a h) = <[p := Fulfilled (answered a)]> (promises h) ∧
  promiseRef (answer p a h) = None ∧
  platformRequests (answer p a h) = platformRequests h ∧
  status (answer p a h) = match a with Position _ => granted | PositionError _ => denied end ∧
  location (answer p a h) = match a with Position c => Some c | PositionError _ => location h end ∧
  error (answer p a h) = match a with Position _ => error h | PositionError m => Some m end.
Proof.
  intros Hp. destruct h as [loc st err ref ps reqs]. simpl in Hp.
  destruct a as [coords|message]; unfold answer, onPosition, onPositionError, resolve;
    simpl; rewrite Hp; done.
Qed.

Lemma resolve_neverRejected (p : nat) (v : option LatLng) (h : Hook) :
  neverRejected h → neverRejected (resolve p v h).
Proof.
  intros Hnr. unfold resolve.
  destruct (promises h !! p) as [[| |]|] eqn:Hp; try done.
  destruct h as [loc st err ref ps reqs]. simpl in *.
  intros q reason Hq. simpl in Hq.
  destruct (decide (p = q)) as [->|Hne].
  - rewrite list_lookup_insert_eq in Hq; [discriminate|].
    by apply lookup_lt_Some in Hp.
  - rewrite list_lookup_insert_ne in Hq by done. by apply (Hnr q reason).
Qed.

Lemma step_neverRejected (hasGeolocation : bool) (h : Hook) (e : Event) :
  neverRejected h → neverRejected (step hasGeolocation h e).
Proof.
  intros Hnr. destruct e as [|p [coords|message]]; simpl.
  - unfold requestLocation. destruct (promiseRef h) eqn:Href; [done|].
    destruct hasGeolocation; simpl.
    + destruct h as [loc st err ref ps reqs]. simpl in *.
      intros q reason Hq. simpl in Hq.
      apply lookup_app_Some in Hq as [Hq|[_ Hq]]; [by apply (Hnr q reason)|].
      destruct (q - length ps)%nat; simpl in Hq; discriminate.
    + destruct h as [loc st err ref ps reqs]. exact Hnr.
  - apply resolve_neverRejected. by destruct h.
  - apply resolve_neverRejected. by destruct h.
Qed.

Lemma run_neverRejected (hasGeolocation : bool) (events : list Event) (h : Hook) :
  neverRejected h → neverRejected (run hasGeolocation events h).
Proof.
  unfold run. revert h. induction events as [|e events IH]; intros h Hnr; [done|].
  simpl. apply IH. by apply step_neverRejected.
Qed.

Lemma outcome_not_rejected (h : Hook) (r : Result) (reason : string) :
  neverRejected h → outcome h r ≠ Rejected reason.
Proof.
  intros Hnr. destruct r as [p|v]; simpl; [|done].
  destruct (promises h !! p) as [s|] eqn:Hp; simpl; [|done].
  intros ->. by apply (Hnr p reason).
Qed.

(** C5.  N calls made while nothing is in flight and before the
    platform answers issue one platform request and all follow the same
    pending promise, which the answer fulfils with the fix or with null
    for all of them at once; without location capability the call is
    resolved at once with null, status [unsupported], and no platform
    request; and no promise handed out is ever rejected. *)
Theorem requestLocation_single_flight :
  (∀ (n : nat) (h : Hook),
     promiseRef h = None →
     ∃ p h',
       calls true (S n) h = (h', replicate (S n) (Follows p)) ∧
       platformRequests h' = platformRequests h ++ [p] ∧
       promiseRef h' = Some p ∧
       outcome h' (Follows p) = Pending ∧
       ∀ a, outcome (answer p a h') (Follows p) = Fulfilled (answered a) ∧
            promiseRef (answer p a h') = None ∧
            platformRequests (answer p a h') = platformRequests h ++ [p]) ∧
  (∀ (h : Hook),
     promiseRef h = None →
     ∃ h', requestLocation false h = (h', Resolved None) ∧
           outcome h' (Resolved None) = Fulfilled None ∧
           status h' = unsupported ∧
           platformRequests h' = platformRequests h ∧ promiseRef h' = None) ∧
  (∀ (hasGeolocation : bool) (events : list Event) (r : Result) (reason : string),
     let h := run hasGeolocation events initial in
     outcome h r ≠ Rejected reason ∧
     outcome (fst (requestLocation hasGeolocation h))
       (snd (requestLocation hasGeolocation h)) ≠ Rejected reason).
Proof.
  split; [|split].
  - intros n h Hnone.
    destruct (first_call_issues h Hnone) as (h1 & Hrun & Href & Hps & Hreqs & _).
    exists (length (promises h)), h1.
    assert (Hp : promises h1 !! length (promises h) = Some Pending).
    { rewrite Hps. by apply list_lookup_middle. }
    split; [|split; [done|split; [done|split]]].
    + cbn [calls]. rewrite Hrun, (calls_in_flight true _ n h1 Href). done.
    + simpl. by rewrite Hp.
    + intros a. destruct (answer_settles _ a h1 Hp) as (Hps' & Href' & Hreqs' & _).
      split; [|split; [done|by rewrite Hreqs', Hreqs]].
      simpl. rewrite Hps', list_lookup_insert_eq; [done|].
      by apply lookup_lt_Some in Hp.
  - intros h Hnone. destruct h as [loc st err ref ps reqs]. simpl in Hnone. subst ref.
    eexists. unfold requestLocation. simpl. done.
  - intros hasGeolocation events r reason h.
    assert (Hnr : neverRejected h).
    { apply run_neverRejected. intros p why. simpl. by rewrite lookup_nil. }
    split; [by apply outcome_not_rejected|].
    apply outcome_not_rejected.
    apply (step_neverRejected hasGeolocation h Request Hnr).
Qed.

Lemma requestLocation_single_flight_witness :
  ∃ p h',
    calls true 3 initial = (h', replicate 3 (Follows p)) ∧
    platformRequests h' = [p] ∧
    outcome (answer p (Position greenwich) h') (Follows p) = Fulfilled (Some greenwich).
Proof.
  destruct requestLocation_single_flight as (Hmany & _).
  destruct (Hmany 2%nat initial eq_refl) as (p & h' & Hcalls & Hreqs & _ & _ & Hanswer).
  exists p, h'. split; [exact Hcalls|]. split; [exact Hreqs|].
  destruct (Hanswer (Position greenwich)) as (Hvalue & _). exact Hvalue.
Defined.

End GeolocationFacts.

(** ** The camera hook *)

Module WebcamFacts.

Import Webcam.

Lemma active_stopTracks (s : MediaStream) : active (stopTracks s) = false.
Proof.
  destruct s as [ts]. unfold active, stopTracks. simpl.
  induction ts as [|t ts IH]; [done|]. simpl. exact IH.
Qed.

Lemma countActive_cons (s : MediaStream) (streams : list MediaStream) :
  countActive (s :: streams)
  = ((if active s then 1 else 0) + countActive streams)%nat.
Proof.
  unfold countActive. rewrite filter_cons.
  destruct (decide (active s = true)) as [->|Hn]; [done|].
  by destruct (active s).
Qed.

Lemma countActive_app (l k : list MediaStream) :
  countActive (l ++ k) = (countActive l + countActive k)%nat.
Proof. unfold countActive. by rewrite filter_app, length_app. Qed.

Lemma countActive_stop (i : nat) (streams : list MediaStream) :
  countActive (alter stopTracks i streams)
  = (countActive streams
     - (if from_option active false (streams !! i) then 1 else 0))%nat.
Proof.
  revert i. induction streams as [|s streams IH]; intros i; [by destruct i|].
  destruct i as [|i]; simpl.
  - rewrite !countActive_cons, active_stopTracks. destruct (active s); simpl; lia.
  - change (list_alter stopTracks i streams) with (alter stopTracks i streams).
    rewrite !countActive_cons, IH.
    pose proof (countActive_cons s streams).
    destruct (from_option active false (streams !! i)) eqn:E; [|lia].
    assert (1 ≤ countActive streams)%nat; [|lia].
    clear IH H. revert i E. induction streams as [|s' streams IH]; intros i E.
    + by destruct i.
    + rewrite countActive_cons. destruct i as [|i]; simpl in E.
      * rewrite E. lia.
      * specialize (IH i E). lia.
Qed.

Lemma stopHeld_count (h : Hook) :
  activeStreams (stopHeld h)
  = (activeStreams h - (if heldActive h then 1 else 0))%nat.
Proof.
  destruct h as [st en fm mc ht to er dv fl]. unfold stopHeld, heldActive, activeStreams.
  simpl. destruct st as [i|]; simpl; [|lia].
  apply countActive_stop.
Qed.

Lemma stopHeld_inactive (h : Hook) (i : nat) (s : MediaStream) :
  stream h = Some i → devices (stopHeld h) !! i = Some s → active s = false.
Proof.
  destruct h as [st en fm mc ht to er dv fl]. unfold stopHeld. simpl.
  intros -> Hs. simpl in Hs.
  rewrite list_lookup_alter_eq in Hs.
  destruct (dv !! i); simplify_eq/=. apply active_stopTracks.
Qed.

Lemma request_spec (mode : FacingMode) (h : Hook) :
  alreadyOn mode h = false →
  let h' := enableWebcam_request mode h in
  inFlight h' = inFlight h ++ [mode] ∧
  heldActive h' = false ∧
  activeStreams h' = (activeStreams h - (if heldActive h then 1 else 0))%nat ∧
  (∀ i s, stream h = Some i → devices h' !! i = Some s → active s = false).
Proof.
  intros Hoff. unfold enableWebcam_request. rewrite Hoff.
  pose proof (stopHeld_count h) as Hcount.
  pose proof (stopHeld_inactive h) as Hstop.
  destruct h as [st en fm mc ht to er dv fl].
  unfold stopHeld in *. simpl in *.
  destruct st as [i|]; simpl in *.
  - repeat split; try done.
    unfold heldActive. simpl. rewrite list_lookup_alter_eq.
    destruct (dv !! i); simpl; [apply active_stopTracks|done].
  - repeat split; try done.
Qed.

Lemma onError_cells (errName : string) (h : Hook) :
  stream (onError errName h) = None ∧
  isEnabled (onError errName h) = false ∧
  devices (onError errName h) = devices h ∧
  inFlight (onError errName h) = inFlight h.
Proof.
  destruct h as [st en fm mc ht to er dv fl]. unfold onError.
  destruct (String.eqb errName "NotAllowedError"); [done|].
  destruct (String.eqb errName "NotFoundError"); done.
Qed.

(** A call that runs to its end from a settled state ends in a settled
    state, with no stream active at its [await]. *)
Lemma enableWebcam_settled (mode : FacingMode) (o : Acquisition) (h : Hook) :
  settled h → probed o →
  settled (enableWebcam mode o h) ∧
  (activeStreams (enableWebcam_request mode h) ≤ 1)%nat ∧
  (activeStreams h ≤ 1)%nat.
Proof.
  intros [Hfl Hcount] Hprobe.
  assert (Hle : (activeStreams h ≤ 1)%nat) by (rewrite Hcount; destruct (heldActive h); lia).
  unfold enableWebcam.
  destruct (alreadyOn mode h) eqn:Hon.
  { unfold enableWebcam_request. rewrite Hon. done. }
  destruct (request_spec mode h Hon) as (Hfl' & Hheld & Hcount' & _).
  set (h1 := enableWebcam_request mode h) in *.
  rewrite Hfl in Hfl'. simpl in Hfl'.
  assert (Hzero : activeStreams h1 = 0%nat).
  { rewrite Hcount', Hcount. destruct (heldActive h); lia. }
  split; [|split; [lia|done]].
  unfold enableWebcam_settle. rewrite Hfl'.
  destruct h1 as [st en fm mc ht to er dv fl]. unfold activeStreams in Hzero. simpl in *.
  destruct o as [[torch|errName]|errName]; [|done|].
  - split; [done|]. unfold activeStreams, heldActive. simpl.
    rewrite list_lookup_middle by done. simpl.
    fold (countActive (dv ++ [{| tracks := [true] |}])).
    rewrite countActive_app. unfold countActive at 1. rewrite Hzero. done.
  - match goal with |- settled (onError ?e ?x) =>
      destruct (onError_cells e x) as (Hs & _ & Hd & Hf) end.
    split; [by rewrite Hf|].
    unfold activeStreams, heldActive. rewrite Hs, Hd. simpl. exact Hzero.
Qed.

(** C6, amended.  A call made while the camera is on in the requested
    mode with a live stream changes nothing.  Any other call stops every
    track of the stream held before it asks for a new one.  When each
    call has settled before the next is made, and the capability probe of
    every granted stream answers, at most one capture stream is active
    before, during and after every call. *)
Theorem enableWebcam_one_stream_when_calls_settle :
  (∀ mode o h,
     alreadyOn mode h = true →
     enableWebcam_request mode h = h ∧ enableWebcam mode o h = h) ∧
  (∀ mode h,
     alreadyOn mode h = false →
     inFlight (enableWebcam_request mode h) = inFlight h ++ [mode] ∧
     ∀ i s, stream h = Some i →
            devices (enableWebcam_request mode h) !! i = Some s → active s = false) ∧
  (∀ callList h,
     settled h → Forall (λ call, probed call.2) callList →
     Forall (λ h', (activeStreams h' ≤ 1)%nat) (passed callList h)).
Proof.
  split; [|split].
  - intros mode o h Hon. unfold enableWebcam, enableWebcam_request. by rewrite Hon.
  - intros mode h Hoff. destruct (request_spec mode h Hoff) as (Hfl & _ & _ & Hstop). done.
  - intros callList. induction callList as [|[mode o] rest IH]; intros h Hset Hprobed.
    + simpl. constructor; [|done]. destruct Hset as [_ ->]. destruct (heldActive h); lia.
    + apply Forall_cons in Hprobed as [Hprobe Hrest]. simpl in Hprobe.
      destruct (enableWebcam_settled mode o h Hset Hprobe) as (Hset' & Hmid & Hpre).
      simpl. constructor; [done|]. constructor; [done|]. by apply IH.
Qed.

Lemma enableWebcam_one_stream_witness :
  Forall (λ h', (activeStreams h' ≤ 1)%nat) (passed threeCalls initial).
Proof.
  destruct enableWebcam_one_stream_when_calls_settle as (_ & _ & Hseq).
  apply Hseq.
  - split; reflexivity.
  - repeat constructor.
Defined.

(** With nothing in flight, a call followed at once by its settlement is
    a call that runs to its end. *)
Lemma run_call_then_settle (mode : FacingMode) (o : Acquisition) (h : Hook) :
  inFlight h = [] → run [Call mode; Settle o] h = enableWebcam mode o h.
Proof.
  intros Hnone. unfold run, enableWebcam. simpl.
  destruct (alreadyOn mode h) eqn:Hon; [|done].
  unfold enableWebcam_request. rewrite Hon.
  unfold enableWebcam_settle. by rewrite Hnone.
Qed.

Lemma two_streams_after_double_tap :
  activeStreams (run doubleTap initial) = 2%nat ∧
  stream (run doubleTap initial) = Some 1%nat.
Proof. vm_compute. done. Qed.

(** C6, as stated, fails: two calls made before either has settled leave
    two active streams, of which the hook holds one. *)
Lemma not_oneStreamAtMost :
  activeStreams (run doubleTap initial) = 2%nat ∧ ¬ oneStreamAtMost.
Proof.
  destruct two_streams_after_double_tap as [Htwo _].
  split; [exact Htwo|]. intros Hclaim. specialize (Hclaim doubleTap). lia.
Qed.

(** When the capability probe of a granted stream throws, the [catch]
    block forgets the stream without stopping it. *)
Lemma probe_failure_leaks_stream :
  let h := enableWebcam user (Granted (ProbeThrows "TypeError")) initial in
  stream h = None ∧ isEnabled h = false ∧ activeStreams h = 1%nat ∧
  activeStreams (enableWebcam user (Granted (Capabilities false)) h) = 2%nat.
Proof. vm_compute. done. Qed.

End WebcamFacts.

(** ** The audio codec *)

Module CodecFacts.

Import Codec.

Lemma toInt16_range (x : Q) : (-32768 ≤ toInt16 x < 32768)%Z.
Proof.
  unfold toInt16. cbv zeta.
  set (int := (Qnum x ÷ Z.pos (Qden x))%Z).
  pose proof (Z.mod_pos_bound int 65536 eq_refl).
  destruct (Z.ltb_spec (int mod 65536) 32768); lia.
Qed.

Lemma toInt16_small (x : Q) :
  (-32768 ≤ Qnum x ÷ Z.pos (Qden x) < 32768)%Z →
  toInt16 x = (Qnum x ÷ Z.pos (Qden x))%Z.
Proof.
  intros Hr. unfold toInt16. cbv zeta.
  set (int := (Qnum x ÷ Z.pos (Qden x))%Z) in *.
  destruct (Z.ltb_spec (int mod 65536) 32768) as [Hlt|Hge];
    Z.div_mod_to_equations; lia.
Qed.

Lemma int16Of_bytes (v : Z) :
  (-32768 ≤ v < 32768)%Z →
  int16Of (v mod 256) ((v `div` 256) mod 256) = v.
Proof.
  intros Hr. unfold int16Of. cbv zeta.
  destruct (Z.ltb_spec (v mod 256 + 256 * ((v `div` 256) mod 256)) 32768);
    Z.div_mod_to_equations; lia.
Qed.

Lemma bytesOfInt16_cons (v : Z) (int16 : list Z) :
  bytesOfInt16 (v :: int16)
  = (v mod 256)%Z :: ((v `div` 256) mod 256)%Z :: bytesOfInt16 int16.
Proof. reflexivity. Qed.

Lemma int16View_bytes (int16 : list Z) :
  Forall (λ v, (-32768 ≤ v < 32768)%Z) int16 →
  int16View (bytesOfInt16 int16) = int16.
Proof.
  induction 1 as [|v vs Hv _ IH]; [done|].
  rewrite bytesOfInt16_cons. cbn [int16View]. rewrite IH, int16Of_bytes by done. done.
Qed.

Lemma bytesOfInt16_length (int16 : list Z) :
  length (bytesOfInt16 int16) = (2 * length int16)%nat.
Proof.
  induction int16 as [|v vs IH]; [done|].
  rewrite bytesOfInt16_cons. cbn [length]. rewrite IH. lia.
Qed.

Lemma bytesOfInt16_bytes (int16 : list Z) : Forall isByte (bytesOfInt16 int16).
Proof.
  induction int16 as [|v vs IH]; [constructor|].
  rewrite bytesOfInt16_cons.
  repeat constructor; try (unfold isByte; apply Z.mod_pos_bound; lia). exact IH.
Qed.

Lemma toPCM16_range (data : list Q) :
  Forall (λ v, (-32768 ≤ v < 32768)%Z) (toPCM16 data).
Proof. unfold toPCM16. apply Forall_fmap, Forall_true. intros x. apply toInt16_range. Qed.

Lemma channelData_mono (dataInt16 : list Z) :
  channelData dataInt16 1 (length dataInt16) 0
  = (λ v, (inject_Z v / 32768)%Q) <$> dataInt16.
Proof.
  unfold channelData.
  apply list_eq. intros i. rewrite !list_lookup_fmap.
  destruct (decide (i < length dataInt16)%nat) as [Hlt|Hge].
  - rewrite lookup_seq_lt by done. simpl.
    replace (i * 1 + 0)%nat with i by lia.
    destruct (lookup_lt_is_Some_2 dataInt16 i Hlt) as [v Hv]. by rewrite Hv.
  - rewrite lookup_seq_ge by lia. rewrite lookup_ge_None_2 by lia. done.
Qed.

Lemma int16Of_range (lo hi : Z) :
  isByte lo → isByte hi → (-32768 ≤ int16Of lo hi < 32768)%Z.
Proof.
  unfold isByte, int16Of. intros Hlo Hhi. cbv zeta.
  destruct (Z.ltb_spec (lo + 256 * hi) 32768); lia.
Qed.

Lemma int16View_range (data : list Z) :
  Forall isByte data → Forall (λ v, (-32768 ≤ v < 32768)%Z) (int16View data).
Proof.
  revert data. fix IH 1. intros [|lo [|hi rest]] Hb; cbn [int16View]; try constructor.
  - apply Forall_cons in Hb as [Hlo Hb]. apply Forall_cons in Hb as [Hhi _].
    by apply int16Of_range.
  - apply Forall_cons in Hb as [_ Hb]. apply Forall_cons in Hb as [_ Hb].
    by apply IH.
Qed.

Lemma int16View_length (data : list Z) :
  length (int16View data) = (length data / 2)%nat.
Proof.
  revert data. fix IH 1. intros [|lo [|hi rest]]; cbn [int16View length]; try done.
  rewrite IH. change (S (S (length rest))) with (1 * 2 + length rest)%nat.
  rewrite Nat.add_comm, Nat.div_add by lia. lia.
Qed.

Lemma sample_range (v : Z) :
  (-32768 ≤ v < 32768)%Z →
  (-1 <= inject_Z v / 32768)%Q ∧ (inject_Z v / 32768 < 1)%Q.
Proof. intros Hv. unfold Qle, Qlt. cbn. lia. Qed.

(** X1.  Microphone samples written by [createBlob] and read back by
    [decodeAudioData] as one channel come back in the same number and
    order, each replaced by its 16-bit quantisation. *)
Theorem decode_of_createBlob (data : list Q) (rate : positive) :
  data ≠ [] →
  decodeAudioData (createBlobBytes data) rate 1
  = Returned {| sampleRate := rate; channels := [quantise <$> data] |}.
Proof.
  intros Hne. unfold decodeAudioData, createBlobBytes.
  rewrite bytesOfInt16_length.
  assert (Nat.even (2 * length (toPCM16 data)) = true) as ->.
  { rewrite Nat.even_mul. done. }
  cbn [negb]. rewrite (int16View_bytes _ (toPCM16_range data)).
  cbn [Nat.eqb]. rewrite Nat.div_1_r.
  assert (length (toPCM16 data) ≠ 0%nat) as Hlen.
  { unfold toPCM16. rewrite length_fmap. by destruct data. }
  destruct (Nat.eqb_spec (length (toPCM16 data)) 0); [done|].
  f_equal. f_equal. cbn [seq fmap list_fmap]. f_equal.
  rewrite channelData_mono. unfold toPCM16, quantise.
  rewrite <- list_fmap_compose. done.
Qed.

Lemma decode_of_createBlob_witness :
  decodeAudioData (createBlobBytes [(1 # 2)%Q; (-1 # 3)%Q]) 24000 1
  = Returned {| sampleRate := 24000; channels := [quantise <$> [(1 # 2)%Q; (-1 # 3)%Q]] |}.
Proof. apply decode_of_createBlob. discriminate. Defined.

Lemma trunc_bounds (a d : Z) :
  (0 < d)%Z → ((a ÷ d - 1) * d < a < (a ÷ d + 1) * d)%Z.
Proof. intros Hd. Z.quot_rem_to_equations. nia. Qed.

Lemma trunc_between (a D lo hi : Z) :
  (0 < D)%Z → (0 < hi)%Z → (lo * D ≤ a)%Z → (a < hi * D)%Z → (lo ≤ a ÷ D < hi)%Z.
Proof.
  intros HD Hhi0 Hlo Hhi. split.
  - rewrite <- (Z.quot_mul lo D) by lia. apply Z.quot_le_mono; lia.
  - destruct (Z_le_gt_dec 0 a) as [Hpos|Hneg].
    + apply Z.quot_lt_upper_bound; lia.
    + assert (a ÷ D ≤ 0)%Z; [|lia].
      rewrite <- (Z.quot_0_l D) by lia. apply Z.quot_le_mono; lia.
Qed.

Lemma scaled_trunc (sample : Q) :
  (Qnum (sample * 32768) ÷ Z.pos (Qden (sample * 32768)))%Z
  = ((Qnum sample * 32768) ÷ Z.pos (Qden sample))%Z.
Proof. cbn. by rewrite Pos.mul_1_r. Qed.

(** X2.  A sample in [-1, 1) is stored without wrap-around and comes back
    less than one 16-bit step (1/32768) away, still in [-1, 1); a sample
    that is a multiple of 1/32768 comes back unchanged. *)
Theorem quantise_within_one_step (sample : Q) :
  (-1 <= sample)%Q → (sample < 1)%Q →
  (sample - (1 # 32768) < quantise sample)%Q ∧
  (quantise sample < sample + (1 # 32768))%Q ∧
  (-1 <= quantise sample)%Q ∧ (quantise sample < 1)%Q ∧
  (onGrid sample → quantise sample = sample).
Proof.
  intros Hlo Hhi. destruct sample as [n d].
  unfold Qle, Qlt in Hlo, Hhi. cbn in Hlo, Hhi.
  pose proof (trunc_bounds (n * 32768) (Z.pos d) eq_refl) as Htr.
  assert (Hrange : (-32768 ≤ (n * 32768) ÷ Z.pos d < 32768)%Z).
  { apply trunc_between; lia. }
  assert (Hq : toInt16 ((n # d) * 32768) = ((n * 32768) ÷ Z.pos d)%Z).
  { rewrite toInt16_small; rewrite scaled_trunc; done. }
  unfold quantise. rewrite Hq.
  split; [|split; [|split; [|split]]].
  - generalize dependent ((n * 32768) ÷ Z.pos d)%Z. intros t Htr _ _.
    unfold Qlt. cbn. nia.
  - generalize dependent ((n * 32768) ÷ Z.pos d)%Z. intros t Htr _ _.
    unfold Qlt. cbn. nia.
  - apply sample_range. exact Hrange.
  - apply sample_range. exact Hrange.
  - intros (k & Hk & Hgrid). rewrite Hgrid. f_equal. f_equal.
    injection Hgrid as -> ->.
    rewrite Z.mul_1_r. apply Z.quot_mul. done.
Qed.

Lemma quantise_within_one_step_witness :
  (-(1 # 3) - (1 # 32768) < quantise (-(1 # 3)))%Q ∧
  (quantise (-(1 # 3)) < -(1 # 3) + (1 # 32768))%Q.
Proof.
  destruct (quantise_within_one_step (-(1 # 3))%Q) as (Hlow & Hhigh & _).
  - vm_compute. discriminate.
  - vm_compute. reflexivity.
  - split; [exact Hlow | exact Hhigh].
Defined.

(** X3.  Nothing clamps: a sample at or above full scale, from 1 up to 2,
    is stored as a negative 16-bit value, so it comes back negative. *)
Theorem overdriven_sample_wraps (sample : Q) :
  (1 <= sample)%Q → (sample < 2)%Q →
  (toInt16 (sample * 32768) < 0)%Z ∧ (quantise sample < 0)%Q.
Proof.
  intros Hlo Hhi. destruct sample as [n d].
  unfold Qle, Qlt in Hlo, Hhi. cbn in Hlo, Hhi.
  pose proof (trunc_bounds (n * 32768) (Z.pos d) eq_refl) as Htr.
  assert (Hneg : (toInt16 ((n # d) * 32768) < 0)%Z).
  { unfold toInt16. cbv zeta. rewrite scaled_trunc. cbn [Qnum Qden].
    assert (Hrange : (32768 ≤ (n * 32768) ÷ Z.pos d < 65536)%Z).
    { apply trunc_between; lia. }
    generalize dependent ((n * 32768) ÷ Z.pos d)%Z. intros t _ Hrange.
    destruct (Z.ltb_spec (t mod 65536) 32768); Z.div_mod_to_equations; lia. }
  split; [exact Hneg|].
  unfold quantise, Qlt. cbn. lia.
Qed.

Lemma overdriven_sample_wraps_witness :
  (toInt16 (1 * 32768) < 0)%Z ∧ (quantise 1 < 0)%Q.
Proof. apply overdriven_sample_wraps; vm_compute; [discriminate | reflexivity]. Defined.

(** X4.  [decodeAudioData] throws on an odd number of bytes and on no
    bytes at all; an even, positive number of bytes read as one channel
    gives one frame per two bytes, the duration that many frames have at
    the sample rate, and samples that all lie in [-1, 1). *)
Theorem decodeAudioData_mono (data : list Z) (rate : positive) :
  Forall isByte data →
  (Nat.odd (length data) = true →
     ∃ e, decodeAudioData data rate 1 = Threw e) ∧
  (data = [] → ∃ e, decodeAudioData data rate 1 = Threw e) ∧
  (Nat.even (length data) = true → data ≠ [] →
     ∃ b, decodeAudioData data rate 1 = Returned b ∧
          frames b = (length data / 2)%nat ∧
          duration b = (inject_Z (Z.of_nat (length data / 2)) / inject_Z (Z.pos rate))%Q ∧
          Forall (λ s, (-1 <= s)%Q ∧ (s < 1)%Q) (samples b)).
Proof.
  intros Hbytes. split; [|split].
  - intros Hodd. unfold decodeAudioData.
    rewrite <- Nat.negb_odd, Hodd. cbn. eauto.
  - intros ->. cbn. eauto.
  - intros Heven Hne. unfold decodeAudioData. rewrite Heven. cbn [negb Nat.eqb].
    rewrite Nat.div_1_r, int16View_length.
    assert (Hpos : (length data / 2 ≠ 0)%nat).
    { destruct data as [|lo [|hi rest]]; [done|discriminate|].
      cbn [length]. change (S (S (length rest))) with (1 * 2 + length rest)%nat.
      rewrite Nat.add_comm, Nat.div_add by lia. lia. }
    destruct (Nat.eqb_spec (length data / 2) 0); [done|].
    eexists. split; [reflexivity|].
    cbn [seq fmap list_fmap].
    rewrite <- (int16View_length data), channelData_mono.
    split; [|split].
    + unfold frames. cbn. by rewrite length_fmap.
    + unfold duration, frames. cbn. by rewrite length_fmap.
    + unfold samples. cbn. rewrite app_nil_r.
      apply Forall_fmap. eapply Forall_impl; [apply int16View_range, Hbytes|].
      intros v Hv. apply sample_range, Hv.
Qed.

Lemma decodeAudioData_mono_witness :
  ∃ b, decodeAudioData [0; 64; 0; 192]%Z 24000 1 = Returned b ∧ frames b = 2%nat.
Proof.
  destruct (decodeAudioData_mono [0; 64; 0; 192]%Z 24000) as (_ & _ & Heven).
  - repeat constructor; unfold isByte; lia.
  - destruct (Heven eq_refl) as (b & Hrun & Hframes & _); [discriminate|].
    exists b. split; [exact Hrun | exact Hframes].
Defined.

End CodecFacts.

(** ** Closing the transport *)

Module ClosingFacts.

Import Transport.

(** X5.  [close] hands nothing to the socket and leaves it in a state
    other than [OPEN], whatever state it was in: every later
    [sendRealtimeInput] and [sendToolResponse] on the session is
    discarded, and a second [close] changes nothing. *)
Theorem close_silences_session {C : Type} (media : Base64Media)
    (response : FunctionResponse) (s : LiveSession C) :
  sent (ws (close s)) = sent (ws s) ∧
  callbacks (close s) = callbacks s ∧
  readyState (ws (close s)) ≠ OPEN ∧
  sendRealtimeInput media (close s) = close s ∧
  sendToolResponse response (close s) = close s ∧
  close (close s) = close s.
Proof.
  destruct s as [[state frames] cb].
  unfold close, ws_close, sendRealtimeInput, sendToolResponse. simpl.
  destruct state; simpl; repeat split; done.
Qed.

End ClosingFacts.

(** ** More of the orchestrator *)

Module AssistantFacts.

Import Transport Live LiveFacts.

(** ** Playback of synthesised speech *)

(** X6.  [playAudio] does nothing without an output context or gain node.
    Otherwise it stops every queued source and empties the queue before
    it decodes: when decoding succeeds the new source is alone in the
    queue, started at the context's current time, and the clock stands at
    that time plus the duration; when decoding throws, the queue stays
    empty, so the audio that was playing is cut and nothing replaces it. *)
Theorem playAudio_replaces_playback (w : World) (audio : string) (st : Orch) :
  ((outputContextRef st = None ∨ outputNodeRef st = None) →
     playAudio w audio st = (st, Returned tt)) ∧
  (∀ c node, outputContextRef st = Some c → outputNodeRef st = Some node →
     let st' := fst (playAudio w audio st) in
     match decodeAudioData w audio with
     | Returned duration =>
         snd (playAudio w audio st) = Returned tt ∧
         playingSourcesRef st' = [sourcesCreated st] ∧
         trace st' = trace st ++ (SourceStop <$> playingSourcesRef st)
                       ++ [SourceStart (sourcesCreated st) (currentTime c)] ∧
         nextStartTimeRef st' = (currentTime c + duration)%Q
     | Threw e =>
         snd (playAudio w audio st) = Threw e ∧
         playingSourcesRef st' = [] ∧
         trace st' = trace st ++ (SourceStop <$> playingSourcesRef st) ∧
         nextStartTimeRef st' = currentTime c
     end).
Proof.
  destruct st as [l cn a ci co ms s ac oc isrc pr on ps nt hi sc tr].
  unfold playAudio; run_M; simpl. split.
  - intros [-> | ->]; [done|]. by destruct oc.
  - intros c node -> ->. simpl.
    destruct (decodeAudioData w audio); simpl; [|done].
    rewrite <- app_assoc. done.
Qed.

Lemma playAudio_replaces_playback_witness :
  playingSourcesRef (fst (playAudio offline "AAAA" speaking)) = [1%nat] ∧
  trace (fst (playAudio offline "AAAA" speaking))
  = trace speaking ++ [SourceStop 0%nat] ++ [SourceStart 1%nat (0 + 5)%Q].
Proof.
  destruct (playAudio_replaces_playback offline "AAAA" speaking) as [_ Hplay].
  specialize (Hplay {| closed := false; currentTime := 0 + 5 |}
                {| connected := true |} eq_refl eq_refl).
  destruct Hplay as (_ & Hqueue & Htrace & _).
  split; [exact Hqueue | exact Htrace].
Defined.

(** ** [speakAndLog] *)

Lemma speakAndLog_quiet_case (w : World) (body : string) (isError : bool) (st : Orch) :
  midSpeech st = true →
  speakAndLog w body isError false st = (addMessage (plain ai body) st, Returned tt).
Proof. unfold midSpeech, speakAndLog; run_M. intros ->. reflexivity. Qed.

Lemma speakAndLog_loud_case (w : World) (body : string) (isError canSpeak : bool)
    (st : Orch) :
  canSpeak = true ∨ midSpeech st = false →
  ∃ st' rest,
    speakAndLog w body isError canSpeak st = (st', Returned tt) ∧
    messages st' = messages st ++ [plain ai body] ∧
    trace st' = trace st ++ (if isError then [ConsoleError body] else [])
                  ++ SpeechRequest body :: rest ∧
    Forall quiet rest ∧
    liveSessionRef st' = liveSessionRef st.
Proof.
  intros Hloud. unfold speakAndLog.
  unfold bind at 1. unfold get at 1. unfold bind at 1. unfold get at 1.
  assert (negb canSpeak
          && (hasAIBeenInterruptedRef st || (0 <? length (playingSourcesRef st))%nat)
          = false) as ->.
  { destruct Hloud as [-> | Hmid]; [done|]. unfold midSpeech in Hmid. rewrite Hmid.
    by destruct canSpeak. }
  unfold bind at 1, lift at 1. unfold bind at 1.
  set (st0 := addMessage (plain ai body) st).
  set (st1 := (if isError then emit [ConsoleError body] st0 else st0)).
  assert (Hstep : (if isError then lift (emit [ConsoleError body]) else ret tt) st0
                  = (st1, Returned tt)) by (unfold st1; by destruct isError).
  rewrite Hstep.
  assert (Hm1 : messages st1 = messages st ++ [plain ai body])
    by (unfold st1, st0; destruct isError, st; done).
  assert (Ht1 : trace st1 = trace st ++ (if isError then [ConsoleError body] else []))
    by (unfold st1, st0; destruct isError, st; simpl; by rewrite ?app_nil_r).
  assert (Hs1 : liveSessionRef st1 = liveSessionRef st)
    by (unfold st1, st0; destruct isError, st; done).
  unfold tryCatch. unfold bind at 1, lift at 1. unfold bind at 1, await at 1.
  set (st2 := emit [SpeechRequest body] st1).
  assert (Hm2 : messages st2 = messages st1) by apply emit_messages.
  assert (Ht2 : trace st2 = trace st1 ++ [SpeechRequest body]) by apply emit_trace.
  assert (Hs2 : liveSessionRef st2 = liveSessionRef st1) by apply keepsF_emit.
  destruct (generateSpeech w body) as [audio|e].
  - destruct (playAudio_quiet w audio st2) as (rest & Htr & Hq & Hms).
    pose proof (keeps_playAudio w audio st2) as Hks.
    destruct (playAudio w audio st2) as [st3 [[]|e]] eqn:Eplay; simpl in *.
    + exists st3, rest. split; [done|]. split; [congruence|].
      split; [|split; [done|congruence]].
      rewrite Htr, Ht2, Ht1, <- !app_assoc. done.
    + unfold lift. eexists _, (rest ++ [ConsoleError "TTS failed"]).
      split; [reflexivity|].
      rewrite emit_messages, emit_trace, keepsF_emit.
      split; [congruence|]. split; [|split; [|congruence]].
      * rewrite Htr, Ht2, Ht1, <- !app_assoc. done.
      * apply Forall_app. split; [done|]. by repeat constructor.
  - unfold lift. eexists _, [ConsoleError "TTS failed"].
    split; [reflexivity|].
    rewrite emit_messages, emit_trace, keepsF_emit.
    split; [congruence|]. split; [|split; [|congruence]].
    + rewrite Ht2, Ht1, <- !app_assoc. done.
    + by repeat constructor.
Qed.

(** X7.  Whatever the state and the answers of the speech service,
    [speakAndLog] returns normally and appends exactly one assistant
    message holding the text.  A call that may interrupt (the default)
    always requests speech, also while the assistant is mid-speech; a call
    that may not is only logged while the assistant is mid-speech, and
    then touches neither the trace nor the playback queue. *)
Theorem speakAndLog_logs_once (w : World) (body : string)
    (isError canSpeak : bool) (st : Orch) :
  ∃ st',
    speakAndLog w body isError canSpeak st = (st', Returned tt) ∧
    messages st' = messages st ++ [plain ai body] ∧
    liveSessionRef st' = liveSessionRef st ∧
    (canSpeak = true → SpeechRequest body ∈ trace st') ∧
    (canSpeak = false → midSpeech st = true →
       trace st' = trace st ∧ playingSourcesRef st' = playingSourcesRef st).
Proof.
  destruct canSpeak.
  - destruct (speakAndLog_loud_case w body isError true st (or_introl eq_refl))
      as (st' & rest & Hrun & Hm & Ht & _ & Hs).
    exists st'. split; [done|]. split; [done|]. split; [done|].
    split; [|done]. intros _. rewrite Ht. set_solver.
  - destruct (midSpeech st) eqn:Hmid.
    + rewrite (speakAndLog_quiet_case w body isError st Hmid).
      eexists. split; [reflexivity|]. destruct st. done.
    + destruct (speakAndLog_loud_case w body isError false st (or_intror Hmid))
        as (st' & rest & Hrun & Hm & Ht & _ & Hs).
      exists st'. done.
Qed.

Lemma speakAndLog_always (w : World) (body : string) (isError canSpeak : bool)
    (st : Orch) :
  ∃ st' rest,
    speakAndLog w body isError canSpeak st = (st', Returned tt) ∧
    messages st' = messages st ++ [plain ai body] ∧
    trace st' = trace st ++ rest ∧ Forall quiet rest ∧
    liveSessionRef st' = liveSessionRef st.
Proof.
  destruct canSpeak.
  - destruct (speakAndLog_loud_case w body isError true st (or_introl eq_refl))
      as (st' & rest & Hrun & Hm & Ht & Hq & Hs).
    exists st', ((if isError then [ConsoleError body] else []) ++ SpeechRequest body :: rest).
    repeat split; try done.
    apply Forall_app. split; [by destruct isError; repeat constructor|].
    by constructor.
  - destruct (midSpeech st) eqn:Hmid.
    + rewrite (speakAndLog_quiet_case w body isError st Hmid).
      eexists _, []. split; [reflexivity|]. destruct st; simpl.
      by rewrite app_nil_r.
    + destruct (speakAndLog_loud_case w body isError false st (or_intror Hmid))
        as (st' & rest & Hrun & Hm & Ht & Hq & Hs).
      exists st', ((if isError then [ConsoleError body] else []) ++ SpeechRequest body :: rest).
      repeat split; try done.
      apply Forall_app. split; [by destruct isError; repeat constructor|].
      by constructor.
Qed.

Lemma speakAndLog_logs_once_witness :
  ∃ st',
    speakAndLog offline "Battery low." false true hushed = (st', Returned tt) ∧
    SpeechRequest "Battery low." ∈ trace st'.
Proof.
  destruct (speakAndLog_logs_once offline "Battery low." false true hushed)
    as (st' & Hrun & _ & _ & Hloud & _).
  exists st'. split; [exact Hrun | exact (Hloud eq_refl)].
Defined.

(** ** Tool calls *)

Lemma dispatch_unknown (w : World) (call : ToolCall) :
  name call ∉ knownTools →
  dispatch w call = ret ("Unknown tool " +:+ name call).
Proof.
  intros Hname. unfold dispatch.
  assert (Hne : ∀ t, t ∈ knownTools → String.eqb (name call) t = false).
  { intros t Ht. apply String.eqb_neq. intros E. apply Hname. by rewrite E. }
  rewrite !Hne by (unfold knownTools; set_solver).
  reflexivity.
Qed.

(** X8.  A tool call whose name is none of the six the hook implements is
    logged as a tool call and answered with "Unknown tool <name>": nothing
    is spoken, opened or triggered, and no other message is added.  The
    answer goes out on the session if one is held. *)
Theorem unknown_tool_is_reported (w : World) (call : ToolCall) (st : Orch) :
  name call ∉ knownTools →
  ∃ st',
    processToolCall w call st = (st', Returned tt) ∧
    messages st' = messages st ++ [toolCallEntry call] ∧
    trace st' = trace st ∧
    playingSourcesRef st' = playingSourcesRef st ∧
    liveSessionRef st'
    = sendToolResponse {| fr_id := id call; fr_name := name call;
                          fr_result := "Unknown tool " +:+ name call |}
        <$> liveSessionRef st.
Proof.
  intros Hname. unfold processToolCall. rewrite (dispatch_unknown w call Hname).
  destruct st as [l cn a ci co ms s ac oc isrc pr on ps nt hi sc tr].
  run_M; simpl. destruct s; simpl; eexists; (split; [reflexivity|done]).
Qed.

Lemma unknown_tool_is_reported_witness :
  wire (fst (processToolCall offline {| name := "openDoor"; id := "call-2"; args := ∅ |}
               firstSession))
  = [ToolResponse {| fr_id := "call-2"; fr_name := "openDoor";
                     fr_result := "Unknown tool openDoor" |}].
Proof.
  destruct (unknown_tool_is_reported offline
              {| name := "openDoor"; id := "call-2"; args := ∅ |} firstSession)
    as (st' & Hrun & _ & _ & _ & Hs).
  { vm_compute. intros H. by repeat (apply elem_of_cons in H as [H|H]; [done|]);
      apply elem_of_nil in H. }
  rewrite Hrun. unfold wire. simpl. rewrite Hs. reflexivity.
Defined.


Local Notation "'guarded' w call" :=
  (tryCatch (dispatch w call)
     (λ e, lift (emit [ConsoleError e]) ;; ret "Tool execution failed."))
  (at level 10, w at level 9, call at level 9, only parsing).

(** [processToolCall], given how the guarded dispatch ends. *)
Lemma processToolCall_with (w : World) (call : ToolCall) (st st1 : Orch)
    (response : string) :
  guarded w call (addMessage (toolCallEntry call) st) = (st1, Returned response) →
  ∃ st',
    processToolCall w call st = (st', Returned tt) ∧
    messages st' = messages st1 ∧ trace st' = trace st1 ∧
    playingSourcesRef st' = playingSourcesRef st1 ∧
    liveSessionRef st'
    = sendToolResponse {| fr_id := id call; fr_name := name call;
                          fr_result := response |} <$> liveSessionRef st.
Proof.
  intros Hrun.
  pose proof (keeps_guarded_dispatch w call (addMessage (toolCallEntry call) st)) as Hk.
  rewrite Hrun in Hk. simpl in Hk. rewrite keepsF_addMessage in Hk.
  unfold processToolCall. unfold bind at 1, lift at 1.
  fold (toolCallEntry call). unfold bind at 1. rewrite Hrun.
  unfold bind at 1, get at 1. rewrite Hk.
  destruct st1 as [l cn a ci co ms s ac oc isrc pr on ps nt hi sc tr]. simpl in *. subst s.
  destruct (liveSessionRef st); simpl; eexists; (split; [reflexivity|done]).
Qed.

Lemma dispatch_describe (w : World) (call : ToolCall) :
  name call = "describeEnvironment" →
  dispatch w call
  = (frame <- await (getFrame w) ;;
     match frame with
     | Some f =>
         speakAndLog w "Analyzing your surroundings..." false false ;;
         await (analyzeSceneForNavigation w f (location w))
     | None => ret "Unable to capture image. Please ensure the camera is enabled."
     end).
Proof. intros Hname. unfold dispatch. rewrite Hname. reflexivity. Qed.

(** X9.  [describeEnvironment] always answers the model.  Without a frame
    the answer asks for the camera and nothing is said or logged beyond
    the tool-call entry.  With a frame, "Analyzing your surroundings..." is
    logged first and the answer is the description, or "Tool execution
    failed." when the analysis request fails.  A failing [getFrame] gives
    the same failure answer and is reported on the console. *)
Theorem describeEnvironment_answers (w : World) (call : ToolCall) (st : Orch) :
  name call = "describeEnvironment" →
  ∃ st' response,
    processToolCall w call st = (st', Returned tt) ∧
    liveSessionRef st'
    = sendToolResponse {| fr_id := id call; fr_name := name call;
                          fr_result := response |} <$> liveSessionRef st ∧
    match getFrame w with
    | Returned None =>
        response = "Unable to capture image. Please ensure the camera is enabled." ∧
        messages st' = messages st ++ [toolCallEntry call] ∧
        trace st' = trace st
    | Returned (Some f) =>
        messages st'
        = messages st ++ [toolCallEntry call; plain ai "Analyzing your surroundings..."] ∧
        response = match analyzeSceneForNavigation w f (location w) with
                   | Returned description => description
                   | Threw _ => "Tool execution failed."
                   end
    | Threw e =>
        response = "Tool execution failed." ∧
        messages st' = messages st ++ [toolCallEntry call] ∧
        trace st' = trace st ++ [ConsoleError e]
    end.
Proof.
  intros Hname.
  set (st0 := addMessage (toolCallEntry call) st).
  assert (Hm0 : messages st0 = messages st ++ [toolCallEntry call]) by by destruct st.
  assert (Ht0 : trace st0 = trace st) by by destruct st.
  assert (∃ st1 response,
    guarded w call st0 = (st1, Returned response) ∧
    match getFrame w with
    | Returned None =>
        response = "Unable to capture image. Please ensure the camera is enabled." ∧
        messages st1 = messages st0 ∧ trace st1 = trace st0
    | Returned (Some f) =>
        messages st1 = messages st0 ++ [plain ai "Analyzing your surroundings..."] ∧
        response = match analyzeSceneForNavigation w f (location w) with
                   | Returned description => description
                   | Threw _ => "Tool execution failed."
                   end
    | Threw e =>
        response = "Tool execution failed." ∧
        messages st1 = messages st0 ∧ trace st1 = trace st0 ++ [ConsoleError e]
    end) as (st1 & response & Hrun & Hcases).
  { rewrite (dispatch_describe w call Hname).
    destruct (getFrame w) as [[f|]|e]; run_M; cbv beta iota.
    - destruct (speakAndLog_always w "Analyzing your surroundings..." false false st0)
        as (st1 & rest & -> & Hm & _ & _ & _).
      cbv beta iota.
      destruct (analyzeSceneForNavigation w f (location w)) as [d|e].
      + by exists st1, d.
      + eexists _, _. split; [reflexivity|]. by rewrite emit_messages.
    - by eexists _, _.
    - eexists _, _. split; [reflexivity|].
      by rewrite emit_messages, emit_trace. }
  destruct (processToolCall_with w call st st1 response Hrun)
    as (st' & Hp & Hm & Ht & _ & Hs).
  exists st', response. split; [done|]. split; [done|].
  destruct (getFrame w) as [[f|]|e].
  - destruct Hcases as [Hm1 ->]. split; [|done].
    rewrite Hm, Hm1, Hm0, <- app_assoc. done.
  - destruct Hcases as (-> & Hm1 & Ht1). split; [done|]. split; congruence.
  - destruct Hcases as (-> & Hm1 & Ht1). split; [done|]. split; congruence.
Qed.

Lemma describeEnvironment_answers_witness :
  let call := {| name := "describeEnvironment"; id := "call-3"; args := ∅ |} in
  wire (fst (processToolCall online call firstSession))
  = [ToolResponse {| fr_id := "call-3"; fr_name := "describeEnvironment";
                     fr_result := "Tool execution failed." |}] ∧
  text <$> messages (fst (processToolCall online call firstSession))
  = ["Using describeEnvironment"; "Analyzing your surroundings..."].
Proof.
  intros call.
  destruct (describeEnvironment_answers online call firstSession eq_refl)
    as (st' & response & Hrun & Hs & Hm & Hr).
  simpl in Hr. subst response. rewrite Hrun. simpl.
  split; [unfold wire; rewrite Hs; reflexivity | rewrite Hm; reflexivity].
Defined.


Lemma dispatch_search (w : World) (call : ToolCall) :
  name call = "webSearch" ∨ name call = "navigateWeb" →
  dispatch w call
  = executeWebSearch w (orElse (args call !! "query") (args call !! "destination")).
Proof. intros [Hname | Hname]; unfold dispatch; rewrite Hname; reflexivity. Qed.

(** X10.  [webSearch] and [navigateWeb] are one tool.  The search term is
    [args.query], or [args.destination] when the query is missing or
    empty.  When the term can be encoded, the search page is opened
    before anything is spoken, "Searching for <term>." is logged, and the
    model is told "Opened search." whether or not speech synthesis
    succeeds; when encoding throws, no page is opened, nothing is said
    and the model is told "Tool execution failed.". *)
Theorem webSearch_opens_then_speaks (w : World) (call : ToolCall) (st : Orch) :
  name call = "webSearch" ∨ name call = "navigateWeb" →
  let term := show (orElse (args call !! "query") (args call !! "destination")) in
  ∃ st' response,
    processToolCall w call st = (st', Returned tt) ∧
    liveSessionRef st'
    = sendToolResponse {| fr_id := id call; fr_name := name call;
                          fr_result := response |} <$> liveSessionRef st ∧
    match encodeURIComponent w term with
    | Returned q =>
        response = "Opened search." ∧
        messages st'
        = messages st ++ [toolCallEntry call; plain ai ("Searching for " +:+ term +:+ ".")] ∧
        ∃ rest,
          trace st'
          = trace st ++ WindowOpen ("https://www.google.com/search?q=" +:+ q)
                     :: SpeechRequest ("Searching for " +:+ term +:+ ".") :: rest
    | Threw e =>
        response = "Tool execution failed." ∧
        messages st' = messages st ++ [toolCallEntry call] ∧
        trace st' = trace st ++ [ConsoleError e]
    end.
Proof.
  intros Hname term.
  set (st0 := addMessage (toolCallEntry call) st).
  assert (Hm0 : messages st0 = messages st ++ [toolCallEntry call]) by by destruct st.
  assert (Ht0 : trace st0 = trace st) by by destruct st.
  assert (∃ st1 response,
    guarded w call st0 = (st1, Returned response) ∧
    match encodeURIComponent w term with
    | Returned q =>
        response = "Opened search." ∧
        messages st1 = messages st0 ++ [plain ai ("Searching for " +:+ term +:+ ".")] ∧
        ∃ rest,
          trace st1
          = trace st0 ++ WindowOpen ("https://www.google.com/search?q=" +:+ q)
                      :: SpeechRequest ("Searching for " +:+ term +:+ ".") :: rest
    | Threw e =>
        response = "Tool execution failed." ∧
        messages st1 = messages st0 ∧ trace st1 = trace st0 ++ [ConsoleError e]
    end) as (st1 & response & Hrun & Hcases).
  { rewrite (dispatch_search w call Hname). unfold executeWebSearch. fold term.
    destruct (encodeURIComponent w term) as [q|e]; run_M; cbv beta iota.
    - set (st1 := emit [WindowOpen ("https://www.google.com/search?q=" +:+ q)] st0).
      destruct (speakAndLog_loud_case w ("Searching for " +:+ term +:+ ".") false true st1
                  (or_introl eq_refl))
        as (st2 & rest & -> & Hm & Ht & _ & _).
      cbv beta iota. eexists _, _. split; [reflexivity|]. split; [done|].
      split; [by rewrite Hm; unfold st1; rewrite emit_messages|].
      exists rest. rewrite Ht. unfold st1. rewrite emit_trace, <- app_assoc. done.
    - eexists _, _. split; [reflexivity|]. by rewrite emit_messages, emit_trace. }
  destruct (processToolCall_with w call st st1 response Hrun)
    as (st' & Hp & Hm & Ht & _ & Hs).
  exists st', response. split; [done|]. split; [done|].
  destruct (encodeURIComponent w term) as [q|e].
  - destruct Hcases as (-> & Hm1 & rest & Ht1). split; [done|].
    split; [rewrite Hm, Hm1, Hm0, <- app_assoc; done|].
    exists rest. congruence.
  - destruct Hcases as (-> & Hm1 & Ht1). split; [done|]. split; congruence.
Qed.

Lemma webSearch_opens_then_speaks_witness :
  let call := {| name := "navigateWeb"; id := "call-4";
                 args := {[ "query" := ""; "destination" := "station" ]} |} in
  ∃ rest,
    trace (fst (processToolCall offline call firstSession))
    = WindowOpen "https://www.google.com/search?q=station"
        :: SpeechRequest "Searching for station." :: rest.
Proof.
  intros call.
  destruct (webSearch_opens_then_speaks offline call firstSession (or_intror eq_refl))
    as (st' & response & Hrun & _ & _ & _ & rest & Ht).
  exists rest. rewrite Hrun. exact Ht.
Defined.

(** ** Nearby places *)

(** X11.  [executeNearby] gives up before any search when it has no API
    key (nothing is said or logged), and when it has a key but no fix and
    the location request yields none: then the user is asked for the
    location, the failure is logged as an error, and the answer is the
    failure text, whatever the search service would have returned. *)
Theorem executeNearby_without_location (w : World) (query : option string) (st : Orch) :
  (apiKey w = false → executeNearby w query st = (st, Returned "API Key missing.")) ∧
  (apiKey w = true → location w = None → requestLocation w = Returned None →
     ∃ st',
       executeNearby w query st
       = (st', Returned "I couldn't get your location. Nearby search failed.") ∧
       messages st'
       = messages st
           ++ [plain ai "I need your location. Please check your browser prompts.";
               plain ai "I couldn't get your location. Nearby search failed."] ∧
       ConsoleError "I couldn't get your location. Nearby search failed." ∈ trace st' ∧
       ∀ answer,
         executeNearby (withGenerateContent answer w) query st = executeNearby w query st).
Proof.
  split.
  - intros Hkey. unfold executeNearby. rewrite Hkey. reflexivity.
  - intros Hkey Hloc Hreq.
    assert (Hsame : ∀ answer,
      executeNearby (withGenerateContent answer w) query st = executeNearby w query st).
    { intros answer. unfold executeNearby. cbn [apiKey status location requestLocation
        withGenerateContent]. rewrite Hkey, Hloc, Hreq.
      rewrite !orb_true_r. cbn [negb]. run_M. cbv beta iota.
      change (speakAndLog (withGenerateContent answer w)) with (speakAndLog w).
      by destruct (speakAndLog w _ false true st) as [st1 [[]|e]]. }
    enough (∃ st',
       executeNearby w query st
       = (st', Returned "I couldn't get your location. Nearby search failed.") ∧
       messages st'
       = messages st
           ++ [plain ai "I need your location. Please check your browser prompts.";
               plain ai "I couldn't get your location. Nearby search failed."] ∧
       ConsoleError "I couldn't get your location. Nearby search failed." ∈ trace st')
      as (st' & Hrun & Hm & Ht) by by exists st'.
    unfold executeNearby. rewrite Hkey, Hloc, Hreq.
    rewrite !orb_true_r. cbn [negb]. run_M. cbv beta iota.
    destruct (speakAndLog_always w "I need your location. Please check your browser prompts."
                false true st) as (st1 & rest1 & -> & Hm1 & _ & _ & _).
    cbv beta iota.
    destruct (speakAndLog_loud_case w "I couldn't get your location. Nearby search failed."
                true true st1 (or_introl eq_refl)) as (st2 & rest2 & -> & Hm2 & Ht2 & _ & _).
    cbv beta iota. exists st2. split; [done|].
    split; [by rewrite Hm2, Hm1, <- app_assoc|].
    rewrite Ht2. set_solver.
Qed.

Lemma executeNearby_without_location_witness :
  fst (executeNearby offline (Some "cafes") firstSession) = firstSession ∧
  text <$> messages (fst (executeNearby online (Some "cafes") firstSession))
  = ["I need your location. Please check your browser prompts.";
     "I couldn't get your location. Nearby search failed."].
Proof.
  destruct (executeNearby_without_location offline (Some "cafes") firstSession)
    as [Hkey _].
  destruct (executeNearby_without_location online (Some "cafes") firstSession)
    as [_ Hloc].
  destruct (Hloc eq_refl eq_refl eq_refl) as (st' & Hrun & Hm & _).
  split; [by rewrite (Hkey eq_refl)|]. rewrite Hrun. simpl. rewrite Hm. reflexivity.
Defined.


Lemma playAudio_returns_if_decodes (w : World) (audio : string) (d : Q) (st : Orch) :
  decodeAudioData w audio = Returned d → snd (playAudio w audio st) = Returned tt.
Proof.
  intros Hd. destruct st as [l cn a ci co ms s ac oc isrc pr on ps nt hi sc tr].
  unfold playAudio; run_M; simpl. destruct oc, on; simpl; try done. by rewrite Hd.
Qed.

Lemma placeSources_complete (chunks : list (option string * option string)) :
  Forall (λ src, nonEmpty (uri src) = true ∧ nonEmpty (title src) = true)
    (placeSources chunks).
Proof.
  unfold placeSources. induction chunks as [|[[u|] [t|]] chunks IH]; simpl; try done.
  destruct (nonEmpty u) eqn:Hu, (nonEmpty t) eqn:Ht; simpl; try done.
  by constructor.
Qed.

(** X12.  With a key and a granted fix, the answer of the grounded search
    is logged with its place links as soon as it arrives, each link having
    a title and an address.  The tool result is that answer only if the
    answer could also be spoken: when speech synthesis fails after a
    successful search, the user additionally gets "Failed to search nearby
    places." and that text, not the answer, goes back to the model. *)
Theorem nearby_answer_needs_speech (w : World) (query : option string)
    (here : LatLng) (body : string) (chunks : list (option string * option string))
    (st : Orch) :
  apiKey w = true → location w = Some here →
  status w ≠ "idle" → status w ≠ "pending" →
  generateContent w query here = Returned (body, chunks) →
  let answer := {| type := ai; text := body; toolCall := None;
                   groundingSources := Some (placeSources chunks) |} in
  Forall (λ src, nonEmpty (uri src) = true ∧ nonEmpty (title src) = true)
    (placeSources chunks) ∧
  ∃ st' result,
    executeNearby w query st = (st', Returned result) ∧
    (∀ audio d, generateSpeech w body = Returned audio →
       decodeAudioData w audio = Returned d →
       result = body ∧ messages st' = messages st ++ [answer]) ∧
    (∀ e, generateSpeech w body = Threw e →
       result = "Failed to search nearby places." ∧
       messages st'
       = messages st ++ [answer; plain ai "Failed to search nearby places."]).
Proof.
  intros Hkey Hloc Hidle Hpending Hgen answer.
  split; [apply placeSources_complete|].
  unfold executeNearby. rewrite Hkey, Hloc.
  apply String.eqb_neq in Hidle, Hpending. rewrite Hidle, Hpending.
  cbn [negb orb bool_decide]. rewrite bool_decide_true by done. cbn [negb].
  run_M. cbv beta iota. rewrite Hgen. cbv beta iota. cbn [fst snd]. fold answer.
  set (st1 := emit [SpeechRequest body] (addMessage answer st)).
  assert (Hm1 : messages st1 = messages st ++ [answer])
    by (unfold st1; rewrite emit_messages; by destruct st).
  destruct (generateSpeech w body) as [audio|e]; cbv beta iota.
  - destruct (playAudio_quiet w audio st1) as (rest & _ & _ & Hm).
    pose proof (playAudio_returns_if_decodes w audio) as Hret.
    destruct (playAudio w audio st1) as [st2 [[]|e]] eqn:Hplay; simpl in *.
    + eexists _, _. split; [reflexivity|]. split; [|done].
      intros _ _ _ _. split; [done|congruence].
    + destruct (speakAndLog_always w "Failed to search nearby places." true true st2)
        as (st3 & rest3 & -> & Hm3 & _ & _ & _).
      cbv beta iota. eexists _, _. split; [reflexivity|]. split; [|done].
      intros audio' d Heq Hd. simplify_eq.
      specialize (Hret d st1 Hd). rewrite Hplay in Hret. done.
  - destruct (speakAndLog_always w "Failed to search nearby places." true true st1)
      as (st3 & rest3 & -> & Hm3 & _ & _ & _).
    cbv beta iota. eexists _, _. split; [reflexivity|]. split; [done|].
    intros _ _. split; [done|]. rewrite Hm3, Hm1, <- app_assoc. done.
Qed.


Lemma nearby_answer_needs_speech_witness :
  snd (executeNearby muted (Some "cafes") firstSession)
  = Returned "Failed to search nearby places." ∧
  messages (fst (executeNearby muted (Some "cafes") firstSession))
  = [ {| type := ai; text := "Two cafes are nearby."; toolCall := None;
         groundingSources :=
           Some [ {| title := "Cafe Uno"; uri := "https://maps.google.com/?cid=1" |} ] |};
      plain ai "Failed to search nearby places." ].
Proof.
  destruct (nearby_answer_needs_speech muted (Some "cafes")
              {| latitude := 51 # 1; longitude := 0 |} "Two cafes are nearby."
              [ (Some "https://maps.google.com/?cid=1", Some "Cafe Uno");
                (Some "https://maps.google.com/?cid=2", None) ]
              firstSession eq_refl eq_refl)
    as (_ & st' & result & Hrun & _ & Hmute); [done | done | reflexivity |].
  destruct (Hmute _ eq_refl) as [-> Hm].
  rewrite Hrun. split; [reflexivity | exact Hm].
Defined.

(** ** Transcription buffers *)

Lemma append_assoc (a b c : string) : (a +:+ b) +:+ c = a +:+ (b +:+ c).
Proof.
  induction a as [|ch a IH]; [done|].
  change (String ch ((a +:+ b) +:+ c) = String ch (a +:+ (b +:+ c))). by rewrite IH.
Qed.

Lemma append_empty_r (a : string) : a +:+ "" = a.
Proof.
  induction a as [|ch a IH]; [done|].
  change (String ch (a +:+ "") = String ch a). by rewrite IH.
Qed.

Lemma transcription_cells (msg : Wire.LiveServerMessage) (st : Orch) :
  let st' := onOutputTranscription msg (onInputTranscription msg st) in
  currentInputTranscription st' = currentInputTranscription st +:+ inputDelta msg ∧
  currentOutputTranscription st' = currentOutputTranscription st +:+ outputDelta msg.
Proof.
  unfold onOutputTranscription, onInputTranscription, inputDelta, outputDelta.
  destruct st as [l cn a ci co ms s ac oc isrc pr on ps nt hi sc tr].
  destruct (Wire.serverContent msg ≫= Wire.inputTranscription),
    (Wire.serverContent msg ≫= Wire.outputTranscription); simpl;
    by rewrite ?append_empty_r.
Qed.

Lemma onmessage_transcriptOnly (env : HandlerEnv) (w : World)
    (msg : Wire.LiveServerMessage) (st : Orch) :
  transcriptOnly msg →
  onmessage env w msg st = onOutputTranscription msg (onInputTranscription msg st).
Proof.
  intros (Hint & Hturn & Haudio & Htool).
  unfold onmessage. rewrite handleMessage_steps.
  unfold beforeAudio, onInterrupted, onTurnComplete. rewrite Hint, Hturn.
  unfold onInlineAudio, onToolCall. rewrite Haudio, Htool. run_M. cbv beta iota.
  reflexivity.
Qed.

Lemma deliverAll_transcripts (env : HandlerEnv) (w : World)
    (envelopes : list Wire.LiveServerMessage) :
  Forall transcriptOnly envelopes →
  ∀ st,
    let st' := deliverAll env w envelopes st in
    currentInputTranscription st'
    = currentInputTranscription st +:+ joined (inputDelta <$> envelopes) ∧
    currentOutputTranscription st'
    = currentOutputTranscription st +:+ joined (outputDelta <$> envelopes) ∧
    messages st' = messages st ∧ trace st' = trace st ∧
    playingSourcesRef st' = playingSourcesRef st ∧
    liveSessionRef st' = liveSessionRef st.
Proof.
  induction 1 as [|msg envelopes Hmsg Hall IH]; intros st; simpl.
  - by rewrite !append_empty_r.
  - unfold deliverAll. simpl. rewrite (onmessage_transcriptOnly env w msg st Hmsg).
    destruct (onTranscription_same_cells msg st)
      as (Hp & Ht & _ & _ & _ & Hm & _ & Hsess & _).
    destruct (transcription_cells msg st) as [Hi Ho].
    specialize (IH (onOutputTranscription msg (onInputTranscription msg st))).
    unfold deliverAll in IH. simpl in IH.
    destruct IH as (-> & -> & -> & -> & -> & ->).
    rewrite Hi, Ho, !append_assoc. repeat split; congruence.
Qed.

Lemma receiveAll_held (w : World) (envelopes : list Wire.LiveServerMessage) :
  Forall transcriptOnly envelopes →
  ∀ st s, liveSessionRef st = Some s →
          receiveAll w envelopes st = deliverAll (callbacks s) w envelopes st.
Proof.
  induction 1 as [|msg envelopes Hmsg Hall IH]; intros st s Hs; [done|].
  unfold receiveAll, deliverAll. simpl.
  unfold receive at 2. rewrite Hs.
  apply IH. rewrite (onmessage_transcriptOnly _ w msg st Hmsg).
  destruct (onTranscription_same_cells msg st) as (_ & _ & _ & _ & _ & _ & _ & Hsess & _).
  congruence.
Qed.

(** X13.  For envelopes that carry nothing but transcription deltas the
    message handler does not look at the session reference: handed to any
    handler closure in any state, they grow the two buffers by their
    deltas in arrival order (a delta without text contributes the word
    "undefined"), and change neither the message log, nor playback, nor
    the session reference.  So it is in particular for the envelopes that
    arrive on the session the hook holds. *)
Theorem transcripts_accumulate (w : World) (envelopes : list Wire.LiveServerMessage)
    (st : Orch) :
  (∀ env, Forall transcriptOnly envelopes →
     let st' := deliverAll env w envelopes st in
     currentInputTranscription st'
     = currentInputTranscription st +:+ joined (inputDelta <$> envelopes) ∧
     currentOutputTranscription st'
     = currentOutputTranscription st +:+ joined (outputDelta <$> envelopes) ∧
     messages st' = messages st ∧ trace st' = trace st ∧
     playingSourcesRef st' = playingSourcesRef st ∧
     liveSessionRef st' = liveSessionRef st) ∧
  (∀ s, liveSessionRef st = Some s → Forall transcriptOnly envelopes →
     let st' := receiveAll w envelopes st in
     currentInputTranscription st'
     = currentInputTranscription st +:+ joined (inputDelta <$> envelopes) ∧
     currentOutputTranscription st'
     = currentOutputTranscription st +:+ joined (outputDelta <$> envelopes) ∧
     messages st' = messages st ∧ trace st' = trace st ∧
     playingSourcesRef st' = playingSourcesRef st ∧
     liveSessionRef st' = Some s).
Proof.
  split.
  - intros env Hall. by apply deliverAll_transcripts.
  - intros s Hs Hall st'. unfold st'.
    rewrite (receiveAll_held w envelopes Hall st s Hs).
    destruct (deliverAll_transcripts (callbacks s) w envelopes Hall st)
      as (Hi & Ho & Hm & Ht & Hp & Hsess).
    repeat split; congruence.
Qed.

(** Four deltas on the session that is held, and one that arrives on the
    first session after a second start has replaced it. *)
Lemma transcripts_accumulate_witness :
  currentInputTranscription
    (receiveAll offline [heard "turn "; heardNothing; said "ok"; heard " left"]
       firstSession)
  = "turn undefined left" ∧
  currentOutputTranscription
    (receiveAll offline [heard "turn "; heardNothing; said "ok"; heard " left"]
       firstSession)
  = "ok" ∧
  currentInputTranscription
    (deliverAll firstHandler offline [heard "stop"]
       (fst (startSession Connected firstSession)))
  = "stop".
Proof.
  destruct (transcripts_accumulate offline
              [heard "turn "; heardNothing; said "ok"; heard " left"] firstSession)
    as [_ Hacc].
  destruct (transcripts_accumulate offline [heard "stop"]
              (fst (startSession Connected firstSession))) as [Hany _].
  destruct (startSession_captures initial) as (s & Hs & _).
  destruct (Hacc s Hs) as (Hi & Ho & _).
  { by repeat constructor. }
  destruct (Hany firstHandler) as (Hstop & _).
  { by repeat constructor. }
  split; [exact Hi|]. split; [exact Ho | exact Hstop].
Defined.


(** ** Playback control *)

(** X14.  Two chunks of streamed audio never overlap and never start in
    the past: the second starts where the first ends, or at the time of
    its arrival if that is later. *)
Theorem streamed_chunks_play_back_to_back (now1 d1 now2 d2 : Q) (st : Orch) :
  let start1 := Qmax (nextStartTimeRef st) now1 in
  let start2 := Qmax (start1 + d1) now2 in
  let st2 := scheduleStreamed now2 d2 (scheduleStreamed now1 d1 st) in
  trace st2 = trace st ++ [SourceStart (sourcesCreated st) start1;
                           SourceStart (S (sourcesCreated st)) start2] ∧
  playingSourcesRef st2
  = playingSourcesRef st ++ [sourcesCreated st; S (sourcesCreated st)] ∧
  nextStartTimeRef st2 = (start2 + d2)%Q ∧
  (now1 <= start1)%Q ∧ (nextStartTimeRef st <= start1)%Q ∧
  (start1 + d1 <= start2)%Q ∧ (now2 <= start2)%Q ∧
  ((now2 <= start1 + d1)%Q → (start2 == start1 + d1)%Q) ∧
  ((start1 + d1 <= now2)%Q → (start2 == now2)%Q).
Proof.
  destruct st as [l cn a ci co ms s ac oc isrc pr on ps nt hi sc tr].
  unfold scheduleStreamed, scheduleSource. simpl.
  rewrite <- !app_assoc. simpl.
  split; [done|]. split; [done|]. split; [done|].
  split; [apply Q.le_max_r|]. split; [apply Q.le_max_l|].
  split; [apply Q.le_max_l|]. split; [apply Q.le_max_r|].
  split; [apply Q.max_l | apply Q.max_r].
Qed.

Lemma streamed_chunks_play_back_to_back_witness :
  (Qmax (Qmax (nextStartTimeRef firstSession) 0 + 1) (1 # 2)
   == Qmax (nextStartTimeRef firstSession) 0 + 1)%Q.
Proof.
  destruct (streamed_chunks_play_back_to_back 0 1 (1 # 2) 1 firstSession)
    as (_ & _ & _ & _ & _ & _ & _ & Hgapless & _).
  apply Hgapless. vm_compute. discriminate.
Defined.

(** X15.  [stopSpeaking] stops and forgets every playing source and keeps
    the session, the log and the playback clock.  From then on speech
    that may not interrupt is only logged, until a turn-complete envelope
    lifts the flag.  Streamed audio is not held back: the next chunk of
    the stream is started, and no earlier than the position the stopped
    audio had been scheduled up to. *)
Theorem stopSpeaking_mutes_speech_not_stream (st : Orch) :
  let st' := stopSpeaking st in
  playingSourcesRef st' = [] ∧
  trace st' = trace st ++ (SourceStop <$> playingSourcesRef st) ∧
  liveSessionRef st' = liveSessionRef st ∧ messages st' = messages st ∧
  nextStartTimeRef st' = nextStartTimeRef st ∧
  (∀ w body isError,
     speakAndLog w body isError false st' = (addMessage (plain ai body) st', Returned tt)) ∧
  (∀ env msg, isTurnComplete msg = true →
     midSpeech (onTurnComplete env msg st') = false) ∧
  (∀ w msg c node payload d,
     outputContextRef st = Some c → outputNodeRef st = Some node →
     Wire.serverContent msg ≫= Wire.inlineData = Some payload →
     nonEmpty payload = true → decodeAudioData w payload = Returned d →
     playingSourcesRef (fst (onInlineAudio w msg st')) = [sourcesCreated st] ∧
     trace (fst (onInlineAudio w msg st'))
     = trace st' ++ [SourceStart (sourcesCreated st)
                       (Qmax (nextStartTimeRef st) (currentTime c))]).
Proof.
  destruct st as [l cn a ci co ms s ac oc isrc pr on ps nt hi sc tr].
  unfold stopSpeaking, stopAllPlaying. simpl.
  do 5 (split; [done|]). split; [|split].
  - intros w body isError. by apply speakAndLog_quiet_case.
  - intros env msg Hturn. unfold onTurnComplete, midSpeech. rewrite Hturn.
    by destruct (nonEmpty (capturedInput env)), (nonEmpty (capturedOutput env)).
  - intros w msg c node payload d -> -> Hdata Hne Hd.
    unfold onInlineAudio. rewrite Hdata. run_M. simpl. rewrite Hne, Hd. simpl.
    done.
Qed.

Lemma stopSpeaking_mutes_speech_not_stream_witness :
  playingSourcesRef (stopSpeaking speaking) = [] ∧
  trace (fst (onInlineAudio offline audioChunk (stopSpeaking speaking)))
  = trace (stopSpeaking speaking) ++ [SourceStart 1%nat (Qmax (0 + 1) (0 + 5))].
Proof.
  destruct (stopSpeaking_mutes_speech_not_stream speaking)
    as (Hq & _ & _ & _ & _ & _ & _ & Hstream).
  destruct (Hstream offline audioChunk {| closed := false; currentTime := 0 + 5 |}
              {| connected := true |} "AAAA" 1%Q eq_refl eq_refl eq_refl eq_refl eq_refl)
    as [_ Ht].
  split; [exact Hq | exact Ht].
Defined.

(** ** Start, video frames, stop *)

(** X16.  Once its awaited calls have settled, in whichever of the six
    ways, [startSession] has not thrown, leaves [isConnecting] false, and
    keeps the playback queue and the playback clock of what
    came before.  Unless a constructor of an audio context throws, in
    which case the two context references are left as they were, it
    installs two fresh, open audio contexts, also when it fails later.
    When the connection opens, the hook listens, holds a new open session
    with nothing sent, whose handler has captured the two transcription
    buffers, and neither logs nor closes anything (a session already held
    is dropped as it is).  On every failure one message is logged, the
    assistant stays as active as it was, the session reference is left
    alone, and the error goes to the console, twice when it is the
    socket that failed to open. *)
Theorem startSession_outcomes (o : StartOutcome) (st : Orch) :
  let st' := fst (startSession o st) in
  snd (startSession o st) = Returned tt ∧
  isConnecting st' = false ∧
  playingSourcesRef st' = playingSourcesRef st ∧
  nextStartTimeRef st' = nextStartTimeRef st ∧
  match o with
  | ContextFailed =>
      audioContextRef st' = audioContextRef st ∧
      outputContextRef st' = outputContextRef st
  | _ =>
      closed <$> audioContextRef st' = Some false ∧
      closed <$> outputContextRef st' = Some false
  end ∧
  match o with
  | Connected =>
      isListening st' = true ∧ isAssistantActive st' = true ∧
      messages st' = messages st ∧ trace st' = trace st ∧
      liveSessionRef st'
      = Some {| ws := {| readyState := OPEN; sent := [] |};
                callbacks := {| capturedInput := currentInputTranscription st;
                                capturedOutput := currentOutputTranscription st |} |} ∧
      connected <$> inputSourceRef st' = Some true ∧
      connected <$> processorRef st' = Some true
  | _ =>
      messages st' = messages st ++ [plain ai "Connection failed. Check permissions."] ∧
      isAssistantActive st' = isAssistantActive st ∧
      liveSessionRef st' = liveSessionRef st ∧
      ∃ e, trace st' = trace st ++ match o with
                                   | ConnectFailed => [ConsoleError e; ConsoleError e]
                                   | _ => [ConsoleError e]
                                   end
  end.
Proof.
  destruct st as [l cn a ci co ms s ac oc isrc pr on ps nt hi sc tr].
  destruct o; unfold startSession; run_M; simpl;
    repeat (split; [done|]); try done;
    eexists; rewrite <- ?app_assoc; reflexivity.
Qed.

(** X17.  Video frames go out only between a successful start and the
    next stop: after [stopSession], and after a start that failed with no
    session held, [sendVideoFrame] changes nothing; right after a
    successful start the frame is the first thing on the wire.  In every
    state the call leaves the log, the trace and playback alone. *)
Theorem video_frames_flow_only_in_session (frame : Base64Media) (st : Orch) :
  sendVideoFrame frame (fst (stopSession st)) = fst (stopSession st) ∧
  wire (sendVideoFrame frame (fst (startSession Connected st))) = [RealtimeInput frame] ∧
  (∀ o, o ≠ Connected → liveSessionRef st = None →
     sendVideoFrame frame (fst (startSession o st)) = fst (startSession o st)) ∧
  messages (sendVideoFrame frame st) = messages st ∧
  trace (sendVideoFrame frame st) = trace st ∧
  playingSourcesRef (sendVideoFrame frame st) = playingSourcesRef st.
Proof.
  destruct st as [l cn a ci co ms s ac oc isrc pr on ps nt hi sc tr].
  split; [|split; [|split]].
  - unfold stopSession, sendVideoFrame; run_M; simpl. by destruct s.
  - unfold startSession, sendVideoFrame, wire; run_M; simpl. done.
  - intros o Ho Hs. simpl in Hs. subst s.
    destruct o; try done; unfold startSession, sendVideoFrame; run_M; simpl; done.
  - unfold sendVideoFrame. simpl. by destruct s.
Qed.

Lemma video_frames_flow_only_in_session_witness :
  sendVideoFrame micChunk refused = refused.
Proof.
  destruct (video_frames_flow_only_in_session micChunk initial) as (_ & _ & Hfail & _).
  apply (Hfail MicDenied); done.
Defined.

End AssistantFacts.

(** ** More of the analysis cycle *)

Module AnalysisFacts.

Import Transport Visualizer VisualizerFacts.

Lemma backoff_values (errorMsg : string) :
  backoff errorMsg ∈ [1000; 2000; 5000; 10000; 60000]%N.
Proof.
  unfold backoff. destruct (isQuotaError errorMsg), (isTimeout errorMsg); set_solver.
Qed.

Lemma timers_app (l k : list Effect) : timers (l ++ k) = timers l ++ timers k.
Proof. apply omap_app. Qed.

Lemma added_app (c : Cycle) (st : State) (effects : list Effect) :
  trace (runAnalysis c st) = trace st ++ effects → added c st = effects.
Proof. intros Ht. unfold added. rewrite Ht. apply drop_app_length. Qed.

Lemma checkEmergency_cells (c : Cycle) (sceneDescription : string) (st : State) :
  ∃ st' said,
    checkEmergency c sceneDescription st = (st', Returned tt) ∧
    trace st' = trace st ++ said ∧ timers said = [] ∧
    coverageRatio st' = coverageRatio st ∧ boundingBoxes st' = boundingBoxes st ∧
    isAnalyzingRef st' = isAnalyzingRef st.
Proof.
  unfold checkEmergency.
  destruct (includes marker sceneDescription) eqn:Hinc;
    [|exists (setEmergencyTriggeredRef None st), []; destruct st; simpl;
      by rewrite app_nil_r].
  destruct (onEmergencyTrigger c);
    [|exists (setEmergencyTriggeredRef None st), []; destruct st; simpl;
      by rewrite app_nil_r].
  cbn [andb]. destruct (emergencyTypeOf_returns _ Hinc) as [emergencyType ->].
  destruct (decide _).
  - eexists _, _. split; [reflexivity|]. by destruct st.
  - exists st, []. by rewrite app_nil_r.
Qed.

Lemma cycle_adds (c : Cycle) (st : State) :
  isEnabled c = true → isDetectionEnabled c = true →
  onLine c = false ∨ isAnalyzingRef st = false →
  ∃ effects delay,
    trace (runAnalysis c st) = trace st ++ effects ∧
    timers effects = [delay] ∧
    delay ∈ [1000; 2000; 5000; 10000; 60000]%N ∧
    (onLine c = true → isAnalyzingRef (runAnalysis c st) = false).
Proof.
  intros Hen Hdet Hgo. unfold runAnalysis. rewrite Hen, Hdet. cbn [negb orb].
  destruct (onLine c) eqn:Hon; cbn [negb].
  2:{ exists [AnalysisUpdate None false (Some "No internet connection.");
              SetTimeout 5000%N], 5000%N.
      clear Hgo. split; [by destruct st|]. split; [reflexivity|].
      split; [set_solver|done]. }
  destruct Hgo as [Hoff|Han]; [discriminate|]. rewrite Han.
  assert (Hrec : ∀ e st0 before, trace st0 = trace st ++ before → timers before = [] →
    ∃ effects delay,
      trace (setIsAnalyzingRef false (recover e st0)) = trace st ++ effects ∧
      timers effects = [delay] ∧ delay ∈ [1000; 2000; 5000; 10000; 60000]%N ∧
      (true = true → isAnalyzingRef (setIsAnalyzingRef false (recover e st0)) = false)).
  { intros e st0 before Ht0 Hquiet. destruct (recover_spec e st0) as (Ht & _).
    exists (before ++ [ConsoleError "Analysis error";
                       AnalysisUpdate None false (Some (notice e));
                       SetTimeout (backoff e)]), (backoff e).
    split; [|split; [|split; [apply backoff_values|]]].
    - destruct (recover e st0). simpl in *. rewrite Ht, Ht0, <- app_assoc. done.
    - rewrite timers_app, Hquiet. reflexivity.
    - intros _. by destruct (recover e st0). }
  unfold analyse.
  destruct (captureFrame c) as [[frame|]|e].
  - destruct (generateObjectDescription c frame) as [result|e].
    + destruct (jsonDetectedObjects result) as [detectedObjects|];
        [destruct (jsonSceneDescription result) as [sceneDescription|]|].
      * set (st1 := setCoverageRatio _ _).
        destruct (checkEmergency_cells c sceneDescription st1)
          as (st2 & said & -> & Ht2 & Htimers & _).
        exists (AnalysisUpdate (Some result) false None :: said ++ [SetTimeout 2000%N]),
          2000%N.
        split; [|split; [|split; [|by destruct st2]]].
        -- destruct st2. simpl in *. rewrite Ht2. unfold st1. destruct st. simpl.
           rewrite <- !app_assoc. done.
        -- change (timers ([AnalysisUpdate (Some result) false None]
                           ++ said ++ [SetTimeout 2000%N]) = [2000%N]).
           rewrite !timers_app, Htimers. reflexivity.
        -- set_solver.
      * apply (Hrec _ _ [AnalysisUpdate (Some result) false None]); [by destruct st|done].
      * apply (Hrec _ _ [AnalysisUpdate (Some result) false None]); [by destruct st|done].
    + apply (Hrec _ _ []); [destruct st; simpl; by rewrite app_nil_r|done].
  - exists [SetTimeout 1000%N], 1000%N. split; [by destruct st|]. split; [reflexivity|].
    split; [set_solver|]. by destruct st.
  - apply (Hrec _ _ []); [destruct st; simpl; by rewrite app_nil_r|done].
Qed.

(** X18.  The analysis loop stops only at its two guards: a cycle run with
    the camera or the detection off, or while another cycle is in flight
    and the browser is online, changes nothing and sets no timer.  Every
    other cycle, however its requests end, sets exactly one timer, of 1,
    2, 5, 10 or 60 seconds, and when online leaves the in-flight flag
    lowered. *)
Theorem cycle_reschedules_itself (c : Cycle) (st : State) :
  (isEnabled c = false ∨ isDetectionEnabled c = false → runAnalysis c st = st) ∧
  (onLine c = true → isAnalyzingRef st = true → runAnalysis c st = st) ∧
  (isEnabled c = true → isDetectionEnabled c = true →
   onLine c = false ∨ isAnalyzingRef st = false →
   ∃ delay,
     timers (added c st) = [delay] ∧
     delay ∈ [1000; 2000; 5000; 10000; 60000]%N ∧
     (onLine c = true → isAnalyzingRef (runAnalysis c st) = false)).
Proof.
  split; [|split].
  - unfold runAnalysis. intros [-> | ->]; [done|]. by rewrite orb_true_r.
  - unfold runAnalysis. intros -> ->.
    by destruct (negb (isEnabled c) || negb (isDetectionEnabled c)).
  - intros Hen Hdet Hgo.
    destruct (cycle_adds c st Hen Hdet Hgo) as (effects & delay & Ht & Htimers & Hd & Han).
    exists delay. by rewrite (added_app c st effects Ht).
Qed.

Lemma cycle_reschedules_itself_witness :
  ∃ delay,
    timers (added (failing "Error: request timed out") initial) = [delay] ∧
    delay ∈ [1000; 2000; 5000; 10000; 60000]%N.
Proof.
  destruct (cycle_reschedules_itself (failing "Error: request timed out") initial)
    as (_ & _ & Hfail).
  destruct (Hfail eq_refl eq_refl (or_intror eq_refl)) as (delay & Htimers & Hdelay & _).
  exists delay. split; [exact Htimers | exact Hdelay].
Defined.


(** ** The proximity light *)

Lemma largest_fold (objects : list DetectedObject) (acc : Q) :
  let largest := foldl (λ maxArea obj,
                          if Qlt_le_dec maxArea (area (boundingBox obj))
                          then area (boundingBox obj) else maxArea) acc objects in
  (acc <= largest)%Q ∧
  Forall (λ obj, (area (boundingBox obj) <= largest)%Q) objects ∧
  (largest = acc ∨ ∃ obj, obj ∈ objects ∧ largest = area (boundingBox obj)).
Proof.
  revert acc. induction objects as [|obj objects IH]; intros acc; simpl.
  - split; [apply Qle_refl|]. split; [constructor|by left].
  - destruct (Qlt_le_dec acc (area (boundingBox obj))) as [Hlt|Hle].
    + destruct (IH (area (boundingBox obj))) as (Hacc & Hall & Hatt).
      split; [eapply Qle_trans; [apply Qlt_le_weak, Hlt|exact Hacc]|].
      split; [by constructor|]. right.
      destruct Hatt as [->|(o & Ho & ->)];
        [exists obj; split; [apply list_elem_of_here|done]
        |exists o; split; [by apply list_elem_of_further|done]].
    + destruct (IH acc) as (Hacc & Hall & Hatt).
      split; [done|].
      split; [constructor; [by eapply Qle_trans|done]|].
      destruct Hatt as [->|(o & Ho & ->)]; [by left|right; exists o].
      split; [by apply list_elem_of_further|done].
Qed.

(** X19.  After a successful cycle the component shows the result it got
    and the coverage ratio is the area of the largest detected box: never
    negative, at least the area of every box, and either 0 or the area of
    one of them, so that boxes of negative area are ignored and a result
    without objects gives 0. *)
Theorem coverage_is_largest_box (c : Cycle) (result : AnalysisResult) (st : State) :
  succeeds c result → isAnalyzingRef st = false →
  let st' := runAnalysis c st in
  boundingBoxes st' = Some (typed result) ∧
  coverageRatio st' = largestArea (detectedObjects result) ∧
  (0 <= coverageRatio st')%Q ∧
  Forall (λ obj, (area (boundingBox obj) <= coverageRatio st')%Q) (detectedObjects result) ∧
  (coverageRatio st' = 0%Q ∨
   ∃ obj, obj ∈ detectedObjects result ∧ coverageRatio st' = area (boundingBox obj)).
Proof.
  intros (Hen & Hdet & Hon & frame & Hcap & Hgen) Han st'.
  assert (Hcells : boundingBoxes st' = Some (typed result) ∧
                   coverageRatio st' = largestArea (detectedObjects result)).
  { unfold st', runAnalysis, analyse. rewrite Hen, Hdet, Hon, Han, Hcap, Hgen.
    cbn [negb orb jsonDetectedObjects jsonSceneDescription typed].
    set (st1 := setCoverageRatio _ _).
    destruct (checkEmergency_cells c (sceneDescription result) st1)
      as (st2 & said & -> & _ & _ & Hcov & Hbb & _).
    assert (coverageRatio st1 = largestArea (detectedObjects result)
            ∧ boundingBoxes st1 = Some (typed result)) as [Hc1 Hb1].
    { unfold st1. destruct st. simpl. split; [|done].
      by destruct (detectedObjects result). }
    destruct st2. simpl in *. split; congruence. }
  destruct Hcells as [Hbb Hcov]. rewrite Hcov. split; [done|]. split; [done|].
  apply (largest_fold (detectedObjects result) 0%Q).
Qed.

Lemma coverage_is_largest_box_witness :
  coverageRatio (runAnalysis (detecting cupAndGhost) initial)
  = largestArea (detectedObjects cupAndGhost) ∧
  (0 <= coverageRatio (runAnalysis (detecting cupAndGhost) initial))%Q.
Proof.
  destruct (coverage_is_largest_box (detecting cupAndGhost) cupAndGhost initial)
    as (_ & Hcov & Hpos & _).
  - repeat split; try reflexivity. exists frame0. split; reflexivity.
  - reflexivity.
  - split; [exact Hcov | exact Hpos].
Defined.

(** ** The emergency key across cycles that do not succeed *)







End AnalysisFacts.

(** ** More of the camera hook *)

Module CameraFacts.

Import Webcam WebcamFacts.

Lemma onError_text (errName : string) (h : Hook) :
  error (onError errName h) = Some (errorText errName) ∧
  facingMode (onError errName h) = facingMode h ∧
  hasTorch (onError errName h) = hasTorch h ∧
  isTorchOn (onError errName h) = isTorchOn h.
Proof.
  destruct h as [st en fm mc ht to er dv fl]. unfold onError, errorText.
  destruct (String.eqb errName "NotAllowedError"); [done|].
  destruct (String.eqb errName "NotFoundError"); done.
Qed.

Lemma stopHeld_cells (h : Hook) :
  facingMode (stopHeld h) = facingMode h ∧ hasTorch (stopHeld h) = hasTorch h ∧
  isTorchOn (stopHeld h) = isTorchOn h ∧ error (stopHeld h) = error h ∧
  inFlight (stopHeld h) = inFlight h ∧ stream (stopHeld h) = stream h ∧
  isEnabled (stopHeld h) = isEnabled h ∧
  length (devices (stopHeld h)) = length (devices h).
Proof.
  destruct h as [[i|] en fm mc ht to er dv fl]; unfold stopHeld; simpl; [|done].
  repeat split. apply length_alter.
Qed.

(** A call of [enableWebcam] that does not return early, made in a
    settled state and run to its end. *)
Lemma enableWebcam_fresh (mode : FacingMode) (o : Acquisition) (h : Hook) :
  settled h → alreadyOn mode h = false →
  let h' := enableWebcam mode o h in
  inFlight h' = [] ∧
  match o with
  | Granted (Capabilities torch) =>
      stream h' = Some (length (devices h)) ∧ isEnabled h' = true ∧
      facingMode h' = mode ∧ heldActive h' = true ∧ activeStreams h' = 1%nat ∧
      hasTorch h' = torch ∧ isTorchOn h' = false ∧ error h' = None
  | Granted (ProbeThrows errName) =>
      stream h' = None ∧ isEnabled h' = false ∧ facingMode h' = mode ∧
      activeStreams h' = 1%nat ∧ error h' = Some (errorText errName)
  | Refused errName =>
      stream h' = None ∧ isEnabled h' = false ∧ facingMode h' = facingMode h ∧
      activeStreams h' = 0%nat ∧ hasTorch h' = hasTorch h ∧
      isTorchOn h' = isTorchOn h ∧ error h' = Some (errorText errName)
  end.
Proof.
  intros [Hfl Hcount] Hon h'. unfold h', enableWebcam. rewrite Hon.
  destruct (request_spec mode h Hon) as (Hfl' & _ & Hcount' & _).
  assert (Hcells : facingMode (enableWebcam_request mode h) = facingMode h ∧
                   hasTorch (enableWebcam_request mode h) = hasTorch h ∧
                   isTorchOn (enableWebcam_request mode h) = isTorchOn h ∧
                   length (devices (enableWebcam_request mode h)) = length (devices h)).
  { unfold enableWebcam_request. rewrite Hon.
    destruct (stopHeld_cells h) as (? & ? & ? & _ & _ & _ & _ & ?).
    by destruct (stopHeld h). }
  destruct Hcells as (Hfm & Hht & Hto & Hlen).
  set (h1 := enableWebcam_request mode h) in *.
  rewrite Hfl in Hfl'. simpl in Hfl'.
  assert (Hzero : activeStreams h1 = 0%nat).
  { rewrite Hcount', Hcount. destruct (heldActive h); lia. }
  unfold enableWebcam_settle. rewrite Hfl'.
  destruct h1 as [st en fm mc ht to er dv fl]. unfold activeStreams in Hzero. simpl in *.
  subst fm ht to.
  assert (Hone : length (filter (λ s, active s = true) (dv ++ [{| tracks := [true] |}]))
                 = 1%nat).
  { fold (countActive (dv ++ [{| tracks := [true] |}])).
    rewrite countActive_app. unfold countActive at 1. rewrite Hzero. done. }
  destruct o as [[torch|errName]|errName].
  - split; [done|]. unfold activeStreams, heldActive. simpl.
    rewrite list_lookup_middle by done. simpl. rewrite Hlen. done.
  - match goal with |- _ ∧ (stream (onError ?e ?x) = _ ∧ _) =>
      destruct (onError_cells e x) as (Hs & He & Hd & Hf);
      destruct (onError_text e x) as (Hm & Hfm & _) end.
    split; [by rewrite Hf|]. unfold activeStreams. rewrite Hs, He, Hd, Hm, Hfm. done.
  - match goal with |- _ ∧ (stream (onError ?e ?x) = _ ∧ _) =>
      destruct (onError_cells e x) as (Hs & He & Hd & Hf);
      destruct (onError_text e x) as (Hm & Hfm & Hht & Hto) end.
    split; [by rewrite Hf|]. unfold activeStreams.
    rewrite Hs, He, Hd, Hm, Hfm, Hht, Hto. done.
Qed.

Lemma toggle_not_alreadyOn (h : Hook) : alreadyOn (newMode (facingMode h)) h = false.
Proof.
  unfold alreadyOn.
  rewrite (bool_decide_eq_false_2 (facingMode h = newMode (facingMode h)))
    by by destruct (facingMode h).
  by rewrite andb_false_r.
Qed.

(** X21.  [toggleCamera] never takes the early return of [enableWebcam].
    From a settled state: when the new stream is granted the facing mode
    has flipped, exactly one stream is active and it is the one held, and
    the torch is off; when the request is refused the camera is off, no
    stream is active, the facing mode is the old one, the message fits
    the error name, and the two torch flags are left as they were. *)
Theorem toggleCamera_switches_or_turns_off (o : Acquisition) (h : Hook) :
  settled h →
  let h' := toggleCamera o h in
  match o with
  | Granted (Capabilities torch) =>
      facingMode h' = newMode (facingMode h) ∧ isEnabled h' = true ∧
      heldActive h' = true ∧ activeStreams h' = 1%nat ∧
      hasTorch h' = torch ∧ isTorchOn h' = false ∧ error h' = None
  | Granted (ProbeThrows errName) =>
      facingMode h' = newMode (facingMode h) ∧ isEnabled h' = false ∧
      stream h' = None ∧ activeStreams h' = 1%nat
  | Refused errName =>
      facingMode h' = facingMode h ∧ isEnabled h' = false ∧
      stream h' = None ∧ activeStreams h' = 0%nat ∧
      hasTorch h' = hasTorch h ∧ isTorchOn h' = isTorchOn h ∧
      error h' = Some (errorText errName)
  end.
Proof.
  intros Hsettled h'.
  destruct (enableWebcam_fresh (newMode (facingMode h)) o h Hsettled
              (toggle_not_alreadyOn h)) as [_ Hcases].
  fold (toggleCamera o h) in Hcases. fold h' in Hcases.
  destruct o as [[torch|errName]|errName].
  - by destruct Hcases as (_ & ? & ? & ? & ? & ? & ? & ?).
  - by destruct Hcases as (? & ? & ? & ? & _).
  - by destruct Hcases as (? & ? & ? & ? & ? & ? & ?).
Qed.

Lemma toggleCamera_switches_or_turns_off_witness :
  let h' := toggleCamera (Refused "NotFoundError") torchLit in
  isEnabled h' = false ∧ activeStreams h' = 0%nat ∧
  isTorchOn h' = true ∧ error h' = Some "No camera found.".
Proof.
  intros h'.
  destruct (toggleCamera_switches_or_turns_off (Refused "NotFoundError") torchLit)
    as (_ & Hen & _ & Hact & _ & Hto & Herr).
  { split; reflexivity. }
  split; [exact Hen|]. split; [exact Hact|]. split; [|exact Herr].
  unfold h'. rewrite Hto. reflexivity.
Defined.


(** X22.  [toggleTorch] does nothing without a stream or without torch
    capability.  Otherwise a constraint that is applied flips the torch
    flag, so that two successful toggles give back the state they started
    from, and a constraint that is rejected clears both torch flags: from
    then on the toggle does nothing until a new stream is probed.  The
    camera itself is never touched. *)
Theorem toggleTorch_flips_or_gives_up (applyConstraints : Outcome unit) (h : Hook) :
  let h' := toggleTorch applyConstraints h in
  (stream h = None ∨ hasTorch h = false → h' = h) ∧
  (is_Some (stream h) → hasTorch h = true →
     match applyConstraints with
     | Returned _ =>
         isTorchOn h' = negb (isTorchOn h) ∧ hasTorch h' = true ∧
         toggleTorch (Returned tt) h' = h
     | Threw _ =>
         isTorchOn h' = false ∧ hasTorch h' = false ∧
         ∀ next, toggleTorch next h' = h'
     end) ∧
  stream h' = stream h ∧ isEnabled h' = isEnabled h ∧ facingMode h' = facingMode h ∧
  devices h' = devices h ∧ error h' = error h.
Proof.
  destruct h as [st en fm mc ht to er dv fl]. unfold toggleTorch. simpl.
  split; [|split].
  - intros [-> | ->]; [done|]. by rewrite orb_true_r.
  - intros [i ->] ->. simpl.
    destruct applyConstraints as [[]|e]; simpl.
    + by rewrite negb_involutive.
    + done.
  - destruct st as [i|], ht; simpl; try done. by destruct applyConstraints.
Qed.

Lemma toggleTorch_flips_or_gives_up_witness :
  isTorchOn torchLit = true ∧
  toggleTorch (Returned tt) torchLit
  = enableWebcam environment (Granted (Capabilities true)) initial.
Proof.
  destruct (toggleTorch_flips_or_gives_up (Returned tt)
              (enableWebcam environment (Granted (Capabilities true)) initial))
    as (_ & Hflip & _).
  destruct Hflip as (Hon & _ & Hback); [by eexists | reflexivity |].
  split; [exact Hon | exact Hback].
Defined.

(** X23.  [disableWebcam] stops the stream it holds and only that one: it
    forgets the stream, turns the camera and both torch flags off, and
    keeps the facing mode and the last error.  From a settled state no
    stream is left active.  A request still in flight is not cancelled:
    when it is granted afterwards the camera is on again. *)
Theorem disableWebcam_releases_held_stream (h : Hook) :
  let h' := disableWebcam h in
  stream h' = None ∧ isEnabled h' = false ∧
  hasTorch h' = false ∧ isTorchOn h' = false ∧
  facingMode h' = facingMode h ∧ error h' = error h ∧
  activeStreams h' = (activeStreams h - (if heldActive h then 1 else 0))%nat ∧
  (settled h → activeStreams h' = 0%nat ∧ settled h') ∧
  disableWebcam h' = h' ∧
  (∀ mode rest torch,
     inFlight h = mode :: rest →
     let back := enableWebcam_settle (Granted (Capabilities torch)) h' in
     isEnabled back = true ∧ heldActive back = true ∧ facingMode back = mode).
Proof.
  pose proof (stopHeld_count h) as Hcount.
  destruct (stopHeld_cells h) as (Hfm & _ & _ & Her & Hfl & _ & _ & _).
  unfold disableWebcam.
  destruct (stopHeld h) as [st en fm mc ht to er dv fl] eqn:Hstop.
  unfold activeStreams in *. simpl in *.
  do 6 (split; [done|]). split; [done|]. split; [|split].
  - intros [Hnone Hsettled]. unfold activeStreams in Hsettled.
    assert (Hzero : length (filter (λ s, active s = true) dv) = 0%nat)
      by (rewrite Hcount, Hsettled; destruct (heldActive h); lia).
    split; [done|]. split; [by rewrite Hfl|].
    unfold activeStreams, heldActive. simpl. exact Hzero.
  - done.
  - intros mode rest torch Hin. rewrite Hin in Hfl. subst fl.
    unfold enableWebcam_settle, heldActive. simpl.
    by rewrite list_lookup_middle.
Qed.

Lemma disableWebcam_releases_held_stream_witness :
  activeStreams (disableWebcam torchLit) = 0%nat ∧
  isTorchOn (disableWebcam torchLit) = false.
Proof.
  destruct (disableWebcam_releases_held_stream torchLit)
    as (_ & _ & _ & Hto & _ & _ & _ & Hsettled & _).
  destruct Hsettled as [Hzero _]; [split; reflexivity|].
  split; [exact Hzero | exact Hto].
Defined.

End CameraFacts.

(** ** More of the location hook *)

Module LocationFacts.

Import Geolocation GeolocationFacts.

(** X24.  Once the platform has answered the request in flight, the next
    call asks the platform again, with a new promise; the promise that was
    answered keeps its value.  While the new request is pending the
    status is [pending] and the error is cleared, but the last fix is
    still reported: a failed request does not erase it either. *)
Theorem request_after_answer_asks_again (p : nat) (a : Answer) (h : Hook) :
  promiseRef h = Some p → promises h !! p = Some Pending →
  ∃ h2,
    requestLocation true (answer p a h) = (h2, Follows (length (promises h))) ∧
    platformRequests h2 = platformRequests h ++ [length (promises h)] ∧
    outcome h2 (Follows p) = Fulfilled (answered a) ∧
    outcome h2 (Follows (length (promises h))) = Pending ∧
    status h2 = pending ∧ error h2 = None ∧
    location h2 = match a with
                  | Position coords => Some coords
                  | PositionError _ => location h
                  end.
Proof.
  intros Href Hp.
  destruct (answer_settles p a h Hp) as (Hps & Hnone & Hreqs & _ & Hloc & _).
  destruct (first_call_issues (answer p a h) Hnone)
    as (h2 & Hrun & _ & Hps2 & Hreqs2 & Hst & Herr & Hloc2).
  assert (Hlen : length (promises (answer p a h)) = length (promises h))
    by (rewrite Hps; apply length_insert).
  pose proof (lookup_lt_Some _ _ _ Hp) as Hlt.
  exists h2. rewrite <- Hlen. split; [done|].
  split; [by rewrite Hreqs2, Hreqs|].
  split; [|split; [|split; [done|split; [done|congruence]]]].
  - unfold outcome. rewrite Hps2, lookup_app_l by lia.
    rewrite Hps, list_lookup_insert_eq by done. done.
  - unfold outcome. rewrite Hps2, list_lookup_middle by done. done.
Qed.

Lemma request_after_answer_asks_again_witness :
  ∃ h2,
    requestLocation true (answer 1 (PositionError "Timeout expired") refreshing)
    = (h2, Follows 2%nat) ∧
    location h2 = Some greenwich ∧ status h2 = pending.
Proof.
  destruct (request_after_answer_asks_again 1 (PositionError "Timeout expired") refreshing)
    as (h2 & Hrun & _ & _ & _ & Hst & _ & Hloc); [reflexivity | reflexivity |].
  exists h2. split; [exact Hrun|]. split; [exact Hloc | exact Hst].
Defined.

(** ** One request at a time *)

Lemma resolve_singleFlight (p : nat) (v : option LatLng) (h : Hook) :
  singleFlight h → singleFlight (resolve p v h).
Proof.
  intros Hone. unfold resolve.
  destruct (promises h !! p) as [[| |]|] eqn:Hp; try done.
  pose proof (Hone p Hp) as Href.
  destruct h as [loc st err ref ps reqs]. simpl in *.
  intros q Hq. simpl in *.
  destruct (decide (p = q)) as [->|Hne].
  - rewrite list_lookup_insert_eq in Hq by by apply lookup_lt_Some in Hp. discriminate.
  - rewrite list_lookup_insert_ne in Hq by done.
    specialize (Hone q Hq). simpl in Hone. congruence.
Qed.

Lemma step_singleFlight (hasGeolocation : bool) (h : Hook) (e : Event) :
  singleFlight h → singleFlight (step hasGeolocation h e).
Proof.
  intros Hone. destruct e as [|p [coords|message]]; simpl.
  - unfold requestLocation. destruct (promiseRef h) eqn:Href; [done|].
    destruct hasGeolocation; simpl.
    + destruct h as [loc st err ref ps reqs]. simpl in *. subst ref.
      intros q Hq. simpl in *.
      apply lookup_app_Some in Hq as [Hq|[Hge Hq]]; [by specialize (Hone q Hq)|].
      f_equal. apply list_lookup_singleton_Some in Hq as [Hq _]. lia.
    + destruct h as [loc st err ref ps reqs]. simpl in *. subst ref.
      intros q Hq. by specialize (Hone q Hq).
  - apply resolve_singleFlight. by destruct h.
  - apply resolve_singleFlight. by destruct h.
Qed.

Lemma run_singleFlight (hasGeolocation : bool) (events : list Event) (h : Hook) :
  singleFlight h → singleFlight (run hasGeolocation events h).
Proof.
  unfold run. revert h. induction events as [|e events IH]; intros h Hone; [done|].
  simpl. apply IH. by apply step_singleFlight.
Qed.

(** X25.  In any interleaving of calls and platform answers, for any
    promise and in any order, at most one location request is
    outstanding: a promise that is still pending is the one held in
    [promiseRef], so two pending promises are the same promise, and with
    the reference empty every promise handed out has been settled. *)
Theorem one_request_outstanding (hasGeolocation : bool) (events : list Event) :
  let h := run hasGeolocation events initial in
  singleFlight h ∧
  (∀ p q, promises h !! p = Some Pending → promises h !! q = Some Pending → p = q) ∧
  (promiseRef h = None → ∀ p, promises h !! p ≠ Some Pending).
Proof.
  intros h.
  assert (Hone : singleFlight h).
  { apply run_singleFlight. intros p Hp. discriminate. }
  split; [exact Hone|]. split.
  - intros p q Hp Hq. pose proof (Hone p Hp). pose proof (Hone q Hq). congruence.
  - intros Hnone p Hp. pose proof (Hone p Hp). congruence.
Qed.

Lemma one_request_outstanding_witness :
  promises refreshing !! 1%nat = Some Pending ∧ promiseRef refreshing = Some 1%nat.
Proof.
  destruct (one_request_outstanding true
              [Request; PlatformAnswer 0 (Position greenwich); Request]) as (Hone & _).
  split; [reflexivity|]. apply Hone. reflexivity.
Defined.

End LocationFacts.

(** ** The endpoints and their callers *)

Module ServerFacts.

Import Server Client.

(** X26.  The speech endpoint answers 400 to a request without text or
    without voice, whatever the speech model would do, 200 with the audio
    when the model gives some, and 500 otherwise.  Against this endpoint
    the client's [generateSpeech] returns exactly when the request named
    a text and a voice and the model produced audio, and what it returns
    is that audio, never empty; in every other case it throws. *)
Theorem speech_is_returned_only_with_audio (text voiceName : option string)
    (generateContent : string → string → Outcome (option string)) :
  let reply := tts text voiceName generateContent in
  (truthy text = false ∨ truthy voiceName = false →
     ∀ other, tts text voiceName other
              = {| status := 400; body := ErrorBody "Missing text or voiceName" |}) ∧
  status reply ∈ [200; 400; 500]%N ∧
  (∀ result,
     generateSpeech (Returned reply) = Returned result ↔
     truthy text = true ∧ truthy voiceName = true ∧ truthy result = true ∧
     generateContent (show text) (show voiceName) = Returned result) ∧
  (status reply ≠ 200%N → ∃ e, generateSpeech (Returned reply) = Threw e).
Proof.
  unfold tts. split; [|split; [|split]].
  - intros Hmissing other.
    destruct Hmissing as [-> | ->]; [done|]. by rewrite orb_true_r.
  - destruct (truthy text), (truthy voiceName); simpl;
      try (apply elem_of_cons; right; apply elem_of_cons; by left).
    destruct (generateContent _ _) as [[[|c audio]|]|e]; simpl;
      first [ apply elem_of_cons; by left
            | do 2 (apply elem_of_cons; right); apply elem_of_cons; by left ].
  - intros result.
    destruct (truthy text) eqn:Ht, (truthy voiceName) eqn:Hv; simpl;
      try (split; [discriminate | by intros (? & ? & _)]).
    destruct (generateContent _ _) as [[[|c audio]|]|e]; simpl.
    + split; [discriminate|]. intros (_ & _ & Hr & Heq). by simplify_eq.
    + split; [intros [= <-]; done|]. intros (_ & _ & _ & [= <-]). done.
    + split; [discriminate|]. intros (_ & _ & Hr & Heq). by simplify_eq.
    + split; [discriminate|]. intros (_ & _ & _ & Heq). discriminate.
  - destruct (truthy text), (truthy voiceName); simpl; try (intros _; by eexists).
    destruct (generateContent _ _) as [[[|c audio]|]|e]; simpl; intros Hne;
      first [done | by eexists].
Qed.

Lemma speech_is_returned_only_with_audio_witness :
  generateSpeech (Returned (tts (Some "Hello") (Some "Zephyr") clip))
  = Returned (Some "UklGRg==") ∧
  tts (Some "") (Some "Zephyr") clip
  = {| status := 400; body := ErrorBody "Missing text or voiceName" |}.
Proof.
  destruct (speech_is_returned_only_with_audio (Some "Hello") (Some "Zephyr") clip)
    as (_ & _ & Hok & _).
  destruct (speech_is_returned_only_with_audio (Some "") (Some "Zephyr") clip)
    as (Hmissing & _).
  split; [by apply Hok | apply Hmissing; by left].
Defined.

(** X27.  The scene endpoint never answers 200 with an empty description:
    when the model gives no text it sends "I could not analyze the
    scene.".  Against this endpoint the client's
    [analyzeSceneForNavigation] returns a non-empty text whenever the model
    call returns, and throws whenever the model call throws. *)
Theorem scene_description_is_never_empty (generateContent : Outcome (option string)) :
  match generateContent with
  | Returned text =>
      ∃ description,
        analyzeSceneForNavigation (Returned (analyzeScene generateContent))
        = Returned (Some description) ∧
        nonEmpty description = true ∧
        (truthy text = true → text = Some description) ∧
        (truthy text = false → description = "I could not analyze the scene.")
  | Threw _ =>
      ∃ e, analyzeSceneForNavigation (Returned (analyzeScene generateContent)) = Threw e
  end.
Proof.
  destruct generateContent as [[[|c text]|]|e]; simpl; eexists; done.
Qed.

End ServerFacts.

(** ** The emergency handlers *)

Module AppFacts.

Import App.

Lemma requestLocation_again (hasGeolocation : bool) (h : Geolocation.Hook) :
  fst (Geolocation.requestLocation hasGeolocation
         (fst (Geolocation.requestLocation hasGeolocation h)))
  = fst (Geolocation.requestLocation hasGeolocation h) ∧
  Geolocation.location (fst (Geolocation.requestLocation hasGeolocation h))
  = Geolocation.location h ∧
  (length (Geolocation.platformRequests (fst (Geolocation.requestLocation hasGeolocation h)))
   ≤ S (length (Geolocation.platformRequests h)))%nat.
Proof.
  destruct h as [loc st err [p|] ps reqs]; unfold Geolocation.requestLocation; simpl.
  - repeat split; lia.
  - destruct hasGeolocation; simpl; repeat split; rewrite ?length_app; simpl; lia.
Qed.

(** X28.  Both emergency handlers open the dashboard.  The handler of the
    SOS button and of the visual trigger also stops a listening
    assistant, releasing its session, and asks for the location when no
    fix is known, with at most one new platform request; running it again
    changes nothing, so repeated triggers neither close twice nor ask the
    platform twice.  The handler given to the assistant's emergency tool
    leaves the assistant's session as it is. *)
Theorem emergency_handlers (hasGeolocation : bool) (app : State) :
  let app' := handleEmergencyOpen hasGeolocation app in
  isEmergencyOpen app' = true ∧
  Live.isListening (assistant app') = false ∧
  (Live.isListening (assistant app) = true → Live.tornDown (assistant app')) ∧
  (length (Geolocation.platformRequests (geolocation app'))
   ≤ S (length (Geolocation.platformRequests (geolocation app))))%nat ∧
  (is_Some (Geolocation.location (geolocation app)) → geolocation app' = geolocation app) ∧
  handleEmergencyOpen hasGeolocation app' = app' ∧
  isEmergencyOpen (onEmergencyTrigger hasGeolocation app) = true ∧
  assistant (onEmergencyTrigger hasGeolocation app) = assistant app.
Proof.
  destruct app as [open st h].
  destruct (requestLocation_again hasGeolocation h) as (Hagain & Hloc & Hreqs).
  assert (Hstop : Live.isListening (fst (Live.stopSession st)) = false)
    by by destruct (LiveFacts.stopSession_leaves_idle st).
  unfold handleEmergencyOpen. simpl.
  split; [done|]. split; [by destruct (Live.isListening st) eqn:Hl|].
  split; [intros ->; apply LiveFacts.stopSession_leaves_idle|].
  split; [destruct (Geolocation.location h); [lia|done]|].
  split; [by intros [loc ->]|]. split; [|done].
  f_equal.
  - destruct (Live.isListening st) eqn:Hl; [by rewrite Hstop|by rewrite Hl].
  - destruct (Geolocation.location h) eqn:Hl; [by rewrite Hl|].
    rewrite Hloc. exact Hagain.
Qed.

Lemma emergency_handlers_witness :
  Live.tornDown (assistant (handleEmergencyOpen true listening)) ∧
  Geolocation.platformRequests
    (geolocation (handleEmergencyOpen true (handleEmergencyOpen true listening)))
  = [0%nat].
Proof.
  destruct (emergency_handlers true listening) as (_ & _ & Hidle & _ & _ & Hagain & _).
  split; [apply Hidle; reflexivity|]. rewrite Hagain. reflexivity.
Defined.

End AppFacts.
